(** * Enfugue diffusion engine and pipeline manager: a shallow embedding

    The development follows two source files of the repository:

    - [enfugue/diffusion/manager.py] ([DiffusionPipelineManager]): cache keys,
      configuration setters, the lazily built pipelines with their
      offload / reload / unload life cycle, and the generation call;
    - [enfugue/diffusion/engine.py] ([DiffusionEngine]): the three queues, the
      worker process handle, [dispatch], [wait] and [terminate_process].

    Python values are modelled as the code uses them: [int] as [Z], [str] as
    [string] (a sequence of bytes compared byte by byte, which is the order
    of code points on UTF-8), [float] by its exact rational value in [Q],
    dictionaries as finite maps, attributes that may be absent ([hasattr])
    as [option]. *)

From Stdlib Require Import ZArith QArith Qround Lqa Lia List Permutation Ascii String.
From stdpp Require Import base strings list sorting pretty gmap.

Close Scope Q_scope.
Open Scope Z_scope.

(* ===================================================================== *)
(** * Part I. Python primitives used by the two files                      *)
(* ===================================================================== *)

Module Py.

(** [sep.join(parts)] *)
Fixpoint join (sep : string) (parts : list string) : string :=
  match parts with
  | [] => ""
  | [p] => p
  | p :: rest => p +:+ sep +:+ join sep rest
  end.

(** [a <= b] on [str]: lexicographic on the character codes. *)
Definition str_le (a b : string) : bool := String.leb a b.

(** [sorted(l, key=key)]: Python's sort is stable, and the result of a
    stable sort is determined by the input; it is computed here by
    insertion, an element going before the first one whose key is not
    smaller than its own. *)
Fixpoint insert_by {A} (key : A -> string) (x : A) (l : list A) : list A :=
  match l with
  | [] => [x]
  | y :: l' =>
      if str_le (key x) (key y) then x :: y :: l' else y :: insert_by key x l'
  end.

Fixpoint sorted {A} (key : A -> string) (l : list A) : list A :=
  match l with
  | [] => []
  | x :: l' => insert_by key x (sorted key l')
  end.

(** [str(n)] for an [int]. *)
Definition str_int (n : Z) : string := pretty n.

(** A number as the auxiliary-weight lists carry it: the setters fill in
    the [int] 1 as the default strength, callers pass [float]s. Python
    compares the two by value (1 == 1.0) and prints them differently
    ("1" and "1.0"). *)
Inductive number :=
  | PyInt (n : Z)
  | PyFloat (q : Q).

Definition number_value (x : number) : Q :=
  match x with
  | PyInt n => inject_Z n
  | PyFloat q => q
  end.

(** [x == y] on numbers. *)
Definition number_eqb (x y : number) : bool :=
  Qeq_bool (number_value x) (number_value y).

(** [bool(x)]: a number is falsy exactly when it is zero. *)
Definition truthy (x : number) : bool := negb (Qeq_bool (number_value x) 0).

(** [x <= 0] *)
Definition le_zero (x : number) : bool := Qle_bool (number_value x) 0.

(** [round(x)] on a [float]: to the nearest integer, a tie going to the
    even one. The value is taken exactly, as a rational. *)
Definition py_round (x : Q) : Z :=
  let f := Qfloor x in
  match Qcompare (x - inject_Z f) (1 # 2) with
  | Lt => f
  | Gt => f + 1
  | Eq => if Z.even f then f else f + 1
  end.

(** [max(a, b)] *)
Definition py_max (a b : Q) : Q := if Qle_bool a b then b else a.

(** * [os.path] on POSIX paths *)

Definition slash : ascii := "/".
Definition dot : ascii := ".".

(** [os.path.isabs(p)] *)
Definition isabs (p : string) : bool :=
  match p with
  | String c _ => Ascii.eqb c slash
  | EmptyString => false
  end.

Fixpoint ends_with_slash (p : string) : bool :=
  match p with
  | EmptyString => false
  | String c EmptyString => Ascii.eqb c slash
  | String _ p' => ends_with_slash p'
  end.

(** [os.path.join(a, b)] *)
Definition path_join (a b : string) : string :=
  if isabs b then b
  else if String.eqb a "" || ends_with_slash a then a +:+ b
  else a +:+ "/" +:+ b.

(** [os.path.basename(p)]: what follows the last slash. *)
Fixpoint basename_from (acc : string) (p : string) : string :=
  match p with
  | EmptyString => acc
  | String c p' =>
      if Ascii.eqb c slash then basename_from "" p'
      else basename_from (acc +:+ String c "") p'
  end.

Definition basename (p : string) : string := basename_from "" p.

(** [os.path.splitext(b)[0]] for a name without slash: the name up to its
    last dot, unless only dots stand before that dot. *)
Fixpoint cut_at_dot (rev_name : list ascii) : option (list ascii) :=
  match rev_name with
  | [] => None
  | c :: rest => if Ascii.eqb c dot then Some rest else cut_at_dot rest
  end.

Definition splitext_root (b : string) : string :=
  match cut_at_dot (rev (list_ascii_of_string b)) with
  | Some rest =>
      if forallb (fun c => Ascii.eqb c dot) rest then b
      else string_of_list_ascii (rev rest)
  | None => b
  end.

(** * MD5 (RFC 1321), as [hashlib.md5(data).hexdigest()] computes it *)

Definition w32 (x : Z) : Z := x mod 2 ^ 32.

Definition rotl32 (x c : Z) : Z :=
  w32 (Z.lor (Z.shiftl x c) (Z.shiftr (w32 x) (32 - c))).

Definition not32 (x : Z) : Z := Z.lxor (w32 x) 4294967295.

Definition md5_K : list Z :=
  [ 0xd76aa478; 0xe8c7b756; 0x242070db; 0xc1bdceee;
    0xf57c0faf; 0x4787c62a; 0xa8304613; 0xfd469501;
    0x698098d8; 0x8b44f7af; 0xffff5bb1; 0x895cd7be;
    0x6b901122; 0xfd987193; 0xa679438e; 0x49b40821;
    0xf61e2562; 0xc040b340; 0x265e5a51; 0xe9b6c7aa;
    0xd62f105d; 0x02441453; 0xd8a1e681; 0xe7d3fbc8;
    0x21e1cde6; 0xc33707d6; 0xf4d50d87; 0x455a14ed;
    0xa9e3e905; 0xfcefa3f8; 0x676f02d9; 0x8d2a4c8a;
    0xfffa3942; 0x8771f681; 0x6d9d6122; 0xfde5380c;
    0xa4beea44; 0x4bdecfa9; 0xf6bb4b60; 0xbebfbc70;
    0x289b7ec6; 0xeaa127fa; 0xd4ef3085; 0x04881d05;
    0xd9d4d039; 0xe6db99e5; 0x1fa27cf8; 0xc4ac5665;
    0xf4292244; 0x432aff97; 0xab9423a7; 0xfc93a039;
    0x655b59c3; 0x8f0ccc92; 0xffeff47d; 0x85845dd1;
    0x6fa87e4f; 0xfe2ce6e0; 0xa3014314; 0x4e0811a1;
    0xf7537e82; 0xbd3af235; 0x2ad7d2bb; 0xeb86d391 ].

Definition md5_S : list Z :=
  [ 7; 12; 17; 22; 7; 12; 17; 22; 7; 12; 17; 22; 7; 12; 17; 22;
    5; 9; 14; 20; 5; 9; 14; 20; 5; 9; 14; 20; 5; 9; 14; 20;
    4; 11; 16; 23; 4; 11; 16; 23; 4; 11; 16; 23; 4; 11; 16; 23;
    6; 10; 15; 21; 6; 10; 15; 21; 6; 10; 15; 21; 6; 10; 15; 21 ].

Definition nthZ (l : list Z) (i : Z) : Z := nth (Z.to_nat i) l 0.

Record md5_state := MD5 { rA : Z; rB : Z; rC : Z; rD : Z }.

Definition md5_init : md5_state :=
  MD5 0x67452301 0xefcdab89 0x98badcfe 0x10325476.

(** One of the 64 operations on a block [M] of sixteen words. *)
Definition md5_step (M : list Z) (st : md5_state) (i : Z) : md5_state :=
  let '(MD5 a b c d) := st in
  let '(f, g) :=
    if i <? 16 then (Z.lor (Z.land b c) (Z.land (not32 b) d), i)
    else if i <? 32 then
      (Z.lor (Z.land d b) (Z.land (not32 d) c), (5 * i + 1) mod 16)
    else if i <? 48 then (Z.lxor b (Z.lxor c d), (3 * i + 5) mod 16)
    else (Z.lxor c (Z.lor b (not32 d)), (7 * i) mod 16) in
  let f' := w32 (f + a + nthZ md5_K i + nthZ M g) in
  MD5 d (w32 (b + rotl32 f' (nthZ md5_S i))) b c.

Definition md5_rounds : list Z := Eval cbv in map Z.of_nat (seq 0 64).

Definition md5_block (st : md5_state) (M : list Z) : md5_state :=
  let '(MD5 a b c d) := fold_left (md5_step M) md5_rounds st in
  MD5 (w32 (rA st + a)) (w32 (rB st + b)) (w32 (rC st + c)) (w32 (rD st + d)).

(** Little-endian bytes of a word, and back. *)
Fixpoint le_bytes (n : nat) (x : Z) : list Z :=
  match n with
  | O => []
  | S n' => x mod 256 :: le_bytes n' (x / 256)
  end.

Fixpoint le_word (bs : list Z) : Z :=
  match bs with
  | [] => 0
  | b :: bs' => b + 256 * le_word bs'
  end.

(** The message followed by 0x80, zeros up to 56 modulo 64, and its
    length in bits on eight bytes. *)
Definition md5_pad (msg : list Z) : list Z :=
  let len := Z.of_nat (length msg) in
  let zeros := Z.to_nat ((55 - len) mod 64) in
  msg ++ [128] ++ repeat 0 zeros ++ le_bytes 8 ((8 * len) mod 2 ^ 64).

(** Cut a byte list into sixteen-word blocks; [n] bounds the number of
    blocks. *)
Fixpoint md5_words (n : nat) (bs : list Z) : list Z :=
  match n with
  | O => []
  | S n' =>
      match bs with
      | [] => []
      | _ => le_word (firstn 4 bs) :: md5_words n' (skipn 4 bs)
      end
  end.

Fixpoint md5_blocks (n : nat) (ws : list Z) : list (list Z) :=
  match n with
  | O => []
  | S n' =>
      match ws with
      | [] => []
      | _ => firstn 16 ws :: md5_blocks n' (skipn 16 ws)
      end
  end.

Definition hex_digit (d : Z) : string :=
  String (nth (Z.to_nat d)
            ["0"; "1"; "2"; "3"; "4"; "5"; "6"; "7";
             "8"; "9"; "a"; "b"; "c"; "d"; "e"; "f"]%char "0"%char) "".

Definition hex_byte (b : Z) : string := hex_digit (b / 16) +:+ hex_digit (b mod 16).

Fixpoint bytes_of_string (s : string) : list Z :=
  match s with
  | EmptyString => []
  | String c s' => Z.of_N (N_of_ascii c) :: bytes_of_string s'
  end.

(** [md5(s.encode("utf-8")).hexdigest()] *)
Definition md5_hexdigest (s : string) : string :=
  let bs := md5_pad (bytes_of_string s) in
  let ws := md5_words (length bs) bs in
  let '(MD5 a b c d) := fold_left md5_block (md5_blocks (length ws) ws) md5_init in
  foldr (fun b acc => hex_byte b +:+ acc) ""
        (le_bytes 4 a ++ le_bytes 4 b ++ le_bytes 4 c ++ le_bytes 4 d).

End Py.

(* ===================================================================== *)
(** * Part II. [DiffusionPipelineManager] (manager.py)                     *)
(* ===================================================================== *)

Module Manager.
Import Py.

(** An auxiliary weight as the [lora] and [lycoris] lists hold it. *)
Definition weight : Type := string * number.

Section CacheKeys.

(** [str(x)] for a [float] is Python's own shortest decimal rendering; the
    keys only need that it is a function of the value. *)
Variable float_repr : Q -> string.

Definition str_number (x : number) : string :=
  match x with
  | PyInt n => str_int n
  | PyFloat q => float_repr q
  end.

(** ["=".join([str(part) for part in lora_weight])] *)
Definition weight_part (lw : weight) : string :=
  join "=" [lw.1; str_number lw.2].

(** [":".join(... for lora_weight in sorted(lora, key=lambda p: p[0]))] *)
Definition weights_part (l : list weight) : string :=
  join ":" (map weight_part (sorted fst l)).

(** The string the three key functions hash: the four parts joined by
    a dash. The three functions build it by the same expression. *)
Definition key_string (size : Z) (lora lycoris : list weight)
    (inversion : list string) : string :=
  join "-"
    [ str_int size;
      weights_part lora;
      weights_part lycoris;
      join ":" (sorted id inversion) ].

Definition get_clip_key (size : Z) (lora lycoris : list weight)
    (inversion : list string) : string :=
  md5_hexdigest
    (join "-"
       [ str_int size;
         join ":" (map weight_part (sorted fst lora));
         join ":" (map weight_part (sorted fst lycoris));
         join ":" (sorted id inversion) ]).

Definition get_unet_key (size : Z) (lora lycoris : list weight)
    (inversion : list string) : string :=
  md5_hexdigest
    (join "-"
       [ str_int size;
         join ":" (map weight_part (sorted fst lora));
         join ":" (map weight_part (sorted fst lycoris));
         join ":" (sorted id inversion) ]).

Definition get_controlled_unet_key (size : Z) (lora lycoris : list weight)
    (inversion : list string) : string :=
  md5_hexdigest
    (join "-"
       [ str_int size;
         join ":" (map weight_part (sorted fst lora));
         join ":" (map weight_part (sorted fst lycoris));
         join ":" (sorted id inversion) ]).

(** [get_vae_key]: the size alone. *)
Definition get_vae_key (size : Z) : string := md5_hexdigest (str_int size).

End CacheKeys.

(** * The objects the manager holds and passes around *)

Inductive device := cpu | cuda | mps | dml.
Inductive dtype := float16 | float32 | bfloat16.
Inductive variant := Base | Refiner | Inpainter.

(** A constructed pipeline object. [pipe_id] stands for the identity of
    the object: the number of pipelines the manager had built before it. *)
Record pipe := Pipe {
  pipe_id : nat;
  pipe_variant : variant;
  pipe_device : device;
  pipe_dtype : dtype;
  engine_size : Z
}.

(** Modelled from the spec: the method [to] of the pipeline class, which is
    defined outside manager.py. Offloading "relocate[s] a loaded pipeline's
    weights to host memory without destroying its structure": the object
    returned is the object itself, on the device and in the precision
    asked for. *)
Definition pipe_to (p : pipe) (d : device) (t : option dtype) : pipe :=
  Pipe (pipe_id p) (pipe_variant p) d (default (pipe_dtype p) t)
       (engine_size p).

(** An image: its [size] and where its pixels come from. *)
Inductive pixels :=
  | generated (n : nat)
  | resampled (src : pixels) (w h : Z).

Record image := Image { width : Z; height : Z; data : pixels }.

(** [image.resize((w, h))] *)
Definition resize (im : image) (w h : Z) : image :=
  Image w h (resampled (data im) w h).

(** A latent callback: one the caller passed, or the closure
    [resize_callback] that the generation call defines. The closure holds
    no values of its own: it reads the variables [original_callback],
    [width] and [height] of the call that defined it when it runs. *)
Inductive callback :=
  | user_callback (n : nat)
  | resize_callback.

(** The keyword arguments of a generation call that the manager reads or
    writes; a key that is absent is [None]. For ["latent_callback"] the
    code tells an absent key from a key bound to [None]. *)
Record kwargs := Kwargs {
  kw_mask : option nat;
  kw_image : option image;
  kw_width : option Z;
  kw_height : option Z;
  kw_chunking_size : option Z;
  kw_latent_callback : option (option callback);
  kw_latent_callback_type : option string;
  kw_strength : option number;
  kw_guidance_scale : option number;
  kw_aesthetic_score : option number;
  kw_negative_aesthetic_score : option number;
  kw_other : nat
}.

(** What a pipeline call returns: the dictionary with ["images"] and,
    possibly, ["nsfw_content_detected"]. *)
Record result := Result {
  images : list image;
  nsfw_content_detected : option (list bool)
}.

(** The local variables of a generation call that [resize_callback]
    closes over. *)
Record frame := Frame {
  original_callback : option callback;
  fr_width : Z;
  fr_height : Z
}.

Inductive exn :=
  | ValueError (msg : string)
  | IOError (msg : string)
  | IndexError
  | ZeroDivisionError
  | RecursionError
  | TypeError
  | ExternalError (n : nat).

(** What the manager asks of the outside world, in the order it asks. *)
Inductive event :=
  | Ran (p : pipe) (kw : kwargs)
  | Refining (p : pipe) (im : image) (kw : kwargs) (fr : frame)
  | Called (cb : callback) (ims : list image).

(** * The manager's own attributes

    An attribute that [hasattr] may find missing is an [option]. [built]
    counts the pipelines constructed so far and [trace] records the calls
    made to the outside; neither is an attribute of the Python object.
    [tenssort_is_enabled] is the attribute that the generation call
    creates by a misspelt assignment. *)
Record manager := Manager {
  _pipeline : option pipe;
  _pipeline_is_offloaded : option bool;
  _refiner_pipeline : option pipe;
  _refiner_pipeline_is_offloaded : option bool;
  _inpainter_pipeline : option pipe;
  _inpainter_pipeline_is_offloaded : option bool;
  _size : option Z;
  _chunking_size : option Z;
  _chunking_blur : option Z;
  _lora : option (list weight);
  _lycoris : option (list weight);
  _inversion : option (list string);
  _safe : option bool;
  _tensorrt_enabled : option bool;
  tenssort_is_enabled : option bool;
  _keepalive_thread : bool;
  built : nat;
  trace : list event
}.

Definition set_pipeline (v : option pipe) (m : manager) : manager :=
  let '(Manager a0 a1 a2 a3 a4 a5 a6 a7 a8 a9 a10 a11 a12 a13 a14 a15 a16 a17) := m in
  Manager v a1 a2 a3 a4 a5 a6 a7 a8 a9 a10 a11 a12 a13 a14 a15 a16 a17.

Definition set_pipeline_is_offloaded (v : option bool) (m : manager) : manager :=
  let '(Manager a0 a1 a2 a3 a4 a5 a6 a7 a8 a9 a10 a11 a12 a13 a14 a15 a16 a17) := m in
  Manager a0 v a2 a3 a4 a5 a6 a7 a8 a9 a10 a11 a12 a13 a14 a15 a16 a17.

Definition set_refiner_pipeline (v : option pipe) (m : manager) : manager :=
  let '(Manager a0 a1 a2 a3 a4 a5 a6 a7 a8 a9 a10 a11 a12 a13 a14 a15 a16 a17) := m in
  Manager a0 a1 v a3 a4 a5 a6 a7 a8 a9 a10 a11 a12 a13 a14 a15 a16 a17.

Definition set_refiner_pipeline_is_offloaded (v : option bool) (m : manager) : manager :=
  let '(Manager a0 a1 a2 a3 a4 a5 a6 a7 a8 a9 a10 a11 a12 a13 a14 a15 a16 a17) := m in
  Manager a0 a1 a2 v a4 a5 a6 a7 a8 a9 a10 a11 a12 a13 a14 a15 a16 a17.

Definition set_inpainter_pipeline (v : option pipe) (m : manager) : manager :=
  let '(Manager a0 a1 a2 a3 a4 a5 a6 a7 a8 a9 a10 a11 a12 a13 a14 a15 a16 a17) := m in
  Manager a0 a1 a2 a3 v a5 a6 a7 a8 a9 a10 a11 a12 a13 a14 a15 a16 a17.

Definition set_inpainter_pipeline_is_offloaded (v : option bool) (m : manager) : manager :=
  let '(Manager a0 a1 a2 a3 a4 a5 a6 a7 a8 a9 a10 a11 a12 a13 a14 a15 a16 a17) := m in
  Manager a0 a1 a2 a3 a4 v a6 a7 a8 a9 a10 a11 a12 a13 a14 a15 a16 a17.

Definition set_size (v : option Z) (m : manager) : manager :=
  let '(Manager a0 a1 a2 a3 a4 a5 a6 a7 a8 a9 a10 a11 a12 a13 a14 a15 a16 a17) := m in
  Manager a0 a1 a2 a3 a4 a5 v a7 a8 a9 a10 a11 a12 a13 a14 a15 a16 a17.

Definition set_chunking_size (v : option Z) (m : manager) : manager :=
  let '(Manager a0 a1 a2 a3 a4 a5 a6 a7 a8 a9 a10 a11 a12 a13 a14 a15 a16 a17) := m in
  Manager a0 a1 a2 a3 a4 a5 a6 v a8 a9 a10 a11 a12 a13 a14 a15 a16 a17.

Definition set_chunking_blur (v : option Z) (m : manager) : manager :=
  let '(Manager a0 a1 a2 a3 a4 a5 a6 a7 a8 a9 a10 a11 a12 a13 a14 a15 a16 a17) := m in
  Manager a0 a1 a2 a3 a4 a5 a6 a7 v a9 a10 a11 a12 a13 a14 a15 a16 a17.

Definition set_lora (v : option (list weight)) (m : manager) : manager :=
  let '(Manager a0 a1 a2 a3 a4 a5 a6 a7 a8 a9 a10 a11 a12 a13 a14 a15 a16 a17) := m in
  Manager a0 a1 a2 a3 a4 a5 a6 a7 a8 v a10 a11 a12 a13 a14 a15 a16 a17.

Definition set_lycoris (v : option (list weight)) (m : manager) : manager :=
  let '(Manager a0 a1 a2 a3 a4 a5 a6 a7 a8 a9 a10 a11 a12 a13 a14 a15 a16 a17) := m in
  Manager a0 a1 a2 a3 a4 a5 a6 a7 a8 a9 v a11 a12 a13 a14 a15 a16 a17.

Definition set_inversion (v : option (list string)) (m : manager) : manager :=
  let '(Manager a0 a1 a2 a3 a4 a5 a6 a7 a8 a9 a10 a11 a12 a13 a14 a15 a16 a17) := m in
  Manager a0 a1 a2 a3 a4 a5 a6 a7 a8 a9 a10 v a12 a13 a14 a15 a16 a17.

Definition set_safe (v : option bool) (m : manager) : manager :=
  let '(Manager a0 a1 a2 a3 a4 a5 a6 a7 a8 a9 a10 a11 a12 a13 a14 a15 a16 a17) := m in
  Manager a0 a1 a2 a3 a4 a5 a6 a7 a8 a9 a10 a11 v a13 a14 a15 a16 a17.

Definition set_tensorrt_enabled (v : option bool) (m : manager) : manager :=
  let '(Manager a0 a1 a2 a3 a4 a5 a6 a7 a8 a9 a10 a11 a12 a13 a14 a15 a16 a17) := m in
  Manager a0 a1 a2 a3 a4 a5 a6 a7 a8 a9 a10 a11 a12 v a14 a15 a16 a17.

Definition set_tenssort_is_enabled (v : option bool) (m : manager) : manager :=
  let '(Manager a0 a1 a2 a3 a4 a5 a6 a7 a8 a9 a10 a11 a12 a13 a14 a15 a16 a17) := m in
  Manager a0 a1 a2 a3 a4 a5 a6 a7 a8 a9 a10 a11 a12 a13 v a15 a16 a17.

Definition set_keepalive_thread (v : bool) (m : manager) : manager :=
  let '(Manager a0 a1 a2 a3 a4 a5 a6 a7 a8 a9 a10 a11 a12 a13 a14 a15 a16 a17) := m in
  Manager a0 a1 a2 a3 a4 a5 a6 a7 a8 a9 a10 a11 a12 a13 a14 v a16 a17.

Definition set_built (v : nat) (m : manager) : manager :=
  let '(Manager a0 a1 a2 a3 a4 a5 a6 a7 a8 a9 a10 a11 a12 a13 a14 a15 a16 a17) := m in
  Manager a0 a1 a2 a3 a4 a5 a6 a7 a8 a9 a10 a11 a12 a13 a14 a15 v a17.

Definition set_trace (v : list event) (m : manager) : manager :=
  let '(Manager a0 a1 a2 a3 a4 a5 a6 a7 a8 a9 a10 a11 a12 a13 a14 a15 a16 a17) := m in
  Manager a0 a1 a2 a3 a4 a5 a6 a7 a8 a9 a10 a11 a12 a13 a14 a15 a16 v.

(** * What the modelled methods only read

    The configuration file, the attributes whose setters are not modelled,
    the file system and the external calls. *)
Record environment := Environment {
  float_repr : Q -> string;
  cfg_size : option Z;                 (* "enfugue.size" *)
  cfg_chunk_size : option Z;           (* "enfugue.chunk.size" *)
  cfg_chunk_blur : option Z;           (* "enfugue.chunk.blur" *)
  cfg_safe : option bool;              (* "enfugue.safe" *)
  the_device : device;                 (* [self.device] *)
  the_dtype : dtype;                   (* [self.dtype] *)
  engine_lora_dir : string;
  engine_lycoris_dir : string;
  controlnet : option string;
  is_sdxl : bool;
  refiner_is_sdxl : bool;
  inpainter_is_sdxl : bool;
  _refiner_size : option Z;
  _inpainter_size : option Z;
  refiner : option string;
  refiner_strength : number;
  refiner_guidance_scale : number;
  refiner_aesthetic_score : number;
  refiner_negative_aesthetic_score : number;
  pipeline_switch_mode : option string;
  tensorrt_is_supported : bool;
  cfg_tensorrt : bool;                 (* "enfugue.tensorrt" *)
  (** an engine file exists for this stage under this key *)
  engine_exists : string -> string -> bool;
  (** building a pipeline of this variant fails with this exception *)
  construct_fails : variant -> option exn;
  (** [pipe(generator=..., **kwargs)] *)
  run_pipeline : pipe -> kwargs -> exn + result;
  (** [refiner_pipeline(generator=..., image=image, **kwargs)["images"]] *)
  run_refiner : pipe -> image -> kwargs -> exn + list image
}.

Definition DEFAULT_CHUNK : Z := 64.
Definition DEFAULT_SIZE : Z := 512.

(** * Methods as state transformers that may raise *)

Inductive outcome (A : Type) :=
  | Returned (a : A)
  | Raised (e : exn).
Arguments Returned {A} a.
Arguments Raised {A} e.

Definition M (A : Type) : Type := manager -> outcome A * manager.

#[export] Instance M_ret : MRet M := fun A a m => (Returned a, m).

#[export] Instance M_bind : MBind M := fun A B f c m =>
  match c m with
  | (Returned a, m') => f a m'
  | (Raised e, m') => (Raised e, m')
  end.

Definition raise {A} (e : exn) : M A := fun m => (Raised e, m).
Definition get : M manager := fun m => (Returned m, m).
Definition modify (f : manager -> manager) : M unit := fun m => (Returned tt, f m).
Definition emit (ev : event) : M unit :=
  modify (fun m => set_trace (trace m ++ [ev]) m).

(** [try: body finally: final] *)
Definition try_finally {A} (body : M A) (final : M unit) : M A := fun m =>
  let '(o, m1) := body m in
  match final m1 with
  | (Returned _, m2) => (o, m2)
  | (Raised e, m2) => (Raised e, m2)
  end.

Section Methods.
Variable E : environment.

(** ** Configuration properties *)

(** [size] (getter): read from the configuration on first use. *)
Definition size : M Z := fun m =>
  match _size m with
  | Some z => (Returned z, m)
  | None =>
      let z := default DEFAULT_SIZE (cfg_size E) in
      (Returned z, set_size (Some z) m)
  end.

(** [refiner_size] (getter) *)
Definition refiner_size : M Z :=
  match _refiner_size E with
  | None =>
      if is_sdxl E && negb (refiner_is_sdxl E) then mret 512
      else if negb (is_sdxl E) && refiner_is_sdxl E then mret 1024
      else size
  | Some z => mret z
  end.

(** [inpainter_size] (getter) *)
Definition inpainter_size : M Z :=
  match _inpainter_size E with
  | None =>
      if is_sdxl E && negb (inpainter_is_sdxl E) then mret 512
      else if negb (is_sdxl E) && inpainter_is_sdxl E then mret 1024
      else size
  | Some z => mret z
  end.

(** [chunking_size] (getter) *)
Definition chunking_size : M Z := fun m =>
  match _chunking_size m with
  | Some z => (Returned z, m)
  | None =>
      let z := default DEFAULT_CHUNK (cfg_chunk_size E) in
      (Returned z, set_chunking_size (Some z) m)
  end.

(** [chunking_size] (setter): "This doesn't require a restart." *)
Definition set_chunking_size_property (new_chunking_size : Z) : M unit :=
  modify (set_chunking_size (Some new_chunking_size)).

(** [chunking_blur] (getter and setter) *)
Definition chunking_blur : M Z := fun m =>
  match _chunking_blur m with
  | Some z => (Returned z, m)
  | None =>
      let z := default DEFAULT_CHUNK (cfg_chunk_blur E) in
      (Returned z, set_chunking_blur (Some z) m)
  end.

Definition set_chunking_blur_property (new_chunking_blur : Z) : M unit :=
  modify (set_chunking_blur (Some new_chunking_blur)).

(** [safe] (getter) *)
Definition safe : M bool := fun m =>
  match _safe m with
  | Some b => (Returned b, m)
  | None =>
      let b := default true (cfg_safe E) in
      (Returned b, set_safe (Some b) m)
  end.

(** [lora], [lycoris], [inversion] (getters): [getattr(self, "_lora", [])] *)
Definition lora (m : manager) : list weight := default [] (_lora m).
Definition lycoris (m : manager) : list weight := default [] (_lycoris m).
Definition inversion (m : manager) : list string := default [] (_inversion m).

(** [lora_names_weights], [lycoris_names_weights], [inversion_names] *)
Definition lora_names_weights (m : manager) : list weight :=
  map (fun lw => (splitext_root (basename lw.1), lw.2)) (lora m).
Definition lycoris_names_weights (m : manager) : list weight :=
  map (fun lw => (splitext_root (basename lw.1), lw.2)) (lycoris m).
Definition inversion_names (m : manager) : list string :=
  map (fun i => splitext_root (basename i)) (inversion m).

(** [model_unet_key] and [model_controlled_unet_key] *)
Definition model_unet_key : M string :=
  sz ← size;
  m ← get;
  mret (get_unet_key (float_repr E) sz (lora_names_weights m)
          (lycoris_names_weights m) (inversion_names m)).

Definition model_controlled_unet_key : M string :=
  sz ← size;
  m ← get;
  mret (get_controlled_unet_key (float_repr E) sz (lora_names_weights m)
          (lycoris_names_weights m) (inversion_names m)).

(** [tensorrt_is_ready]: with [TENSORRT_STAGES = ["unet"]] and
    [TENSORRT_ALWAYS_USE_CONTROLLED_UNET = False], the engine of the one
    stage must exist under the current key. *)
Definition tensorrt_is_ready : M bool :=
  if negb (tensorrt_is_supported E) then mret false
  else
    match controlnet E with
    | Some _ =>
        key ← model_controlled_unet_key;
        mret (engine_exists E "controlled_unet" key)
    | None =>
        key ← model_unet_key;
        mret (engine_exists E "unet" key)
    end.

(** [tensorrt_is_enabled] (getter): "By default this is always enabled." *)
Definition tensorrt_is_enabled : M bool := fun m =>
  match _tensorrt_enabled m with
  | Some b => (Returned b, m)
  | None => (Returned true, set_tensorrt_enabled (Some true) m)
  end.

(** ** The three pipelines: deleters, unload, offload, reload *)

(** [del self.pipeline] *)
Definition del_pipeline : M unit := fun m =>
  match _pipeline m with
  | Some _ =>
      (Returned tt, set_pipeline_is_offloaded None (set_pipeline None m))
  | None => (Returned tt, m)
  end.

Definition del_refiner_pipeline : M unit := fun m =>
  match _refiner_pipeline m with
  | Some _ =>
      (Returned tt,
       set_refiner_pipeline_is_offloaded None (set_refiner_pipeline None m))
  | None => (Returned tt, m)
  end.

Definition del_inpainter_pipeline : M unit := fun m =>
  match _inpainter_pipeline m with
  | Some _ =>
      (Returned tt,
       set_inpainter_pipeline_is_offloaded None
         (set_inpainter_pipeline None m))
  | None => (Returned tt, m)
  end.

(** [pipeline_is_offloaded]:
    [hasattr(self, "_pipeline") and getattr(self, "_pipeline_is_offloaded", False)] *)
Definition pipeline_is_offloaded (m : manager) : bool :=
  bool_decide (_pipeline m <> None)
  && default false (_pipeline_is_offloaded m).

Definition refiner_is_offloaded (m : manager) : bool :=
  bool_decide (_refiner_pipeline m <> None)
  && default false (_refiner_pipeline_is_offloaded m).

Definition inpainter_is_offloaded (m : manager) : bool :=
  bool_decide (_inpainter_pipeline m <> None)
  && default false (_inpainter_pipeline_is_offloaded m).

Definition unload_pipeline (reason : string) : M unit := fun m =>
  match _pipeline m with
  | Some _ => del_pipeline m
  | None => (Returned tt, m)
  end.

Definition unload_refiner (reason : string) : M unit := fun m =>
  match _refiner_pipeline m with
  | Some _ => del_refiner_pipeline m
  | None => (Returned tt, m)
  end.

Definition unload_inpainter (reason : string) : M unit := fun m =>
  match _inpainter_pipeline m with
  | Some _ => del_inpainter_pipeline m
  | None => (Returned tt, m)
  end.

Definition offload_pipeline : M unit := fun m =>
  match _pipeline m with
  | Some p =>
      if negb (pipeline_is_offloaded m) then
        (Returned tt,
         set_pipeline_is_offloaded (Some true)
           (set_pipeline (Some (pipe_to p cpu (Some float32))) m))
      else (Returned tt, m)
  | None => (Returned tt, m)
  end.

Definition reload_pipeline : M unit := fun m =>
  if pipeline_is_offloaded m then
    match _pipeline m with
    | Some p =>
        (Returned tt,
         set_pipeline_is_offloaded (Some false)
           (set_pipeline
              (Some (pipe_to p (the_device E) (Some (the_dtype E)))) m))
    | None => (Returned tt, m)
    end
  else (Returned tt, m).

Definition offload_refiner : M unit := fun m =>
  match _refiner_pipeline m with
  | Some p =>
      if negb (refiner_is_offloaded m) then
        (Returned tt,
         set_refiner_pipeline_is_offloaded (Some true)
           (set_refiner_pipeline (Some (pipe_to p cpu (Some float32))) m))
      else (Returned tt, m)
  | None => (Returned tt, m)
  end.

Definition reload_refiner : M unit := fun m =>
  if refiner_is_offloaded m then
    match _refiner_pipeline m with
    | Some p =>
        (Returned tt,
         set_refiner_pipeline_is_offloaded (Some false)
           (set_refiner_pipeline
              (Some (pipe_to p (the_device E) (Some (the_dtype E)))) m))
    | None => (Returned tt, m)
    end
  else (Returned tt, m).

Definition offload_inpainter : M unit := fun m =>
  match _inpainter_pipeline m with
  | Some p =>
      if negb (inpainter_is_offloaded m) then
        (Returned tt,
         set_inpainter_pipeline_is_offloaded (Some true)
           (set_inpainter_pipeline (Some (pipe_to p cpu (Some float32))) m))
      else (Returned tt, m)
  | None => (Returned tt, m)
  end.

(** [reload_inpainter] clears the flag before it moves the pipeline. *)
Definition reload_inpainter : M unit := fun m =>
  if inpainter_is_offloaded m then
    let m1 := set_inpainter_pipeline_is_offloaded (Some false) m in
    match _inpainter_pipeline m1 with
    | Some p =>
        (Returned tt,
         set_inpainter_pipeline
           (Some (pipe_to p (the_device E) (Some (the_dtype E)))) m1)
    | None => (Returned tt, m1)
    end
  else (Returned tt, m).

(** ** Readiness of the compiled engines of the other two variants *)

Definition refiner_unet_key : M string :=
  sz ← size; mret (get_unet_key (float_repr E) sz [] [] []).

Definition refiner_controlled_unet_key : M string :=
  sz ← size; mret (get_controlled_unet_key (float_repr E) sz [] [] []).

Definition inpainter_unet_key : M string :=
  sz ← size; mret (get_unet_key (float_repr E) sz [] [] []).

Definition refiner_tensorrt_is_ready : M bool :=
  if negb (tensorrt_is_supported E) then mret false
  else
    match refiner E with
    | None => mret false
    | Some _ =>
        match controlnet E with
        | Some _ =>
            key ← refiner_controlled_unet_key;
            mret (engine_exists E "refiner_controlled_unet" key)
        | None =>
            key ← refiner_unet_key;
            mret (engine_exists E "refiner_unet" key)
        end
    end.

Definition inpainter_tensorrt_is_ready : M bool :=
  if negb (tensorrt_is_supported E) then mret false
  else key ← inpainter_unet_key; mret (engine_exists E "inpainter_unet" key).

(** [build_tensorrt] (getter) *)
Definition build_tensorrt : bool :=
  if negb (tensorrt_is_supported E) then false else cfg_tensorrt E.

(** [use_tensorrt], [refiner_use_tensorrt], [inpainter_use_tensorrt]:
    [(ready or self.build_tensorrt) and self.tensorrt_is_enabled] *)
Definition use_tensorrt : M bool :=
  rdy ← tensorrt_is_ready;
  if rdy || build_tensorrt then tensorrt_is_enabled else mret false.

Definition refiner_use_tensorrt : M bool :=
  rdy ← refiner_tensorrt_is_ready;
  if rdy || build_tensorrt then tensorrt_is_enabled else mret false.

Definition inpainter_use_tensorrt : M bool :=
  rdy ← inpainter_tensorrt_is_ready;
  if rdy || build_tensorrt then tensorrt_is_enabled else mret false.

(** ** Setters *)

(** [tensorrt_is_enabled] (setter) *)
Definition set_tensorrt_is_enabled (new_enabled : bool) : M unit :=
  cur ← tensorrt_is_enabled;
  changed ← (if negb (Bool.eqb new_enabled cur) then tensorrt_is_ready
             else mret false);
  (if (changed : bool) then unload_pipeline "TensorRT enabled or disabled"
   else mret tt);;
  modify (set_tensorrt_enabled (Some new_enabled)).

(** [size] (setter): with a compiled engine the pipeline is unloaded,
    without one "Setting pipeline engine size in-place". *)
Definition set_size_property (new_size : Z) : M unit :=
  m ← get;
  (match _size m with
   | Some cur =>
       if negb (cur =? new_size) then
         rdy ← tensorrt_is_ready;
         if (rdy : bool) then unload_pipeline "engine size changing"
         else
           m' ← get;
           match _pipeline m' with
           | Some p =>
               modify (set_pipeline
                         (Some (Pipe (pipe_id p) (pipe_variant p)
                                  (pipe_device p) (pipe_dtype p) new_size)))
           | None => mret tt
           end
       else mret tt
   | None => mret tt
   end);;
  modify (set_size (Some new_size)).

(** [safe] (setter) *)
Definition set_safe_property (val : bool) : M unit :=
  m ← get;
  if bool_decide (_safe m = Some val) then mret tt
  else
    modify (set_safe (Some val));;
    unload_pipeline "safety checking enabled or disabled".

(** What may be assigned to [lora] and [lycoris]: [None], a name, a
    (name, strength) tuple, or a list of names, tuples and two-element
    lists. *)
Inductive weight_item :=
  | item_name (name : string)
  | item_pair (name : string) (strength : number).

Inductive weight_arg :=
  | arg_none
  | arg_name (name : string)
  | arg_pair (name : string) (strength : number)
  | arg_list (items : list weight_item).

(** The list the setter builds before it prefixes the directory: a bare
    name gets the strength 1. *)
Definition normalise_weights (a : weight_arg) : list weight :=
  match a with
  | arg_none => []
  | arg_name name => [(name, PyInt 1)]
  | arg_pair name strength => [(name, strength)]
  | arg_list items =>
      map (fun it => match it with
                     | item_name name => (name, PyInt 1)
                     | item_pair name strength => (name, strength)
                     end) items
  end.

(** [for i, (model, weight) in enumerate(lora): ...] *)
Definition in_directory (dir : string) (l : list weight) : list weight :=
  map (fun mw => (if negb (isabs mw.1) then path_join dir mw.1 else mw.1,
                  mw.2)) l.

(** [==] on lists of (name, strength) tuples *)
Fixpoint weights_eqb (a b : list weight) : bool :=
  match a, b with
  | [], [] => true
  | x :: a', y :: b' =>
      String.eqb x.1 y.1 && number_eqb x.2 y.2 && weights_eqb a' b'
  | _, _ => false
  end.

(** [lora] (setter): "Sets new LoRA. Destroys the pipeline." *)
Definition set_lora_property (new_lora : weight_arg) : M unit :=
  m ← get;
  match new_lora with
  | arg_none =>
      (match _lora m with
       | Some (_ :: _) => unload_pipeline "LoRA changing"
       | _ => mret tt
       end);;
      modify (set_lora (Some []))
  | _ =>
      let lora' := in_directory (engine_lora_dir E) (normalise_weights new_lora) in
      if negb (weights_eqb (default [] (_lora m)) lora') then
        unload_pipeline "LoRA changing";;
        modify (set_lora (Some lora'))
      else mret tt
  end.

(** [lycoris] (setter) *)
Definition set_lycoris_property (new_lycoris : weight_arg) : M unit :=
  m ← get;
  match new_lycoris with
  | arg_none =>
      (match _lycoris m with
       | Some (_ :: _) => unload_pipeline "LyCORIS changing"
       | _ => mret tt
       end);;
      modify (set_lycoris (Some []))
  | _ =>
      let lycoris' :=
        in_directory (engine_lycoris_dir E) (normalise_weights new_lycoris) in
      if negb (weights_eqb (default [] (_lycoris m)) lycoris') then
        unload_pipeline "LyCORIS changing";;
        modify (set_lycoris (Some lycoris'))
      else mret tt
  end.

(** What may be assigned to [inversion]. *)
Inductive inversion_arg :=
  | inv_none
  | inv_name (name : string)
  | inv_list (names : list string).

(** [inversion] (setter) *)
Definition set_inversion_property (new_inversion : inversion_arg) : M unit :=
  m ← get;
  match new_inversion with
  | inv_none =>
      (match _inversion m with
       | Some (_ :: _) => unload_pipeline "Textual Inversions changing"
       | _ => mret tt
       end);;
      modify (set_inversion (Some []))
  | inv_name name =>
      if negb (bool_decide (default [] (_inversion m) = [name])) then
        unload_pipeline "Textual Inversions changing";;
        modify (set_inversion (Some [name]))
      else mret tt
  | inv_list names =>
      if negb (bool_decide (default [] (_inversion m) = names)) then
        unload_pipeline "Textual Inversions changing";;
        modify (set_inversion (Some names))
      else mret tt
  end.

(** ** The lazily built pipelines *)

(** The outcome of building a pipeline object is the outside world's;
    when it succeeds the object is new, on the manager's device. *)
Definition build (v : variant) (engine_size : Z) : M pipe :=
  match construct_fails E v with
  | Some e => raise e
  | None =>
      m ← get;
      let p := Pipe (built m) v (the_device E) (the_dtype E) engine_size in
      modify (set_built (S (built m)));;
      mret p
  end.

(** [pipeline] (getter): "Instantiates the pipeline." *)
Definition pipeline : M pipe :=
  m ← get;
  match _pipeline m with
  | Some p => mret p
  | None =>
      sz ← size;
      _ ← chunking_size;
      _ ← safe;
      _ ← use_tensorrt;
      p ← build Base sz;
      modify (set_pipeline (Some p));;
      mret p
  end.

(** [refiner_pipeline] (getter) *)
Definition refiner_pipeline : M pipe :=
  match refiner E with
  | None | Some "" => raise (ValueError "No refiner set")
  | Some _ =>
      m ← get;
      match _refiner_pipeline m with
      | Some p => mret p
      | None =>
          sz ← refiner_size;
          _ ← chunking_size;
          _ ← refiner_use_tensorrt;
          p ← build Refiner sz;
          modify (set_refiner_pipeline (Some p));;
          mret p
      end
  end.

(** [inpainter_pipeline] (getter) *)
Definition inpainter_pipeline : M pipe :=
  m ← get;
  match _inpainter_pipeline m with
  | Some p => mret p
  | None =>
      sz ← inpainter_size;
      _ ← chunking_size;
      _ ← safe;
      _ ← inpainter_use_tensorrt;
      p ← build Inpainter sz;
      modify (set_inpainter_pipeline (Some p));;
      mret p
  end.

(** ** The keepalive thread *)

Definition start_keepalive : M unit := modify (set_keepalive_thread true).
Definition stop_keepalive : M unit := modify (set_keepalive_thread false).

(** ** The generation call *)

(** Calling a latent callback while the generation call that defined
    [resize_callback] is running, with its variables as they are in [fr].
    [limit] is the interpreter's recursion limit. A caller's callback
    receives the images; the outcome names it and what it received. *)
Fixpoint invoke (limit : nat) (fr : frame) (cb : callback)
    (ims : list image) : outcome (nat * list image) :=
  match cb with
  | user_callback n => Returned (n, ims)
  | resize_callback =>
      match limit with
      | O => Raised RecursionError
      | S limit' =>
          match original_callback fr with
          | Some cb' =>
              invoke limit' fr cb'
                (map (fun im => resize im (fr_width fr) (fr_height fr)) ims)
          | None => Raised TypeError
          end
      end
  end.

(** [a if a else b] on an optional number *)
Definition or_else (a : option number) (b : number) : number :=
  match a with
  | Some x => if truthy x then x else b
  | None => b
  end.

(** What the refinement loop carries from one image to the next: the
    keyword arguments, which it updates in place, the variables its
    closure reads, and the images of the result. *)
Record loop_state := Loop {
  l_kwargs : kwargs;
  l_frame : frame;
  l_images : list image
}.

(** The refinement of the image at index [i]; [nsfw] is
    [result["nsfw_content_detected"]] when the key is there. *)
Definition refine_image
    (refiner_strength_arg refiner_guidance_scale_arg
     refiner_aesthetic_score_arg refiner_negative_aesthetic_score_arg
       : option number)
    (scale_to_refiner_size : bool) (nsfw : option (list bool))
    (i : nat) (im : image) (st : loop_state) : M loop_state :=
  is_nsfw ← match nsfw with
            | None => mret false
            | Some flags =>
                match flags !! i with
                | Some b => mret b
                | None => raise IndexError
                end
            end;
  if (is_nsfw : bool) then mret st
  else
    let kw := l_kwargs st in
    let kw1 :=
      Kwargs None None (kw_width kw) (kw_height kw) (kw_chunking_size kw)
        (kw_latent_callback kw) (kw_latent_callback_type kw)
        (Some (or_else refiner_strength_arg (refiner_strength E)))
        (Some (or_else refiner_guidance_scale_arg (refiner_guidance_scale E)))
        (Some (or_else refiner_aesthetic_score_arg
                 (refiner_aesthetic_score E)))
        (Some (or_else refiner_negative_aesthetic_score_arg
                 (refiner_negative_aesthetic_score E)))
        (kw_other kw) in
    let w := width im in
    let h := height im in
    let fr1 := Frame (original_callback (l_frame st)) w h in
    rs ← refiner_size;
    '(image_scale, im', kw2, fr2) ←
      (if ((w <? rs) || (h <? rs)) && scale_to_refiner_size then
         if ((w <? rs) && (w =? 0)) || ((h <? rs) && (h =? 0)) then
           raise ZeroDivisionError
         else
           let scale_w := if w <? rs then (inject_Z rs / inject_Z w)%Q else 1%Q in
           let image_scale :=
             if h <? rs then py_max scale_w (inject_Z rs / inject_Z h)%Q
             else scale_w in
           let new_width := 8 * py_round (inject_Z w * image_scale / 8)%Q in
           let new_height := 8 * py_round (inject_Z h * image_scale / 8)%Q in
           let kw2 :=
             Kwargs (kw_mask kw1) (kw_image kw1) (Some new_width)
               (Some new_height) (kw_chunking_size kw1)
               (kw_latent_callback kw1) (kw_latent_callback_type kw1)
               (kw_strength kw1) (kw_guidance_scale kw1)
               (kw_aesthetic_score kw1) (kw_negative_aesthetic_score kw1)
               (kw_other kw1) in
           match kw_latent_callback kw2 with
           | Some held =>
               if String.eqb (default "pil" (kw_latent_callback_type kw2)) "pil"
               then
                 mret (image_scale, resize im new_width new_height,
                       Kwargs (kw_mask kw2) (kw_image kw2) (kw_width kw2)
                         (kw_height kw2) (kw_chunking_size kw2)
                         (Some (Some resize_callback))
                         (kw_latent_callback_type kw2) (kw_strength kw2)
                         (kw_guidance_scale kw2) (kw_aesthetic_score kw2)
                         (kw_negative_aesthetic_score kw2) (kw_other kw2),
                       Frame held w h)
               else mret (image_scale, resize im new_width new_height, kw2, fr1)
           | None => mret (image_scale, resize im new_width new_height, kw2, fr1)
           end
       else mret (1%Q, im, kw1, fr1));
    stop_keepalive;;
    p ← refiner_pipeline;
    emit (Refining p im' kw2 fr2);;
    match run_refiner E p im' kw2 with
    | inl e => raise e
    | inr [] => raise IndexError
    | inr (refined_image :: _) =>
        let refined_image :=
          if negb (Qeq_bool image_scale 1) then resize refined_image w h
          else refined_image in
        mret (Loop kw2 fr2 (<[i := refined_image]> (l_images st)))
    end.

(** [for i, image in enumerate(result["images"]): ...] *)
Fixpoint refine_images
    (a1 a2 a3 a4 : option number) (scale_to_refiner_size : bool)
    (nsfw : option (list bool)) (i : nat) (ims : list image)
    (st : loop_state) : M loop_state :=
  match ims with
  | [] => mret st
  | im :: rest =>
      st' ← refine_image a1 a2 a3 a4 scale_to_refiner_size nsfw i im st;
      refine_images a1 a2 a3 a4 scale_to_refiner_size nsfw (S i) rest st'
  end.

(** [not x] on an [int] *)
Definition falsy (x : Z) : bool := x =? 0.

(** The body of [try:] in [__call__]. *)
Definition call_body
    (refiner_strength_arg refiner_guidance_scale_arg
     refiner_aesthetic_score_arg refiner_negative_aesthetic_score_arg
       : option number)
    (scale_to_refiner_size : bool) (kw : kwargs) : M result :=
  let inpainting := bool_decide (kw_mask kw <> None) in
  sz ← (if inpainting then
          sz ← inpainter_size;
          _ ← inpainter_pipeline;
          (if bool_decide (pipeline_switch_mode E = Some "offload")
           then offload_pipeline
           else if bool_decide (pipeline_switch_mode E = Some "unload")
           then unload_pipeline "switching to inpainting"
           else mret tt);;
          reload_inpainter;;
          mret sz
        else
          sz ← size;
          _ ← pipeline;
          (if bool_decide (pipeline_switch_mode E = Some "offload")
           then offload_inpainter
           else if bool_decide (pipeline_switch_mode E = Some "unload")
           then unload_inpainter "switching from inpainting"
           else mret tt);;
          reload_pipeline;;
          mret sz);
  let called_width := default sz (kw_width kw) in
  let called_height := default sz (kw_height kw) in
  cs ← chunking_size;
  let chunk_size := default cs (kw_chunking_size kw) in
  (if called_width <? sz then set_tensorrt_is_enabled false
   else if called_height <? sz then set_tensorrt_is_enabled false
   else if (negb (called_width =? sz) || negb (called_height =? sz))
           && falsy chunk_size
   then set_tensorrt_is_enabled false
   else modify (set_tenssort_is_enabled (Some true)));;
  pipe ← (if inpainting then inpainter_pipeline else pipeline);
  stop_keepalive;;
  emit (Ran pipe kw);;
  match run_pipeline E pipe kw with
  | inl e => raise e
  | inr res =>
      match refiner E with
      | None => mret res
      | Some _ =>
          if match refiner_strength_arg with
             | Some x => le_zero x
             | None => false
             end
          then mret res
          else
            start_keepalive;;
            (match kw_latent_callback kw with
             | Some (Some cb) => emit (Called cb (images res))
             | _ => mret tt
             end);;
            (if bool_decide (pipeline_switch_mode E = Some "offload") then
               (if inpainting then offload_inpainter else offload_pipeline);;
               reload_refiner
             else if bool_decide (pipeline_switch_mode E = Some "unload") then
               if inpainting then unload_inpainter "switching to refining"
               else unload_pipeline "switching to refining"
             else mret tt);;
            st ← refine_images refiner_strength_arg refiner_guidance_scale_arg
                   refiner_aesthetic_score_arg
                   refiner_negative_aesthetic_score_arg
                   scale_to_refiner_size (nsfw_content_detected res)
                   0%nat (images res)
                   (Loop kw (Frame None 0 0) (images res));
            (if bool_decide (pipeline_switch_mode E = Some "offload")
             then offload_refiner
             else if bool_decide (pipeline_switch_mode E = Some "unload")
             then unload_refiner "unloading for next inference"
             else mret tt);;
            mret (Result (l_images st) (nsfw_content_detected res))
      end
  end.

(** [__call__] *)
Definition call
    (refiner_strength_arg refiner_guidance_scale_arg
     refiner_aesthetic_score_arg refiner_negative_aesthetic_score_arg
       : option number)
    (scale_to_refiner_size : bool) (kw : kwargs) : M result :=
  start_keepalive;;
  try_finally
    (call_body refiner_strength_arg refiner_guidance_scale_arg
       refiner_aesthetic_score_arg refiner_negative_aesthetic_score_arg
       scale_to_refiner_size kw)
    (set_tensorrt_is_enabled true;; stop_keepalive).

End Methods.

(** ** The keys that [get_status] computes *)

Section StatusKeys.
Variable float_repr : Q -> string.





End StatusKeys.

End Manager.

(* ===================================================================== *)
(** * Part III. [DiffusionEngine] (engine.py)                              *)
(* ===================================================================== *)

Module Engine.

(** A value carried in an envelope, after [Serializer.deserialize]. *)
Inductive pyval :=
  | PNone
  | PInt (n : Z)
  | PStr (s : string).

#[export] Instance pyval_eq_dec : EqDecision pyval.
Proof. solve_decision. Defined.

(** An envelope is a dictionary. The queues are taken to carry the
    dictionaries themselves: [Serializer.deserialize] undoes
    [Serializer.serialize]. *)
Abbreviation envelope := (gmap string pyval).

Inductive exn :=
  | KeyError (key : string)
  | TypeError
  | IOError (msg : string)
  | TimeoutError (msg : string)
  | RecursionError
  | Remote (kind : string) (message : pyval).

(** [resolve(kind)]: the exception class named [kind], to be applied to
    the message. A name that is not a string cannot be resolved; every
    string is taken to name a class that can be imported and takes one
    argument. Left: raised while resolving. *)
Definition resolve (kind : pyval) : exn + (pyval -> exn) :=
  match kind with
  | PStr k => inr (Remote k)
  | _ => inl TypeError
  end.

(** What the worker does while the controller sleeps once: it may exit,
    and it may put envelopes on the results queue. *)
Record tick := Tick { dies : bool; arrivals : list envelope }.

(** The controller, and what it sees of the outside. [process] is the
    attribute holding the handle, with the liveness of the worker behind
    it; the three queue attributes hold what is on each queue. [clock]
    is the time in seconds, [schedule] what the worker will do during the
    next sleeps, [sigterms] the times at which [process.terminate()] was
    called and [logged] the traces given to [logger.error]. *)
Record engine := Engine {
  process : option bool;
  _instructions : option (list envelope);
  _results : option (list envelope);
  _intermediates : option (list envelope);
  request : Z;
  clock : Q;
  schedule : list tick;
  sigterms : list Q;
  logged : list pyval
}.

Definition set_process (v : option bool) (e : engine) : engine :=
  let '(Engine a0 a1 a2 a3 a4 a5 a6 a7 a8) := e in
  Engine v a1 a2 a3 a4 a5 a6 a7 a8.

Definition set_instructions (v : option (list envelope)) (e : engine) : engine :=
  let '(Engine a0 a1 a2 a3 a4 a5 a6 a7 a8) := e in
  Engine a0 v a2 a3 a4 a5 a6 a7 a8.

Definition set_results (v : option (list envelope)) (e : engine) : engine :=
  let '(Engine a0 a1 a2 a3 a4 a5 a6 a7 a8) := e in
  Engine a0 a1 v a3 a4 a5 a6 a7 a8.

Definition set_intermediates (v : option (list envelope)) (e : engine) : engine :=
  let '(Engine a0 a1 a2 a3 a4 a5 a6 a7 a8) := e in
  Engine a0 a1 a2 v a4 a5 a6 a7 a8.

Definition set_request (v : Z) (e : engine) : engine :=
  let '(Engine a0 a1 a2 a3 a4 a5 a6 a7 a8) := e in
  Engine a0 a1 a2 a3 v a5 a6 a7 a8.

Definition set_clock (v : Q) (e : engine) : engine :=
  let '(Engine a0 a1 a2 a3 a4 a5 a6 a7 a8) := e in
  Engine a0 a1 a2 a3 a4 v a6 a7 a8.

Definition set_schedule (v : list tick) (e : engine) : engine :=
  let '(Engine a0 a1 a2 a3 a4 a5 a6 a7 a8) := e in
  Engine a0 a1 a2 a3 a4 a5 v a7 a8.

Definition set_sigterms (v : list Q) (e : engine) : engine :=
  let '(Engine a0 a1 a2 a3 a4 a5 a6 a7 a8) := e in
  Engine a0 a1 a2 a3 a4 a5 a6 v a8.

Definition set_logged (v : list pyval) (e : engine) : engine :=
  let '(Engine a0 a1 a2 a3 a4 a5 a6 a7 a8) := e in
  Engine a0 a1 a2 a3 a4 a5 a6 a7 v.

Inductive queue_name := instructions | results | intermediates.

Definition queue_attribute (q : queue_name) (e : engine)
    : option (list envelope) :=
  match q with
  | instructions => _instructions e
  | results => _results e
  | intermediates => _intermediates e
  end.

Definition set_queue_attribute (q : queue_name)
    (v : option (list envelope)) (e : engine) : engine :=
  match q with
  | instructions => set_instructions v e
  | results => set_results v e
  | intermediates => set_intermediates v e
  end.

Definition queue_label (q : queue_name) : string :=
  match q with
  | instructions => "instructions"
  | results => "results"
  | intermediates => "intermediates"
  end.

(** * Methods as state transformers

    A method returns, raises, or is still in a polling loop when the
    number of rounds allowed to it is used up. *)
Inductive outcome (A : Type) :=
  | Returned (a : A)
  | Raised (x : exn)
  | Unfinished.
Arguments Returned {A} a.
Arguments Raised {A} x.
Arguments Unfinished {A}.

Definition M (A : Type) : Type := engine -> outcome A * engine.

#[export] Instance M_ret : MRet M := fun A a e => (Returned a, e).

#[export] Instance M_bind : MBind M := fun A B f c e =>
  match c e with
  | (Returned a, e') => f a e'
  | (Raised x, e') => (Raised x, e')
  | (Unfinished, e') => (Unfinished, e')
  end.

Definition raise {A} (x : exn) : M A := fun e => (Raised x, e).
Definition unfinished {A} : M A := fun e => (Unfinished, e).
Definition get : M engine := fun e => (Returned e, e).
Definition modify (f : engine -> engine) : M unit :=
  fun e => (Returned tt, f e).

(** [try: body except Exception as ex: handler; raise ex] *)
Definition on_exception {A} (body : M A) (handler : M unit) : M A := fun e =>
  match body e with
  | (Raised x, e1) =>
      match handler e1 with
      | (Returned _, e2) => (Raised x, e2)
      | (Raised y, e2) => (Raised y, e2)
      | (Unfinished, e2) => (Unfinished, e2)
      end
  | r => r
  end.

(** ** The outside *)

(** [time.sleep(d)]: the clock advances by [d] and the worker does what
    the schedule says next. *)
Definition sleep (d : Q) : M unit := modify (fun e =>
  let e1 := set_clock (clock e + d)%Q e in
  match schedule e1 with
  | [] => e1
  | t :: rest =>
      let e2 := set_schedule rest e1 in
      let e3 := if dies t
                then set_process (option_map (fun _ => false) (process e2)) e2
                else e2 in
      set_results (option_map (fun q => q ++ arrivals t) (_results e3)) e3
  end).

(** [datetime.datetime.now()] *)
Definition now : M Q := fun e => (Returned (clock e), e).

(** [self.process.terminate()] *)
Definition process_terminate : M unit :=
  modify (fun e => set_sigterms (sigterms e ++ [clock e]) e).

(** [hasattr(self, "process") and self.process.is_alive()] *)
Definition process_alive (e : engine) : bool := default false (process e).

Section Engine.

(** [DiffusionEngineProcess.POLLING_DELAY_MS], declared in process.py. *)
Variable POLLING_DELAY_MS : Q.

(** ** Stopping the worker *)

(** The loop of [terminate_process]:
    [while self.process.is_alive(): ...]. *)
Fixpoint terminate_poll (rounds : nat) (start : Q) (timeout : option Q)
    (sleep_time : Q) : M unit :=
  e ← get;
  if process_alive e then
    match rounds with
    | O => unfinished
    | S rounds' =>
        t ← now;
        let waited := (t - start)%Q in
        if match timeout with
           | Some limit => negb (Qle_bool limit waited)
           | None => false
           end
        then process_terminate;; sleep sleep_time
        else sleep sleep_time;;
             terminate_poll rounds' start timeout sleep_time
    end
  else mret tt.

(** The methods that call each other. [depth] is the room left on the
    call stack, [rounds] the number of rounds allowed to a polling
    loop. *)
Fixpoint is_alive (depth : nat) (rounds : nat) : M bool :=
  match depth with
  | O => raise RecursionError
  | S depth' =>
      e ← get;
      match process e with
      | None => mret false
      | Some alive =>
          if negb alive then
            terminate_process depth' rounds (Some 10%Q);;
            mret false
          else mret true
      end
  end

with check_get_queue (depth : nat) (rounds : nat) (q : queue_name)
    : M (list envelope) :=
  match depth with
  | O => raise RecursionError
  | S depth' =>
      e ← get;
      match queue_attribute q e with
      | Some content => mret content
      | None =>
          alive ← is_alive depth' rounds;
          if (alive : bool) then
            raise (IOError ("Queue '" +:+ queue_label q
                            +:+ "' is missing, but process is alive."))
          else
            modify (set_queue_attribute q (Some []));;
            mret []
      end
  end

with check_delete_queue (depth : nat) (rounds : nat) (q : queue_name)
    : M unit :=
  match depth with
  | O => raise RecursionError
  | S depth' =>
      e ← get;
      match queue_attribute q e with
      | Some _ =>
          alive ← is_alive depth' rounds;
          if (alive : bool) then
            raise (IOError ("Attempted to close queue " +:+ queue_label q
                            +:+ " while process is still alive"))
          else modify (set_queue_attribute q None)
      | None => mret tt
      end
  end

with spawn_process (depth : nat) (rounds : nat) (fail_when_redundant : bool)
    : M unit :=
  match depth with
  | O => raise RecursionError
  | S depth' =>
      e ← get;
      if process_alive e then
        if fail_when_redundant then
          raise (IOError "spawn_process called while a process is already running")
        else mret tt
      else
        _ ← check_get_queue depth' rounds instructions;
        _ ← check_get_queue depth' rounds results;
        _ ← check_get_queue depth' rounds intermediates;
        modify (set_process (Some true));;
        on_exception
          (sleep (POLLING_DELAY_MS / 250)%Q;;
           alive ← is_alive depth' rounds;
           if (alive : bool) then mret tt
           else raise (IOError "Engine process died before it became responsive"))
          (terminate_process depth' rounds (Some 10%Q))
  end

with dispatch (depth : nat) (rounds : nat) (action : string)
    (payload : pyval) (spawn : bool) : M Z :=
  match depth with
  | O => raise RecursionError
  | S depth' =>
      (if spawn then spawn_process depth' rounds false else mret tt);;
      modify (fun e => set_request (request e + 1) e);;
      e ← get;
      let envelope : envelope :=
        {[ "id" := PInt (request e); "action" := PStr action;
           "payload" := payload ]} in
      content ← check_get_queue depth' rounds instructions;
      modify (set_instructions (Some (content ++ [envelope])));;
      mret (request e)
  end

with terminate_process (depth : nat) (rounds : nat) (timeout : option Q)
    : M unit :=
  match depth with
  | O => raise RecursionError
  | S depth' =>
      e ← get;
      match process e with
      | None => mret tt
      | Some _ =>
          let sleep_time := (POLLING_DELAY_MS / 500)%Q in
          (if process_alive e then
             start ← now;
             _ ← dispatch depth' rounds "stop" PNone true;
             sleep sleep_time;;
             terminate_poll rounds start timeout sleep_time
           else mret tt);;
          e1 ← get;
          (if process_alive e1 then process_terminate;; sleep sleep_time
           else mret tt);;
          e2 ← get;
          if process_alive e2 then raise (IOError "Couldn't terminate process")
          else
            modify (set_process None);;
            check_delete_queue depth' rounds intermediates;;
            check_delete_queue depth' rounds results;;
            check_delete_queue depth' rounds instructions
      end
  end.

(** ** Waiting for a reply *)

(** The [for] loop of [wait] over the envelopes just taken off the
    results queue. [to_raise] and [to_return] are the two variables of
    that name; an exception raised inside the loop leaves it at once. *)
Fixpoint sort_results (depth rounds : nat) (id : Z)
    (all_results : list envelope) (to_raise : option exn)
    (to_return : pyval) : M (option exn * pyval) :=
  match all_results with
  | [] => mret (to_raise, to_return)
  | result :: rest =>
      match result !! "id" with
      | None => raise (KeyError "id")
      | Some found =>
          if bool_decide (found = PInt id) then
            match result !! "error" with
            | Some kind =>
                match resolve kind with
                | inl x => raise x
                | inr make =>
                    match result !! "message" with
                    | None => raise (KeyError "message")
                    | Some message =>
                        (match result !! "trace" with
                         | Some trace =>
                             modify (fun e => set_logged (logged e ++ [trace]) e)
                         | None => mret tt
                         end);;
                        sort_results depth rounds id rest
                          (Some (make message)) to_return
                    end
                end
            | None =>
                match result !! "result" with
                | None => raise (KeyError "result")
                | Some value =>
                    sort_results depth rounds id rest to_raise value
                end
            end
          else
            content ← check_get_queue depth rounds results;
            modify (set_results (Some (content ++ [result])));;
            sort_results depth rounds id rest to_raise to_return
      end
  end.

(** The [while True] loop of [wait]; [polls] bounds its rounds. *)
Fixpoint wait_poll (depth rounds polls : nat) (id : Z) (timeout : option Q)
    (start poll_delay_seconds : Q) : M pyval :=
  match polls with
  | O => unfinished
  | S polls' =>
      alive ← is_alive depth rounds;
      if negb alive then raise (IOError "Process died while waiting for result.")
      else
        all_results ← check_get_queue depth rounds results;
        modify (set_results (Some []));;
        '(to_raise, to_return) ←
          sort_results depth rounds id all_results None PNone;
        match to_raise with
        | Some x => raise x
        | None =>
            if negb (bool_decide (to_return = PNone)) then mret to_return
            else
              sleep poll_delay_seconds;;
              t ← now;
              if match timeout with
                 | Some limit => negb (Qle_bool (t - start) limit)
                 | None => false
                 end
              then raise (TimeoutError "Timed out waiting for response.")
              else wait_poll depth rounds polls' id timeout start
                     poll_delay_seconds
        end
  end.

(** [wait] *)
Definition wait (depth rounds polls : nat) (id : Z) (timeout : option Q)
    : M pyval :=
  start ← now;
  wait_poll depth rounds polls id timeout start (POLLING_DELAY_MS / 500)%Q.

(** [invoke] *)
Definition invoke (depth rounds polls : nat) (action : string)
    (payload : pyval) (timeout : option Q) : M pyval :=
  id ← dispatch depth rounds action payload true;
  wait depth rounds polls id timeout.

(** [execute]: [payload] is [plan.get_serialization_dict()]. *)
Definition execute (depth rounds polls : nat) (payload : pyval)
    (timeout : option Q) (and_wait : bool) : M pyval :=
  id ← dispatch depth rounds "plan" payload true;
  if and_wait then wait depth rounds polls id timeout
  else mret (PInt id).

(** ** Progress reports *)

(** The keys that [last_intermediate] copies. *)
Definition intermediate_keys : list string :=
  ["step"; "total"; "rate"; "images"; "task"].

(** [for key in [...]: if key in step_deserialized: ...] *)
Definition copy_keys (step data : envelope) : envelope :=
  foldl (fun acc key =>
           match step !! key with
           | Some value => <[ key := value ]> acc
           | None => acc
           end) data intermediate_keys.

(** The [for] loop of [last_intermediate]; [intermediate_data] is the
    variable of that name. *)
Fixpoint merge_steps (depth rounds : nat) (id : Z)
    (all_steps : list envelope) (intermediate_data : option envelope)
    : M (option envelope) :=
  match all_steps with
  | [] => mret intermediate_data
  | step :: rest =>
      match step !! "id" with
      | None => raise (KeyError "id")
      | Some found =>
          if bool_decide (found = PInt id) then
            let data :=
              match intermediate_data with
              | None => {[ "id" := PInt id ]}
              | Some data => data
              end in
            merge_steps depth rounds id rest (Some (copy_keys step data))
          else
            content ← check_get_queue depth rounds intermediates;
            modify (set_intermediates (Some (content ++ [step])));;
            merge_steps depth rounds id rest intermediate_data
      end
  end.

(** [last_intermediate] *)
Definition last_intermediate (depth rounds : nat) (id : Z)
    : M (option envelope) :=
  all_steps ← check_get_queue depth rounds intermediates;
  modify (set_intermediates (Some []));;
  merge_steps depth rounds id all_steps None.

(** ** Keeping the worker awake *)

(** [str(value)], as an f-string renders it. *)
Definition str_pyval (value : pyval) : string :=
  match value with
  | PNone => "None"
  | PInt n => Py.str_int n
  | PStr s => s
  end.

(** [keepalive]. Its [timeout] argument is not used by the body. The
    instructions queue holds what the controller has put on it. *)
Definition keepalive (depth rounds polls : nat) (timeout : Q) : M bool :=
  e ← get;
  match process e with
  | None => mret false
  | Some alive =>
      if negb alive then
        terminate_process depth rounds (Some 10%Q);;
        mret false
      else
        pending ← check_get_queue depth rounds instructions;
        (match pending with
         | [] =>
             ping_response ← invoke depth rounds polls "ping" PNone None;
             if negb (bool_decide (ping_response = PStr "pong")) then
               terminate_process depth rounds (Some 10%Q);;
               raise (IOError ("Incorrect ping response "
                               +:+ str_pyval ping_response))
             else mret tt
         | _ :: _ => mret tt
         end);;
        mret true
  end.

End Engine.

End Engine.

(* ===================================================================== *)
(** * Part IV. Properties                                                  *)
(* ===================================================================== *)

Example md5_empty : Py.md5_hexdigest "" = "d41d8cd98f00b204e9800998ecf8427e".
Proof. vm_compute. reflexivity. Qed.

Example md5_abc : Py.md5_hexdigest "abc" = "900150983cd24fb0d6963f7d28e17f72".
Proof. vm_compute. reflexivity. Qed.

Example md5_long :
  Py.md5_hexdigest
    "12345678901234567890123456789012345678901234567890123456789012345678901234567890"
  = "57edf4a22be3c955ac49da2e2107b67a".
Proof. vm_compute. reflexivity. Qed.

Example key_example :
  Manager.get_unet_key (fun _ => "") 512
    [("b", Py.PyInt 1); ("a", Py.PyInt 2)] [] ["z"; "y"]
  = Py.md5_hexdigest "512-a=2:b=1--y:z".
Proof. vm_compute. reflexivity. Qed.

Module PyFacts.
Import Py.

(** ** The order on [str] *)

Lemma ascii_compare_refl c : Ascii.compare c c = Eq.
Proof. unfold Ascii.compare. apply N.compare_refl. Qed.

Lemma ascii_compare_lt_trans a b c :
  Ascii.compare a b = Lt -> Ascii.compare b c = Lt -> Ascii.compare a c = Lt.
Proof.
  unfold Ascii.compare. rewrite !N.compare_lt_iff. apply N.lt_trans.
Qed.

Lemma compare_lt_trans a : forall b c,
  String.compare a b = Lt -> String.compare b c = Lt -> String.compare a c = Lt.
Proof.
  induction a as [|x a IH]; intros [|y b] [|z c]; simpl; try congruence.
  destruct (Ascii.compare x y) eqn:Hxy; try congruence.
  - apply Ascii.compare_eq_iff in Hxy as ->.
    destruct (Ascii.compare y z); try congruence. apply IH.
  - intros _. destruct (Ascii.compare y z) eqn:Hyz; try congruence.
    + apply Ascii.compare_eq_iff in Hyz as <-. now rewrite Hxy.
    + now rewrite (ascii_compare_lt_trans _ _ _ Hxy Hyz).
Qed.

Lemma str_le_spec a b :
  str_le a b = true <-> String.compare a b = Lt \/ a = b.
Proof.
  unfold str_le, String.leb. split.
  - destruct (String.compare a b) eqn:E; try discriminate; auto.
    right. now apply String.compare_eq_iff.
  - intros [-> | ->]; [reflexivity|].
    assert (String.compare b b = Eq) as ->; [|reflexivity].
    induction b as [|c b IH]; simpl; [reflexivity|].
    now rewrite ascii_compare_refl.
Qed.

Lemma str_le_refl a : str_le a a = true.
Proof. apply str_le_spec. now right. Qed.

Lemma str_le_trans a b c :
  str_le a b = true -> str_le b c = true -> str_le a c = true.
Proof.
  rewrite !str_le_spec. intros [Hab | ->] [Hbc | ->]; auto.
  left. eapply compare_lt_trans; eassumption.
Qed.

Lemma str_le_antisym a b : str_le a b = true -> str_le b a = true -> a = b.
Proof. apply String.leb_antisym. Qed.

Lemma str_le_total a b : str_le a b = true \/ str_le b a = true.
Proof. apply String.leb_total. Qed.

(** ** [sorted] returns the stable sort of its argument *)

Section Sorted.
Context {A : Type} (key : A -> string).

Definition key_le (x y : A) : Prop := str_le (key x) (key y) = true.
Definition key_lt (x y : A) : Prop := key_le x y /\ key x <> key y.

Lemma insert_by_Permutation x l : insert_by key x l ≡ₚ x :: l.
Proof.
  induction l as [|y l IH]; simpl; [done|].
  destruct (str_le (key x) (key y)); [done|].
  rewrite IH. apply Permutation_swap.
Qed.

Lemma sorted_Permutation l : sorted key l ≡ₚ l.
Proof.
  induction l as [|x l IH]; simpl; [done|].
  now rewrite insert_by_Permutation, IH.
Qed.

Lemma insert_by_StronglySorted x l :
  StronglySorted key_le l -> StronglySorted key_le (insert_by key x l).
Proof.
  induction 1 as [|y l Hl IH Hy]; simpl.
  - repeat constructor.
  - destruct (str_le (key x) (key y)) eqn:E.
    + constructor; [now constructor|].
      constructor; [exact E|].
      eapply Forall_impl; [exact Hy|]. intros z Hz.
      unfold key_le in *. eapply str_le_trans; eassumption.
    + constructor; [exact IH|].
      rewrite insert_by_Permutation. constructor; [|exact Hy].
      destruct (str_le_total (key x) (key y)); [congruence|assumption].
Qed.

Lemma sorted_StronglySorted l : StronglySorted key_le (sorted key l).
Proof.
  induction l; simpl; [constructor|]. now apply insert_by_StronglySorted.
Qed.

(** A list already in order is returned as it is, elements of equal key
    keeping their places. *)
Lemma sorted_id_on_sorted l : StronglySorted key_le l -> sorted key l = l.
Proof.
  induction 1 as [|x l Hl IH Hx]; simpl; [done|].
  rewrite IH. destruct Hx as [|y l Hy _]; simpl; [done|].
  unfold key_le in Hy. now rewrite Hy.
Qed.

Lemma StronglySorted_key_lt l :
  StronglySorted key_le l -> NoDup (map key l) -> StronglySorted key_lt l.
Proof.
  induction 1 as [|x l Hl IH Hx]; simpl; [constructor|].
  intros Hnd. apply NoDup_cons in Hnd as [Hin Hnd].
  constructor; [auto|].
  apply Forall_forall. intros y Hy. split.
  - rewrite Forall_forall in Hx. auto.
  - intros E. apply Hin. rewrite E. apply list_elem_of_fmap. eauto.
Qed.

#[local] Instance key_lt_antisymm : AntiSymm (=) key_lt.
Proof.
  intros x y [H1 Hne] [H2 _]. exfalso. apply Hne.
  now apply str_le_antisym.
Qed.

(** Only the set of entries matters when no two of them share a key. *)
Lemma sorted_perm_nodup l1 l2 :
  l1 ≡ₚ l2 -> NoDup (map key l1) -> sorted key l1 = sorted key l2.
Proof.
  intros Hp Hnd.
  apply (StronglySorted_unique key_lt).
  - apply StronglySorted_key_lt; [apply sorted_StronglySorted|].
    now rewrite sorted_Permutation.
  - apply StronglySorted_key_lt; [apply sorted_StronglySorted|].
    now rewrite sorted_Permutation, <- Hp.
  - now rewrite !sorted_Permutation.
Qed.

End Sorted.

#[local] Instance str_le_antisymm : AntiSymm (=) (key_le (@id string)).
Proof. intros x y. apply str_le_antisym. Qed.

(** Sorting strings by themselves: any rearrangement sorts to the same
    list. *)
Lemma sorted_id_perm (l1 l2 : list string) :
  l1 ≡ₚ l2 -> sorted id l1 = sorted id l2.
Proof.
  intros Hp. apply (StronglySorted_unique (key_le id)).
  - apply sorted_StronglySorted.
  - apply sorted_StronglySorted.
  - now rewrite !sorted_Permutation.
Qed.

End PyFacts.

Module KeyFacts.
Import Py PyFacts Manager.

(** ** Decimal numerals carry no dash after the sign *)

Lemma app_cons c a b : String c a +:+ b = String c (a +:+ b).
Proof. reflexivity. Qed.

Lemma app_empty b : "" +:+ b = b.
Proof. reflexivity. Qed.

Lemma app_assoc a b c : (a +:+ b) +:+ c = a +:+ (b +:+ c).
Proof.
  induction a as [|x a IH]; [done|]. now rewrite !app_cons, IH.
Qed.

Fixpoint no_dash (s : string) : bool :=
  match s with
  | EmptyString => true
  | String c s' => negb (Ascii.eqb c "-") && no_dash s'
  end.

Lemma no_dash_app a b : no_dash (a +:+ b) = no_dash a && no_dash b.
Proof.
  induction a as [|c a IH]; [done|].
  rewrite app_cons. simpl. now rewrite IH, andb_assoc.
Qed.

Lemma pretty_N_char_no_dash x : Ascii.eqb (pretty_N_char x) "-" = false.
Proof. unfold pretty_N_char. now repeat case_match. Qed.

Lemma pretty_N_go_digits x : forall s,
  exists d, pretty_N_go x s = d +:+ s /\ no_dash d = true.
Proof.
  induction (N.lt_wf_0 x) as [x _ IH]; intros s.
  assert (x = 0 \/ 0 < x)%N as [->|Hx] by lia.
  - exists "". now rewrite pretty_N_go_0.
  - rewrite pretty_N_go_step by done.
    destruct (IH (x `div` 10)%N) with
      (s := String (pretty_N_char (x `mod` 10)) s) as (d & -> & Hd).
    { now apply N.div_lt. }
    exists (d +:+ String (pretty_N_char (x `mod` 10)) "").
    split.
    + now rewrite app_assoc.
    + rewrite no_dash_app, Hd. simpl. now rewrite pretty_N_char_no_dash.
Qed.

Lemma pretty_N_no_dash (x : N) : no_dash (pretty x) = true.
Proof.
  unfold pretty, pretty_N. case_decide; [done|].
  destruct (pretty_N_go_digits x "") as (d & -> & Hd).
  now rewrite no_dash_app, Hd.
Qed.

Lemma str_int_nonneg_no_dash (n : Z) : 0 <= n -> no_dash (str_int n) = true.
Proof.
  destruct n as [|p|p]; [done| |lia]. intros _.
  apply (pretty_N_no_dash (Npos p)).
Qed.

Lemma str_int_neg (n : Z) : n < 0 -> str_int n = "-" +:+ str_int (- n).
Proof. destruct n as [|p|p]; [lia|lia|]. reflexivity. Qed.

Lemma str_int_inj (m n : Z) : str_int m = str_int n -> m = n.
Proof. apply pretty_Z_inj. Qed.

(** Two strings cut at their first dash agree on what stands before it. *)
Lemma first_dash_inj d1 : forall d2 r1 r2,
  no_dash d1 = true -> no_dash d2 = true ->
  d1 +:+ "-" +:+ r1 = d2 +:+ "-" +:+ r2 -> d1 = d2.
Proof.
  induction d1 as [|c d1 IH]; intros [|c' d2] r1 r2;
    rewrite ?app_cons, ?app_empty; simpl; try done.
  - intros _ H [= <- _]. rewrite Ascii.eqb_refl in H. discriminate H.
  - intros H _ [= -> _]. rewrite Ascii.eqb_refl in H. discriminate H.
  - intros [_ H1]%andb_prop [_ H2]%andb_prop [= -> E].
    f_equal. exact (IH d2 r1 r2 H1 H2 E).
Qed.

Lemma pretty_N_nonempty (x : N) : pretty x <> "".
Proof.
  unfold pretty, pretty_N. case_decide as Hx; [done|].
  rewrite pretty_N_go_step by lia.
  destruct (pretty_N_go_digits (x `div` 10)%N
    (String (pretty_N_char (x `mod` 10)) "")) as (d & -> & _).
  now destruct d.
Qed.

(** A numeral without sign does not start with a dash. *)
Lemma str_int_nonneg_head (n : Z) (r s : string) :
  0 <= n -> str_int n +:+ r <> "-" +:+ s.
Proof.
  intros Hn E. pose proof (str_int_nonneg_no_dash n Hn) as Hd.
  destruct (str_int n) as [|c u] eqn:En.
  - destruct n as [|p|p]; [done| |lia].
    now apply (pretty_N_nonempty (Npos p)).
  - rewrite app_cons in E. injection E as -> _. discriminate Hd.
Qed.

(** [str(size)] is read back from any string that starts with it and a
    dash. *)
Lemma str_int_dash_inj (m n : Z) (r1 r2 : string) :
  str_int m +:+ "-" +:+ r1 = str_int n +:+ "-" +:+ r2 -> m = n.
Proof.
  intros E.
  destruct (Z_lt_le_dec m 0) as [Hm|Hm], (Z_lt_le_dec n 0) as [Hn|Hn].
  - rewrite (str_int_neg m Hm), (str_int_neg n Hn), !app_assoc in E.
    apply String.app_inj in E.
    apply first_dash_inj in E; try (apply str_int_nonneg_no_dash; lia).
    apply str_int_inj in E. lia.
  - rewrite (str_int_neg m Hm), app_assoc in E. symmetry in E.
    now apply str_int_nonneg_head in E.
  - rewrite (str_int_neg n Hn), app_assoc in E.
    now apply str_int_nonneg_head in E.
  - apply first_dash_inj in E; try (apply str_int_nonneg_no_dash; lia).
    now apply str_int_inj.
Qed.

(** ** Splitting at a separator *)

(** [free c s]: the character [c] does not occur in [s]. *)
Fixpoint free (c : ascii) (s : string) : bool :=
  match s with
  | EmptyString => true
  | String x s' => negb (Ascii.eqb x c) && free c s'
  end.

Lemma free_app c a b : free c (a +:+ b) = free c a && free c b.
Proof.
  induction a as [|x a IH]; [done|].
  rewrite app_cons. simpl. now rewrite IH, andb_assoc.
Qed.

Lemma free_single c x : c <> x -> free c (String x "") = true.
Proof.
  intros H. cbn [free]. destruct (Ascii.eqb_spec x c); [congruence|done].
Qed.

Lemma free_sep c a b : free c (a +:+ String c b) = false.
Proof.
  rewrite free_app. simpl. rewrite Ascii.eqb_refl. simpl.
  apply andb_false_r.
Qed.

Lemma split_inj c d1 : forall d2 r1 r2,
  free c d1 = true -> free c d2 = true ->
  d1 +:+ String c r1 = d2 +:+ String c r2 -> d1 = d2 /\ r1 = r2.
Proof.
  induction d1 as [|x d1 IH]; intros [|y d2] r1 r2;
    rewrite ?app_cons, ?app_empty; simpl.
  - now intros _ _ [= ->].
  - intros _ H [= <- _]. rewrite Ascii.eqb_refl in H. discriminate H.
  - intros H _ [= -> _]. rewrite Ascii.eqb_refl in H. discriminate H.
  - intros [_ H1]%andb_prop [_ H2]%andb_prop [= -> E].
    destruct (IH d2 r1 r2 H1 H2 E) as [-> ->]. done.
Qed.

Lemma join_cons2 sep x y l :
  join sep (x :: y :: l) = x +:+ sep +:+ join sep (y :: l).
Proof. reflexivity. Qed.

Lemma free_join c sep l :
  free c sep = true -> Forall (fun s => free c s = true) l ->
  free c (join sep l) = true.
Proof.
  intros Hsep. induction 1 as [|x l Hx Hl IH]; [done|].
  destruct l as [|y l]; [done|].
  now rewrite join_cons2, !free_app, Hx, Hsep, IH.
Qed.

(** A list of separator-free, non-empty strings is read back from its
    [join]. *)
Lemma join_inj c l1 : forall l2,
  Forall (fun s => free c s = true /\ s <> "") l1 ->
  Forall (fun s => free c s = true /\ s <> "") l2 ->
  join (String c "") l1 = join (String c "") l2 -> l1 = l2.
Proof.
  induction l1 as [|x l1 IH]; intros [|y l2] H1 H2 E.
  - done.
  - exfalso. apply Forall_cons in H2 as [[_ Hy] _].
    destruct l2; simpl in E; [congruence|]. now destruct y.
  - exfalso. apply Forall_cons in H1 as [[_ Hx] _].
    destruct l1; simpl in E; [congruence|]. now destruct x.
  - apply Forall_cons in H1 as [[Hx _] H1].
    apply Forall_cons in H2 as [[Hy _] H2].
    destruct l1 as [|x' l1], l2 as [|y' l2].
    + simpl in E. now subst.
    + exfalso. rewrite join_cons2 in E.
      change (join (String c "") [x]) with x in E.
      rewrite E, app_cons, app_empty, free_sep in Hx. discriminate Hx.
    + exfalso. rewrite join_cons2 in E.
      change (join (String c "") [y]) with y in E.
      rewrite <- E, app_cons, app_empty, free_sep in Hy. discriminate Hy.
    + rewrite !join_cons2 in E.
      apply split_inj in E as [-> E]; [|done..].
      f_equal. now apply IH.
Qed.

(** ** What the hashed string determines *)

Definition sep_free (s : string) : bool :=
  free "-" s && free ":" s && free "=" s.

Section KeyString.
Variable float_repr : Q -> string.

(** An auxiliary weight as it is printed into the key. *)
Definition rendered (l : list weight) : list (string * string) :=
  map (fun w => (w.1, str_number float_repr w.2)) l.

(** No separator inside a name or a printed strength. *)
Definition clean_weights (l : list weight) : bool :=
  forallb (fun w => sep_free w.1 && sep_free (str_number float_repr w.2)) l.

(** No separator inside an inversion name, and no empty name. *)
Definition clean_names (l : list string) : bool :=
  forallb (fun s => sep_free s && negb (String.eqb s "")) l.

Lemma key_string_eq size lora lycoris inversion :
  key_string float_repr size lora lycoris inversion
  = str_int size +:+ "-" +:+ weights_part float_repr lora +:+ "-"
    +:+ weights_part float_repr lycoris +:+ "-"
    +:+ join ":" (sorted id inversion).
Proof. reflexivity. Qed.

Lemma clean_weights_sorted l :
  clean_weights l = true -> clean_weights (sorted fst l) = true.
Proof.
  unfold clean_weights. rewrite !forallb_forall. intros H w Hw.
  apply H. apply list_elem_of_In. apply list_elem_of_In in Hw.
  now rewrite sorted_Permutation in Hw.
Qed.

Lemma clean_names_sorted l :
  clean_names l = true -> clean_names (sorted id l) = true.
Proof.
  unfold clean_names. rewrite !forallb_forall. intros H w Hw.
  apply H. apply list_elem_of_In. apply list_elem_of_In in Hw.
  now rewrite sorted_Permutation in Hw.
Qed.

Lemma sep_free_spec s :
  sep_free s = true ->
  free "-" s = true /\ free ":" s = true /\ free "=" s = true.
Proof. unfold sep_free. now intros [[-> ->]%andb_prop ->]%andb_prop. Qed.

Lemma weight_part_free c w :
  c <> "="%char -> free c w.1 = true ->
  free c (str_number float_repr w.2) = true ->
  free c (weight_part float_repr w) = true.
Proof.
  intros Hc H1 H2. unfold weight_part. rewrite join_cons2.
  change (join "=" [?x]) with x.
  rewrite !free_app, H1, H2, free_single; done.
Qed.

Lemma weights_part_free c l :
  c <> "="%char -> c <> ":"%char ->
  Forall (fun w => free c w.1 = true
                   /\ free c (str_number float_repr w.2) = true) l ->
  free c (join ":" (map (weight_part float_repr) l)) = true.
Proof.
  intros H1 H2 Hl. apply free_join.
  - now apply free_single.
  - apply Forall_map. eapply Forall_impl; [exact Hl|].
    intros w [? ?]. now apply weight_part_free.
Qed.

Lemma clean_weights_Forall l :
  clean_weights l = true ->
  Forall (fun w => sep_free w.1 = true
                   /\ sep_free (str_number float_repr w.2) = true) l.
Proof.
  unfold clean_weights. rewrite forallb_forall, Forall_forall.
  intros H w Hw%list_elem_of_In. now apply andb_prop, H.
Qed.

Lemma weights_part_no_dash l :
  clean_weights l = true ->
  free "-" (join ":" (map (weight_part float_repr) l)) = true.
Proof.
  intros H%clean_weights_Forall. apply weights_part_free; [done..|].
  eapply Forall_impl; [exact H|].
  intros w [(? & _)%sep_free_spec (? & _)%sep_free_spec]. done.
Qed.

Lemma weight_parts_inj l1 : forall l2,
  clean_weights l1 = true -> clean_weights l2 = true ->
  map (weight_part float_repr) l1 = map (weight_part float_repr) l2 ->
  rendered l1 = rendered l2.
Proof.
  induction l1 as [|w l1 IH]; intros [|w' l2]; simpl; try done.
  intros [[Hw _]%andb_prop H1]%andb_prop [[Hw' _]%andb_prop H2]%andb_prop.
  intros [= E Et]. f_equal; [|now apply IH].
  unfold weight_part in E. rewrite !join_cons2 in E.
  change (join "=" [?x]) with x in E.
  apply sep_free_spec in Hw as (_ & _ & Hw).
  apply sep_free_spec in Hw' as (_ & _ & Hw').
  apply split_inj in E as [-> ->]; done.
Qed.

Lemma weights_part_inj l1 l2 :
  clean_weights l1 = true -> clean_weights l2 = true ->
  join ":" (map (weight_part float_repr) l1)
  = join ":" (map (weight_part float_repr) l2) ->
  rendered l1 = rendered l2.
Proof.
  intros H1 H2 E. apply weight_parts_inj; [done..|].
  assert (Hparts : forall l, clean_weights l = true ->
    Forall (fun s => free ":" s = true /\ s <> "")
           (map (weight_part float_repr) l)).
  { intros l H%clean_weights_Forall. apply Forall_map.
    eapply Forall_impl; [exact H|].
    intros w [(_ & ? & _)%sep_free_spec (_ & ? & _)%sep_free_spec].
    split; [now apply weight_part_free|].
    unfold weight_part. rewrite join_cons2. now destruct (w.1). }
  eapply join_inj; [apply Hparts, H1|apply Hparts, H2|exact E].
Qed.

(** Among inputs without separators in their names, the hashed string
    determines the size and, up to the order the lists were given in,
    every name and every printed strength. *)
Lemma key_string_inj size1 size2 lora1 lora2 lycoris1 lycoris2 inv1 inv2 :
  clean_weights lora1 = true -> clean_weights lora2 = true ->
  clean_weights lycoris1 = true -> clean_weights lycoris2 = true ->
  clean_names inv1 = true -> clean_names inv2 = true ->
  key_string float_repr size1 lora1 lycoris1 inv1
  = key_string float_repr size2 lora2 lycoris2 inv2 ->
  size1 = size2
  /\ rendered (sorted fst lora1) = rendered (sorted fst lora2)
  /\ rendered (sorted fst lycoris1) = rendered (sorted fst lycoris2)
  /\ sorted id inv1 = sorted id inv2.
Proof.
  intros Ha1%clean_weights_sorted Ha2%clean_weights_sorted
         Hy1%clean_weights_sorted Hy2%clean_weights_sorted
         Hi1%clean_names_sorted Hi2%clean_names_sorted E.
  rewrite !key_string_eq in E. unfold weights_part in E.
  pose proof (str_int_dash_inj _ _ _ _ E) as <-.
  apply String.app_inj in E.
  rewrite !(app_cons "-"), !app_empty in E. injection E as E.
  apply split_inj in E as [Ea E]; [|now apply weights_part_no_dash..].
  apply split_inj in E as [Ey Ei]; [|now apply weights_part_no_dash..].
  repeat split.
  - now apply weights_part_inj.
  - now apply weights_part_inj.
  - assert (Hnames : forall l, clean_names l = true ->
      Forall (fun s => free ":" s = true /\ s <> "") l).
    { intros l. unfold clean_names. rewrite forallb_forall, Forall_forall.
      intros H s Hs%list_elem_of_In.
      apply H, andb_prop in Hs as [(_ & ? & _)%sep_free_spec Hne].
      split; [done|]. intros ->. discriminate Hne. }
    eapply join_inj; [apply Hnames, Hi1|apply Hnames, Hi2|exact Ei].
Qed.

End KeyString.

End KeyFacts.

Module RoundFacts.
Import Py.

(** ** Rounding and the scale of the refinement pass *)

(** [round] returns an integer at distance at most one half. *)
Lemma py_round_near (x : Q) :
  (inject_Z (py_round x) - x <= 1 # 2)%Q
  /\ (x - inject_Z (py_round x) <= 1 # 2)%Q.
Proof.
  unfold py_round.
  pose proof (Qfloor_le x) as Hlo. pose proof (Qlt_floor x) as Hhi.
  rewrite inject_Z_plus in Hhi. change (inject_Z 1) with 1%Q in Hhi.
  destruct (Qcompare_spec (x - inject_Z (Qfloor x)) (1 # 2)) as [He|Hl|Hg];
    [destruct (Z.even (Qfloor x))| |];
    rewrite ?inject_Z_plus; change (inject_Z 1) with 1%Q;
    generalize dependent (inject_Z (Qfloor x)); intros f **; split; lra.
Qed.

(** [8 * round(x / 8)] is a multiple of eight at distance at most four. *)
Lemma nearest_multiple_of_8 (x : Q) :
  let n := 8 * py_round (x / 8) in
  n mod 8 = 0
  /\ (inject_Z n - x <= 4)%Q /\ (x - inject_Z n <= 4)%Q.
Proof.
  cbn zeta. split.
  - rewrite Z.mul_comm. apply Z_mod_mult.
  - destruct (py_round_near (x / 8)) as [H1 H2].
    rewrite inject_Z_mult. change (inject_Z 8) with 8%Q.
    generalize dependent (inject_Z (py_round (x / 8))). intros r H1 H2.
    assert (x / 8 == x * (1 # 8))%Q as Hd by (unfold Qdiv; reflexivity).
    rewrite Hd in H1, H2. split; lra.
Qed.

Lemma Qdiv_pos_spec (a b : Z) :
  0 < b -> (inject_Z a / inject_Z b == a # Z.to_pos b)%Q.
Proof.
  intros Hb. destruct b as [|b|b]; try lia.
  symmetry. apply Qmake_Qdiv.
Qed.

(** The scale computed by the refinement pass: the refiner size over the
    smaller side, and more than one. *)
Lemma image_scale_spec (rs w h : Z) :
  0 < w -> 0 < h -> w < rs \/ h < rs ->
  let scale_w := if w <? rs then (inject_Z rs / inject_Z w)%Q else 1%Q in
  let image_scale :=
    if h <? rs then py_max scale_w (inject_Z rs / inject_Z h)%Q
    else scale_w in
  (image_scale == inject_Z rs / inject_Z (Z.min w h))%Q
  /\ Qeq_bool image_scale 1 = false.
Proof.
  intros Hw Hh Hlt. cbn zeta.
  assert (Hgt : forall d, 0 < d -> d < rs ->
            ~ (inject_Z rs / inject_Z d == 1)%Q).
  { intros d Hd Hlt'. rewrite (Qdiv_pos_spec rs d Hd).
    unfold Qeq. cbn. rewrite Z2Pos.id by lia. lia. }
  assert (Hneq : forall q, ~ (q == 1)%Q -> Qeq_bool q 1 = false).
  { intros q Hq. destruct (Qeq_bool q 1) eqn:E; [|done].
    now apply Qeq_bool_iff in E. }
  destruct (Z.ltb_spec w rs) as [Hwr|Hwr], (Z.ltb_spec h rs) as [Hhr|Hhr];
    try lia.
  - unfold py_max.
    destruct (Qle_bool (inject_Z rs / inject_Z w) (inject_Z rs / inject_Z h))
      eqn:Hle.
    + apply Qle_bool_iff in Hle.
      rewrite (Qdiv_pos_spec rs w Hw), (Qdiv_pos_spec rs h Hh) in Hle.
      unfold Qle in Hle. cbn in Hle. rewrite !Z2Pos.id in Hle by lia.
      assert (h <= w) by nia.
      rewrite Z.min_r by lia. split; [reflexivity|]. now apply Hneq, Hgt.
    + assert (~ (inject_Z rs / inject_Z w <= inject_Z rs / inject_Z h)%Q)
        as Hnle.
      { intros H%Qle_bool_iff. congruence. }
      rewrite (Qdiv_pos_spec rs w Hw), (Qdiv_pos_spec rs h Hh) in Hnle.
      unfold Qle in Hnle. cbn in Hnle. rewrite !Z2Pos.id in Hnle by lia.
      assert (w <= h) by nia.
      rewrite Z.min_l by lia. split; [reflexivity|]. now apply Hneq, Hgt.
  - rewrite Z.min_l by lia. split; [reflexivity|]. now apply Hneq, Hgt.
  - unfold py_max.
    assert (Qle_bool 1 (inject_Z rs / inject_Z h) = true) as ->.
    { apply Qle_bool_iff. rewrite (Qdiv_pos_spec rs h Hh).
      unfold Qle. cbn. rewrite Z2Pos.id by lia. lia. }
    rewrite Z.min_r by lia. split; [reflexivity|]. now apply Hneq, Hgt.
Qed.

End RoundFacts.

Module ManagerFacts.
Import Py Manager.

(** Unfolding the plumbing of [M]. *)
Ltac run :=
  unfold mbind, mret, M_bind, M_ret, modify, get, raise, emit in *;
  cbn beta iota.

Section Facts.
Variable E : environment.

(** ** The properties read without raising *)

Lemma size_spec m :
  exists z, size E m = (Returned z, set_size (Some z) m)
            /\ (forall cur, _size m = Some cur -> z = cur).
Proof.
  unfold size. destruct m as [? ? ? ? ? ? [z|] ? ? ? ? ? ? ? ? ? ? ?]; cbn.
  - exists z. split; [done|]. now intros ? [= ->].
  - eexists. split; [done|]. discriminate.
Qed.

Lemma size_cached m cur :
  _size m = Some cur -> size E m = (Returned cur, m).
Proof.
  unfold size. intros ->. done.
Qed.

(** What [tensorrt_is_ready] leaves alone: everything but the cached
    size. *)
Definition same_but_size (m m' : manager) : Prop :=
  exists z, m' = m \/ m' = set_size (Some z) m.

Lemma model_unet_key_total m :
  exists k m', model_unet_key E m = (Returned k, m') /\ same_but_size m m'.
Proof.
  unfold model_unet_key. run.
  destruct (size_spec m) as (z & -> & _).
  eexists _, _. split; [done|]. exists z. now right.
Qed.

Lemma model_controlled_unet_key_total m :
  exists k m',
    model_controlled_unet_key E m = (Returned k, m') /\ same_but_size m m'.
Proof.
  unfold model_controlled_unet_key. run.
  destruct (size_spec m) as (z & -> & _).
  eexists _, _. split; [done|]. exists z. now right.
Qed.

Lemma tensorrt_is_ready_total m :
  exists b m', tensorrt_is_ready E m = (Returned b, m') /\ same_but_size m m'.
Proof.
  unfold tensorrt_is_ready.
  destruct (tensorrt_is_supported E); cbn.
  - destruct (controlnet E); run.
    + destruct (model_controlled_unet_key_total m) as (k & m' & -> & H).
      eauto.
    + destruct (model_unet_key_total m) as (k & m' & -> & H). eauto.
  - exists false, m. split; [done|]. exists 0. now left.
Qed.

Lemma tensorrt_is_ready_cached m cur :
  _size m = Some cur ->
  exists b, tensorrt_is_ready E m = (Returned b, m).
Proof.
  intros Hs. unfold tensorrt_is_ready, model_unet_key,
    model_controlled_unet_key. run.
  destruct (tensorrt_is_supported E), (controlnet E); cbn;
    rewrite ?(size_cached m cur Hs); eauto.
Qed.

Lemma tensorrt_is_enabled_total m :
  exists b m', tensorrt_is_enabled m = (Returned b, m')
    /\ (m' = m \/ m' = set_tensorrt_enabled (Some true) m).
Proof.
  unfold tensorrt_is_enabled. destruct (_tensorrt_enabled m); eauto.
Qed.

Lemma unload_pipeline_total reason m :
  exists m', unload_pipeline reason m = (Returned tt, m').
Proof.
  unfold unload_pipeline, del_pipeline. destruct (_pipeline m); eauto.
Qed.

(** The setter of [tensorrt_is_enabled] returns, and leaves the flag at
    the value assigned. *)
Lemma set_tensorrt_is_enabled_spec new_enabled m :
  exists m', set_tensorrt_is_enabled E new_enabled m = (Returned tt, m')
             /\ _tensorrt_enabled m' = Some new_enabled.
Proof.
  unfold set_tensorrt_is_enabled. run.
  destruct (tensorrt_is_enabled_total m) as (cur & m1 & -> & _).
  destruct (negb (Bool.eqb new_enabled cur)).
  - destruct (tensorrt_is_ready_total m1) as (b & m2 & -> & _).
    destruct b.
    + destruct (unload_pipeline_total "TensorRT enabled or disabled" m2)
        as (m3 & ->).
      eexists. split; [done|]. now destruct m3.
    + eexists. split; [done|]. now destruct m2.
  - eexists. split; [done|]. now destruct m1.
Qed.

(** ** Reading the configuration leaves the pipelines alone *)

(** What the configuration properties never touch: the pipelines, the
    count of objects built and the record of outside calls. *)
Definition held (m : manager) :=
  (_pipeline m, _pipeline_is_offloaded m,
   _refiner_pipeline m, _refiner_pipeline_is_offloaded m,
   _inpainter_pipeline m, _inpainter_pipeline_is_offloaded m,
   built m, trace m).

(** [reads c]: the computation returns and keeps [held]. *)
Definition reads {A} (c : M A) : Prop :=
  forall m, exists v m', c m = (Returned v, m') /\ held m' = held m.

Lemma reads_ret {A} (a : A) : reads (mret a).
Proof. intros m. now exists a, m. Qed.

Lemma reads_bind {A B} (c : M A) (k : A -> M B) :
  reads c -> (forall a, reads (k a)) -> reads (c ≫= k).
Proof.
  intros Hc Hk m. run.
  destruct (Hc m) as (a & m1 & -> & H1).
  destruct (Hk a m1) as (b & m2 & -> & H2).
  exists b, m2. split; [done|]. congruence.
Qed.

Lemma reads_size : reads (size E).
Proof.
  intros m. unfold size. destruct m as [? ? ? ? ? ? [z|] ? ? ? ? ? ? ? ? ? ? ?];
    cbn; eauto.
Qed.

Lemma reads_chunking_size : reads (chunking_size E).
Proof.
  intros m. unfold chunking_size.
  destruct m as [? ? ? ? ? ? ? [z|] ? ? ? ? ? ? ? ? ? ?]; cbn; eauto.
Qed.

Lemma reads_safe : reads (safe E).
Proof.
  intros m. unfold safe.
  destruct m as [? ? ? ? ? ? ? ? ? ? ? ? [b|] ? ? ? ? ?]; cbn; eauto.
Qed.

Lemma reads_tensorrt_is_enabled : reads tensorrt_is_enabled.
Proof.
  intros m. unfold tensorrt_is_enabled.
  destruct m as [? ? ? ? ? ? ? ? ? ? ? ? ? [b|] ? ? ? ?]; cbn; eauto.
Qed.

Lemma reads_get : reads get.
Proof. intros m. now exists m, m. Qed.

Lemma reads_tensorrt_is_ready : reads (tensorrt_is_ready E).
Proof.
  unfold tensorrt_is_ready, model_unet_key, model_controlled_unet_key.
  destruct (negb (tensorrt_is_supported E)); [apply reads_ret|].
  destruct (controlnet E);
    repeat first [apply reads_bind; [|intros ?] | apply reads_size
                 | apply reads_get | apply reads_ret].
Qed.

Lemma reads_use_tensorrt : reads (use_tensorrt E).
Proof.
  unfold use_tensorrt. apply reads_bind; [apply reads_tensorrt_is_ready|].
  intros rdy. destruct (rdy || build_tensorrt E);
    [apply reads_tensorrt_is_enabled|apply reads_ret].
Qed.

(** ** Building *)

(** On a manager without base pipeline whose construction succeeds, the
    [pipeline] property builds a new object and counts it. *)
Lemma pipeline_builds m :
  _pipeline m = None -> construct_fails E Base = None ->
  exists q m', pipeline E m = (Returned q, m')
    /\ pipe_id q = built m /\ built m' = S (built m)
    /\ _pipeline m' = Some q.
Proof.
  intros Hp Hc. unfold pipeline, build. run. rewrite Hp, Hc.
  destruct (reads_size m) as (sz & m1 & -> & K1).
  destruct (reads_chunking_size m1) as (cs & m2 & -> & K2).
  destruct (reads_safe m2) as (sf & m3 & -> & K3).
  destruct (reads_use_tensorrt m3) as (u & m4 & -> & K4).
  assert (built m4 = built m) as Hb.
  { unfold held in *. congruence. }
  eexists _, _. split; [reflexivity|]. cbn.
  destruct m4. cbn in *. auto.
Qed.

(** With the pipeline held, the property returns it and builds
    nothing. *)
Lemma pipeline_held m p :
  _pipeline m = Some p -> pipeline E m = (Returned p, m).
Proof. unfold pipeline. run. now intros ->. Qed.

(** ** Weakest preconditions *)

Definition wp {A} (c : M A) (Q : outcome A -> manager -> Prop)
    (m : manager) : Prop :=
  Q (c m).1 (c m).2.

Lemma wp_bind {A B} (c : M A) (k : A -> M B) Q m :
  wp c (fun o m1 => match o with
                    | Returned a => wp (k a) Q m1
                    | Raised e => Q (Raised e) m1
                    end) m ->
  wp (c ≫= k) Q m.
Proof.
  unfold wp. run. destruct (c m) as [[a|e] m1]; cbn; auto.
Qed.

Lemma wp_mono {A} (c : M A) (Q Q' : outcome A -> manager -> Prop) m :
  wp c Q m -> (forall o m1, Q o m1 -> Q' o m1) -> wp c Q' m.
Proof. unfold wp. auto. Qed.

(** ** What leaves the refiner and the record of outside calls alone *)

Definition kept (m m' : manager) : Prop :=
  trace m' = trace m
  /\ _refiner_pipeline m' = _refiner_pipeline m
  /\ _refiner_pipeline_is_offloaded m' = _refiner_pipeline_is_offloaded m.

Lemma kept_refl m : kept m m.
Proof. done. Qed.

Lemma kept_trans m1 m2 m3 : kept m1 m2 -> kept m2 m3 -> kept m1 m3.
Proof. unfold kept. intros (? & ? & ?) (? & ? & ?). split_and!; congruence. Qed.

(** [quiet c]: whatever its outcome, [c] keeps them. *)
Definition quiet {A} (c : M A) : Prop := forall m, kept m (c m).2.

Lemma quiet_ret {A} (a : A) : quiet (mret a).
Proof. intros m. apply kept_refl. Qed.

Lemma quiet_raise {A} e : quiet (@raise A e).
Proof. intros m. apply kept_refl. Qed.

Lemma quiet_get : quiet get.
Proof. intros m. apply kept_refl. Qed.

Lemma quiet_bind {A B} (c : M A) (k : A -> M B) :
  quiet c -> (forall a, quiet (k a)) -> quiet (c ≫= k).
Proof.
  intros Hc Hk m. run. specialize (Hc m).
  destruct (c m) as [[a|e] m1]; cbn in *; [|done].
  eapply kept_trans; [exact Hc|apply Hk].
Qed.

Lemma quiet_modify (f : manager -> manager) :
  (forall m, kept m (f m)) -> quiet (modify f).
Proof. intros Hf m. apply Hf. Qed.

Lemma wp_quiet {A} (c : M A) (Q : outcome A -> manager -> Prop) m :
  quiet c -> (forall o m1, kept m m1 -> Q o m1) -> wp c Q m.
Proof. unfold wp. auto. Qed.

(** The attribute updates that keep them. *)
Ltac kept_update := intros; match goal with |- kept ?m _ => now destruct m end.

Lemma kept_set_pipeline v m : kept m (set_pipeline v m).
Proof. kept_update. Qed.
Lemma kept_set_pipeline_is_offloaded v m :
  kept m (set_pipeline_is_offloaded v m).
Proof. kept_update. Qed.
Lemma kept_set_inpainter_pipeline v m : kept m (set_inpainter_pipeline v m).
Proof. kept_update. Qed.
Lemma kept_set_inpainter_pipeline_is_offloaded v m :
  kept m (set_inpainter_pipeline_is_offloaded v m).
Proof. kept_update. Qed.
Lemma kept_set_size v m : kept m (set_size v m).
Proof. kept_update. Qed.
Lemma kept_set_chunking_size v m : kept m (set_chunking_size v m).
Proof. kept_update. Qed.
Lemma kept_set_safe v m : kept m (set_safe v m).
Proof. kept_update. Qed.
Lemma kept_set_tensorrt_enabled v m : kept m (set_tensorrt_enabled v m).
Proof. kept_update. Qed.
Lemma kept_set_tenssort_is_enabled v m : kept m (set_tenssort_is_enabled v m).
Proof. kept_update. Qed.
Lemma kept_set_keepalive_thread v m : kept m (set_keepalive_thread v m).
Proof. kept_update. Qed.
Lemma kept_set_built v m : kept m (set_built v m).
Proof. kept_update. Qed.

Create HintDb kept.
#[local] Hint Resolve kept_refl kept_set_pipeline
  kept_set_pipeline_is_offloaded kept_set_inpainter_pipeline
  kept_set_inpainter_pipeline_is_offloaded kept_set_size
  kept_set_chunking_size kept_set_safe kept_set_tensorrt_enabled
  kept_set_tenssort_is_enabled kept_set_keepalive_thread kept_set_built
  : kept.

(** Methods written as functions of the manager. *)
Ltac quiet_direct :=
  intros m; cbv beta delta [pipeline_is_offloaded inpainter_is_offloaded];
  repeat (case_match; cbn [snd fst]);
  match goal with |- kept ?m0 _ => now destruct m0 end.

Lemma quiet_size : quiet (size E).
Proof. unfold size. quiet_direct. Qed.
Lemma quiet_chunking_size : quiet (chunking_size E).
Proof. unfold chunking_size. quiet_direct. Qed.
Lemma quiet_safe : quiet (safe E).
Proof. unfold safe. quiet_direct. Qed.
Lemma quiet_tensorrt_is_enabled : quiet tensorrt_is_enabled.
Proof. unfold tensorrt_is_enabled. quiet_direct. Qed.
Lemma quiet_del_pipeline : quiet del_pipeline.
Proof. unfold del_pipeline. quiet_direct. Qed.
Lemma quiet_del_inpainter_pipeline : quiet del_inpainter_pipeline.
Proof. unfold del_inpainter_pipeline. quiet_direct. Qed.
Lemma quiet_unload_pipeline r : quiet (unload_pipeline r).
Proof.
  intros m. unfold unload_pipeline. case_match; [apply quiet_del_pipeline|done].
Qed.
Lemma quiet_unload_inpainter r : quiet (unload_inpainter r).
Proof.
  intros m. unfold unload_inpainter.
  case_match; [apply quiet_del_inpainter_pipeline|done].
Qed.
Lemma quiet_offload_pipeline : quiet offload_pipeline.
Proof. unfold offload_pipeline. quiet_direct. Qed.
Lemma quiet_offload_inpainter : quiet offload_inpainter.
Proof. unfold offload_inpainter. quiet_direct. Qed.
Lemma quiet_reload_pipeline : quiet (reload_pipeline E).
Proof. unfold reload_pipeline. quiet_direct. Qed.
Lemma quiet_reload_inpainter : quiet (reload_inpainter E).
Proof. unfold reload_inpainter. quiet_direct. Qed.
Lemma quiet_start_keepalive : quiet start_keepalive.
Proof. apply quiet_modify. auto with kept. Qed.
Lemma quiet_stop_keepalive : quiet stop_keepalive.
Proof. apply quiet_modify. auto with kept. Qed.

(** Methods written with [bind]. *)
Ltac quiet_step :=
  first
    [ apply quiet_ret | apply quiet_raise | apply quiet_get
    | apply quiet_size | apply quiet_chunking_size | apply quiet_safe
    | apply quiet_tensorrt_is_enabled | apply quiet_unload_pipeline
    | apply quiet_unload_inpainter | apply quiet_offload_pipeline
    | apply quiet_offload_inpainter | apply quiet_reload_pipeline
    | apply quiet_reload_inpainter | apply quiet_start_keepalive
    | apply quiet_stop_keepalive
    | apply quiet_modify; solve [auto with kept]
    | apply quiet_bind; [|intros ?]
    | case_match ].

Lemma quiet_tensorrt_is_ready : quiet (tensorrt_is_ready E).
Proof.
  unfold tensorrt_is_ready, model_unet_key, model_controlled_unet_key.
  repeat quiet_step.
Qed.

Lemma quiet_inpainter_tensorrt_is_ready : quiet (inpainter_tensorrt_is_ready E).
Proof.
  unfold inpainter_tensorrt_is_ready, inpainter_unet_key. repeat quiet_step.
Qed.

Lemma quiet_set_tensorrt_is_enabled b : quiet (set_tensorrt_is_enabled E b).
Proof.
  unfold set_tensorrt_is_enabled.
  repeat first [apply quiet_tensorrt_is_ready | quiet_step].
Qed.

Lemma quiet_build v sz : quiet (build E v sz).
Proof. unfold build. repeat quiet_step. Qed.

Lemma quiet_pipeline : quiet (pipeline E).
Proof.
  unfold pipeline, use_tensorrt.
  repeat first [apply quiet_tensorrt_is_ready | apply quiet_build | quiet_step].
Qed.

Lemma quiet_inpainter_size : quiet (inpainter_size E).
Proof. unfold inpainter_size. repeat quiet_step. Qed.

Lemma quiet_inpainter_pipeline : quiet (inpainter_pipeline E).
Proof.
  unfold inpainter_pipeline, inpainter_use_tensorrt.
  repeat first [apply quiet_inpainter_tensorrt_is_ready | apply quiet_build
               | apply quiet_inpainter_size | quiet_step].
Qed.

(** ** The refiner's pipeline *)

Lemma reads_refiner_size : reads (refiner_size E).
Proof.
  unfold refiner_size.
  repeat first [apply reads_ret | apply reads_size | case_match].
Qed.

Lemma reads_refiner_use_tensorrt : reads (refiner_use_tensorrt E).
Proof.
  unfold refiner_use_tensorrt, refiner_tensorrt_is_ready, refiner_unet_key,
    refiner_controlled_unet_key.
  repeat first [apply reads_bind; [|intros ?] | apply reads_size
               | apply reads_tensorrt_is_enabled | apply reads_ret
               | case_match].
Qed.

(** A configured refiner whose construction succeeds is returned by the
    [refiner_pipeline] property, without any call to the outside. *)
Lemma refiner_pipeline_returns m name :
  refiner E = Some name -> name <> "" ->
  construct_fails E Refiner = None ->
  exists p m', refiner_pipeline E m = (Returned p, m') /\ trace m' = trace m.
Proof.
  intros Hr Hname Hc. unfold refiner_pipeline, build. rewrite Hr.
  destruct name; [done|]. run. rewrite Hc.
  destruct (_refiner_pipeline m) as [p|]; [eauto|].
  destruct (reads_refiner_size m) as (sz & m1 & -> & K1).
  destruct (reads_chunking_size m1) as (cs & m2 & -> & K2).
  destruct (reads_refiner_use_tensorrt m2) as (u & m3 & -> & K3).
  eexists _, _. split; [reflexivity|].
  assert (trace m3 = trace m) as <- by (unfold held in *; congruence).
  now destruct m3.
Qed.

(** ** The call when the strength argument is not positive *)

(** The outcome of a call that asks the outside for nothing but the
    primary pipeline's run: either an exception before that run, or the
    run's own outcome. *)
Definition only_primary (kw : kwargs) (m0 : manager)
    (o : outcome result) (m1 : manager) : Prop :=
  _refiner_pipeline m1 = _refiner_pipeline m0
  /\ _refiner_pipeline_is_offloaded m1 = _refiner_pipeline_is_offloaded m0
  /\ ((trace m1 = trace m0 /\ exists e, o = Raised e)
      \/ exists pipe,
           trace m1 = trace m0 ++ [Ran pipe kw]
           /\ o = match run_pipeline E pipe kw with
                  | inr res => Returned res
                  | inl e => Raised e
                  end).

Lemma only_primary_raised kw m0 m1 e :
  kept m0 m1 -> only_primary kw m0 (Raised e) m1.
Proof. intros (? & ? & ?). split_and!; eauto. Qed.

Lemma only_primary_kept kw m0 o m1 m2 :
  only_primary kw m0 o m1 -> kept m1 m2 -> only_primary kw m0 o m2.
Proof.
  intros (? & ? & H) (Ht & ? & ?). split_and!; [congruence..|].
  rewrite Ht. exact H.
Qed.

Tactic Notation "through" tactic3(lem) "as" ident(v) ident(m') :=
  apply wp_bind; apply wp_quiet; [lem|];
  let K := fresh "K" in
  intros [v|?] m' K;
  [|apply only_primary_raised; eauto using kept_trans].

Lemma call_body_skips x a2 a3 a4 scale kw m :
  le_zero x = true ->
  wp (call_body E (Some x) a2 a3 a4 scale kw) (only_primary kw m) m.
Proof.
  intros Hx. unfold call_body.
  through (repeat first
    [ apply quiet_inpainter_size | apply quiet_inpainter_pipeline
    | apply quiet_pipeline | quiet_step ]) as sz m1.
  through (apply quiet_chunking_size) as cs m2.
  through (repeat first [apply quiet_set_tensorrt_is_enabled | quiet_step])
    as u m3.
  through (repeat first
    [ apply quiet_inpainter_pipeline | apply quiet_pipeline | quiet_step ])
    as pipe m4.
  through (apply quiet_stop_keepalive) as u' m5.
  assert (kept m m5) as (Ht & Hr & Hro) by eauto using kept_trans.
  unfold wp, emit. run. cbn.
  assert (only_primary kw m
      match run_pipeline E pipe kw with
      | inr res => Returned res
      | inl e => Raised e
      end (set_trace (trace m5 ++ [Ran pipe kw]) m5)) as Hdone.
  { destruct m5. cbn in *. split_and!; [done..|].
    right. exists pipe. now rewrite Ht. }
  destruct (run_pipeline E pipe kw) as [e|res] eqn:Hrun; cbn.
  - exact Hdone.
  - destruct (refiner E); cbn; [rewrite Hx; cbn|]; exact Hdone.
Qed.

(** Likewise when no refiner is configured. *)
Lemma call_body_without_refiner a1 a2 a3 a4 scale kw m :
  refiner E = None ->
  wp (call_body E a1 a2 a3 a4 scale kw) (only_primary kw m) m.
Proof.
  intros Hr. unfold call_body.
  through (repeat first
    [ apply quiet_inpainter_size | apply quiet_inpainter_pipeline
    | apply quiet_pipeline | quiet_step ]) as sz m1.
  through (apply quiet_chunking_size) as cs m2.
  through (repeat first [apply quiet_set_tensorrt_is_enabled | quiet_step])
    as u m3.
  through (repeat first
    [ apply quiet_inpainter_pipeline | apply quiet_pipeline | quiet_step ])
    as pipe m4.
  through (apply quiet_stop_keepalive) as u' m5.
  assert (kept m m5) as (Ht & Hrp & Hro) by eauto using kept_trans.
  unfold wp, emit. run. cbn.
  assert (only_primary kw m
      match run_pipeline E pipe kw with
      | inr res => Returned res
      | inl e => Raised e
      end (set_trace (trace m5 ++ [Ran pipe kw]) m5)) as Hdone.
  { destruct m5. cbn in *. split_and!; [done..|].
    right. exists pipe. now rewrite Ht. }
  destruct (run_pipeline E pipe kw) as [e|res] eqn:Hrun; cbn.
  - exact Hdone.
  - rewrite Hr. exact Hdone.
Qed.

End Facts.
End ManagerFacts.

Module EngineFacts.
Import Engine.

Ltac run :=
  unfold mbind, mret, Engine.M_bind, Engine.M_ret, Engine.modify, Engine.get,
    Engine.raise, Engine.unfinished, Engine.now in *;
  cbn beta iota.

(** ** Envelopes *)

(** The envelope answers the request [id]. *)
Definition answers (id : Z) (d : envelope) : bool :=
  bool_decide (d !! "id" = Some (PInt id)).

(** What [wait] can read without raising: an envelope carries an id, and
    one that answers [id] carries an error kind that is a string with a
    message, or else a result. *)
Definition well_formed (id : Z) (d : envelope) : bool :=
  match d !! "id" with
  | None => false
  | Some found =>
      if bool_decide (found = PInt id) then
        match d !! "error" with
        | Some (PStr _) => bool_decide (is_Some (d !! "message"))
        | Some _ => false
        | None => bool_decide (is_Some (d !! "result"))
        end
      else true
  end.

(** The envelopes for other requests, in the order they have. *)
Definition others (id : Z) (q : list envelope) : list envelope :=
  filter (fun d => answers id d = false) q.

Lemma others_app id q1 q2 : others id (q1 ++ q2) = others id q1 ++ others id q2.
Proof. apply filter_app. Qed.

Lemma others_cons id d q :
  others id (d :: q) = if answers id d then others id q else d :: others id q.
Proof.
  unfold others. rewrite filter_cons.
  destruct (answers id d); case_decide; congruence.
Qed.

Lemma others_idemp id q : others id (others id q) = others id q.
Proof.
  induction q as [|d q IH]; [done|]. rewrite others_cons.
  destruct (answers id d) eqn:E; [done|]. now rewrite others_cons, E, IH.
Qed.

(** What the loop of [wait] leaves in its two variables after it has
    read the envelopes of [q]. *)
Fixpoint captured (id : Z) (q : list envelope) (to_raise : option exn)
    (to_return : pyval) : option exn * pyval :=
  match q with
  | [] => (to_raise, to_return)
  | d :: rest =>
      if answers id d then
        match d !! "error", d !! "message", d !! "result" with
        | Some (PStr k), Some message, _ =>
            captured id rest (Some (Remote k message)) to_return
        | None, _, Some value => captured id rest to_raise value
        | _, _, _ => captured id rest to_raise to_return
        end
      else captured id rest to_raise to_return
  end.

(** The traces of the envelopes that answer [id] with an error. *)
Definition traces (id : Z) (q : list envelope) : list pyval :=
  omap (fun d => if answers id d && bool_decide (is_Some (d !! "error"))
                 then d !! "trace" else None) q.

Lemma traces_cons id d q :
  traces id (d :: q)
  = (if answers id d && bool_decide (is_Some (d !! "error"))
     then option_list (d !! "trace") else []) ++ traces id q.
Proof.
  unfold traces. simpl.
  destruct (answers id d && bool_decide (is_Some (d !! "error")));
    [|done].
  now destruct (d !! "trace").
Qed.

Section Facts.
Variable POLLING_DELAY_MS : Q.

(** ** With the worker alive and the queue there *)

Lemma is_alive_running depth rounds e :
  process e = Some true ->
  is_alive POLLING_DELAY_MS (S depth) rounds e = (Returned true, e).
Proof. intros H. cbn. run. now rewrite H. Qed.

Lemma check_get_queue_present depth rounds e q :
  _results e = Some q ->
  check_get_queue POLLING_DELAY_MS (S depth) rounds results e = (Returned q, e).
Proof. intros H. cbn. run. now rewrite H. Qed.

(** The loop over a batch of well-formed envelopes returns; it has put
    back, in order, the envelopes for other requests, logged the traces
    and touched nothing else. *)
Lemma sort_results_spec depth rounds id all :
  forall to_raise to_return e q0,
  _results e = Some q0 ->
  forallb (well_formed id) all = true ->
  sort_results POLLING_DELAY_MS (S depth) rounds id all to_raise to_return e
  = (Returned (captured id all to_raise to_return),
     set_logged (logged e ++ traces id all)
       (set_results (Some (q0 ++ others id all)) e)).
Proof.
  induction all as [|d rest IH]; intros to_raise to_return e q0 Hq Hwf.
  - cbn. run. unfold traces, others. cbn. rewrite !app_nil_r.
    destruct e. cbn in *. now subst.
  - cbn [forallb] in Hwf. apply andb_prop in Hwf as [Hd Hrest].
    rewrite others_cons, traces_cons. cbn [sort_results captured].
    unfold well_formed in Hd.
    destruct (answers id d) eqn:Ha; unfold answers in Ha.
    + apply bool_decide_eq_true_1 in Ha. rewrite Ha in Hd |- *.
      rewrite bool_decide_eq_true_2 in Hd |- * by done.
      destruct (d !! "error") as [[| |k]|] eqn:Herr; try done.
      * apply bool_decide_eq_true_1 in Hd as [message Hm].
        rewrite Hm. cbn [resolve]. run.
        rewrite bool_decide_eq_true_2 by eauto.
        destruct (d !! "trace") as [t|] eqn:Htr; cbn [option_list].
        -- rewrite (IH _ _ _ q0) by (try done; now destruct e).
           f_equal. destruct e. cbn in *. now rewrite <- app_assoc.
        -- rewrite (IH _ _ _ q0) by done. now rewrite app_nil_l.
      * apply bool_decide_eq_true_1 in Hd as [value Hv].
        rewrite Hv. rewrite bool_decide_eq_false_2 by (intros [? [=]]).
        rewrite app_nil_l.
        destruct (d !! "message"); now rewrite (IH _ _ _ q0).
    + apply bool_decide_eq_false_1 in Ha.
      destruct (d !! "id") as [found|] eqn:Hid; [|done].
      rewrite bool_decide_eq_false_2 by congruence.
      rewrite app_nil_l.
      run. rewrite (check_get_queue_present depth rounds e q0 Hq).
      rewrite (IH _ _ _ (q0 ++ [d])) by (try done; now destruct e).
      f_equal. destruct e. cbn in *. now rewrite <- app_assoc.
Qed.

(** One round of the loop of [wait], the worker alive: the queue is
    read, the envelopes for other requests are put back, and the two
    variables decide. *)
Lemma wait_poll_round depth rounds polls id timeout start delay e q :
  process e = Some true -> _results e = Some q ->
  forallb (well_formed id) q = true ->
  let e1 := set_logged (logged e ++ traces id q)
              (set_results (Some (others id q)) e) in
  wait_poll POLLING_DELAY_MS (S depth) rounds (S polls) id timeout start
    delay e
  = match captured id q None PNone with
    | (Some x, _) => (Raised x, e1)
    | (None, value) =>
        if negb (bool_decide (value = PNone)) then (Returned value, e1)
        else
          (sleep delay;;
           t ← now;
           if match timeout with
              | Some limit => negb (Qle_bool (t - start) limit)
              | None => false
              end
           then raise (TimeoutError "Timed out waiting for response.")
           else wait_poll POLLING_DELAY_MS (S depth) rounds polls id timeout
                  start delay) e1
    end.
Proof.
  intros Hp Hq Hwf. cbn zeta. cbn [wait_poll]. run.
  rewrite (is_alive_running depth rounds e Hp). cbn [negb].
  rewrite (check_get_queue_present depth rounds e q Hq).
  rewrite (sort_results_spec depth rounds id q None PNone
             (set_results (Some []) e) []) by (try done; now destruct e).
  assert (set_logged (logged (set_results (Some []) e) ++ traces id q)
            (set_results (Some ([] ++ others id q)) (set_results (Some []) e))
          = set_logged (logged e ++ traces id q)
              (set_results (Some (others id q)) e)) as ->
    by (now destruct e).
  destruct (captured id q None PNone) as [[x|] value]; [done|].
  destruct (negb (bool_decide (value = PNone))); done.
Qed.

(** ** Where the two variables come from *)

Lemma captured_raise id q : forall to_raise to_return x,
  (captured id q to_raise to_return).1 = Some x ->
  to_raise = Some x
  \/ exists d k message,
       d ∈ q /\ answers id d = true /\ d !! "error" = Some (PStr k)
       /\ d !! "message" = Some message /\ x = Remote k message.
Proof.
  induction q as [|d q IH]; intros to_raise to_return x H; [now left|].
  cbn [captured] in H.
  assert (Hrest : forall tr ret,
    (captured id q tr ret).1 = Some x -> tr = to_raise ->
    to_raise = Some x
    \/ exists d0 k message,
         d0 ∈ d :: q /\ answers id d0 = true /\ d0 !! "error" = Some (PStr k)
         /\ d0 !! "message" = Some message /\ x = Remote k message).
  { intros tr ret Hc ->. destruct (IH _ _ _ Hc) as [?|(d0 & k & msg & ? & ?)];
      [now left|right]. exists d0, k, msg. split; [now right|done]. }
  destruct (answers id d) eqn:Ha; [|eauto].
  destruct (d !! "error") as [[| |k]|] eqn:He; eauto.
  - destruct (d !! "message") as [msg|] eqn:Hm; eauto.
    destruct (IH _ _ _ H) as [[= <-]|(d0 & k0 & msg0 & ? & ?)]; right.
    + exists d, k, msg. split; [now left|done].
    + exists d0, k0, msg0. split; [now right|done].
  - destruct (d !! "result"); eauto.
Qed.


(** ** Over the rounds of [wait] *)

(** A worker that, during one sleep, stays alive and sends only
    envelopes that [wait] can read. *)
Definition calm (id : Z) (t : tick) : bool :=
  negb (dies t) && forallb (well_formed id) (arrivals t).


Lemma well_formed_others id q :
  forallb (well_formed id) q = true ->
  forallb (well_formed id) (others id q) = true.
Proof.
  rewrite !forallb_forall. intros H d Hd. apply H.
  apply list_elem_of_In. apply list_elem_of_In in Hd.
  unfold others in Hd. now apply list_elem_of_filter in Hd as [_ ?].
Qed.

Lemma elem_of_others id d q : d ∈ others id q -> d ∈ q.
Proof. unfold others. now intros [_ ?]%list_elem_of_filter. Qed.

Lemma sleep_calm d e t rest q :
  schedule e = t :: rest -> dies t = false ->
  process e = Some true -> _results e = Some q ->
  exists e', sleep d e = (Returned tt, e')
    /\ process e' = Some true /\ _results e' = Some (q ++ arrivals t)
    /\ schedule e' = rest.
Proof.
  intros Hs Hd Hp Hq. unfold sleep. run. destruct e. cbn in *. subst.
  rewrite Hd. cbn. eauto.
Qed.

Lemma sleep_idle d e q :
  schedule e = [] -> process e = Some true -> _results e = Some q ->
  exists e', sleep d e = (Returned tt, e')
    /\ process e' = Some true /\ _results e' = Some q /\ schedule e' = [].
Proof.
  intros Hs Hp Hq. unfold sleep. run. destruct e. cbn in *. subst.
  cbn. eauto.
Qed.


End Facts.
End EngineFacts.

(* ===================================================================== *)
(** * Part V. The claims                                                   *)
(* ===================================================================== *)

Module Claims.
Import Py PyFacts Manager KeyFacts.

(** ** Cache keys *)

(** The three key functions hash the same string. *)
Lemma keys_hash_key_string float_repr size lora lycoris inversion :
  get_unet_key float_repr size lora lycoris inversion
  = md5_hexdigest (key_string float_repr size lora lycoris inversion)
  /\ get_clip_key float_repr size lora lycoris inversion
     = md5_hexdigest (key_string float_repr size lora lycoris inversion)
  /\ get_controlled_unet_key float_repr size lora lycoris inversion
     = md5_hexdigest (key_string float_repr size lora lycoris inversion).
Proof. repeat split. Qed.

(** C2, as stated, fails on both halves. Two [lora] lists that are
    permutations of each other get different digests when a name occurs
    twice, the sort being by name only and stable; and two [inversion]
    lists that differ in one entry get the same digest when names contain
    the separator. *)
Lemma C2_counterexample :
  ([("a", PyInt 1); ("a", PyInt 2)] ≡ₚ [("a", PyInt 2); ("a", PyInt 1)]
   /\ forall float_repr,
        get_unet_key float_repr 512 [("a", PyInt 1); ("a", PyInt 2)] [] []
        <> get_unet_key float_repr 512 [("a", PyInt 2); ("a", PyInt 1)] [] []
        /\ get_clip_key float_repr 512 [("a", PyInt 1); ("a", PyInt 2)] [] []
           <> get_clip_key float_repr 512 [("a", PyInt 2); ("a", PyInt 1)] [] []
        /\ get_controlled_unet_key float_repr 512
             [("a", PyInt 1); ("a", PyInt 2)] [] []
           <> get_controlled_unet_key float_repr 512
                [("a", PyInt 2); ("a", PyInt 1)] [] [])
  /\ (<[0%nat := "q:p"]> ["p:q"; "p:q:p:q:p"] = ["q:p"; "p:q:p:q:p"]
      /\ ["p:q"; "p:q:p:q:p"] <> ["q:p"; "p:q:p:q:p"]
      /\ forall float_repr,
           get_unet_key float_repr 512 [] [] ["p:q"; "p:q:p:q:p"]
           = get_unet_key float_repr 512 [] [] ["q:p"; "p:q:p:q:p"]
           /\ get_clip_key float_repr 512 [] [] ["p:q"; "p:q:p:q:p"]
              = get_clip_key float_repr 512 [] [] ["q:p"; "p:q:p:q:p"]
           /\ get_controlled_unet_key float_repr 512 [] []
                ["p:q"; "p:q:p:q:p"]
              = get_controlled_unet_key float_repr 512 [] []
                  ["q:p"; "p:q:p:q:p"]).
Proof.
  split; [split|split; [|split]].
  - apply Permutation_swap.
  - intros float_repr. vm_compute. repeat split; discriminate.
  - reflexivity.
  - discriminate.
  - intros float_repr. vm_compute. repeat split.
Qed.

(** C2, amended. Lists that are permutations of each other, no name
    occurring twice in a [lora] or [lycoris] list, get the same digest
    from each of the three functions. Where no name and no printed
    strength contains one of the separators and no inversion name is
    empty, two calls whose sizes differ, or whose lists differ after
    sorting in a name or a printed strength, hash different strings. *)
Theorem C2_cache_keys float_repr (size size' : Z)
    (lora lora' lycoris lycoris' : list weight) (inv inv' : list string) :
  (lora ≡ₚ lora' -> NoDup lora.*1 ->
   lycoris ≡ₚ lycoris' -> NoDup lycoris.*1 ->
   inv ≡ₚ inv' ->
   get_unet_key float_repr size lora lycoris inv
   = get_unet_key float_repr size lora' lycoris' inv'
   /\ get_clip_key float_repr size lora lycoris inv
      = get_clip_key float_repr size lora' lycoris' inv'
   /\ get_controlled_unet_key float_repr size lora lycoris inv
      = get_controlled_unet_key float_repr size lora' lycoris' inv')
  /\ (clean_weights float_repr lora = true ->
      clean_weights float_repr lora' = true ->
      clean_weights float_repr lycoris = true ->
      clean_weights float_repr lycoris' = true ->
      clean_names inv = true -> clean_names inv' = true ->
      size <> size'
      \/ rendered float_repr (sorted fst lora)
         <> rendered float_repr (sorted fst lora')
      \/ rendered float_repr (sorted fst lycoris)
         <> rendered float_repr (sorted fst lycoris')
      \/ sorted id inv <> sorted id inv' ->
      key_string float_repr size lora lycoris inv
      <> key_string float_repr size' lora' lycoris' inv').
Proof.
  split.
  - intros Hl Hnl Hy Hny Hi.
    unfold get_unet_key, get_clip_key, get_controlled_unet_key.
    rewrite (sorted_perm_nodup fst lora lora' Hl Hnl),
      (sorted_perm_nodup fst lycoris lycoris' Hy Hny),
      (sorted_id_perm inv inv' Hi).
    done.
  - intros H1 H2 H3 H4 H5 H6 Hdiff E.
    destruct (key_string_inj float_repr _ _ _ _ _ _ _ _ H1 H2 H3 H4 H5 H6 E)
      as (? & ? & ? & ?).
    destruct Hdiff as [?|[?|[?|?]]]; done.
Qed.

(** The rendering of floats used where no float occurs. *)
Definition no_float : Q -> string := fun _ => "".

Lemma C2_cache_keys_witness :
  (get_unet_key no_float 512 [("b", PyInt 1); ("a", PyInt 2)] [] ["z"; "y"]
   = get_unet_key no_float 512 [("a", PyInt 2); ("b", PyInt 1)] [] ["y"; "z"]
   /\ get_clip_key no_float 512 [("b", PyInt 1); ("a", PyInt 2)] [] ["z"; "y"]
      = get_clip_key no_float 512 [("a", PyInt 2); ("b", PyInt 1)] []
          ["y"; "z"]
   /\ get_controlled_unet_key no_float 512
        [("b", PyInt 1); ("a", PyInt 2)] [] ["z"; "y"]
      = get_controlled_unet_key no_float 512
          [("a", PyInt 2); ("b", PyInt 1)] [] ["y"; "z"])
  /\ key_string no_float 512 [("a", PyInt 1)] [] ["z"]
     <> key_string no_float 512 [("a", PyInt 2)] [] ["z"].
Proof.
  split.
  - apply (C2_cache_keys no_float 512 512
             [("b", PyInt 1); ("a", PyInt 2)] [("a", PyInt 2); ("b", PyInt 1)]
             [] [] ["z"; "y"] ["y"; "z"]).
    + apply Permutation_swap.
    + apply NoDup_cons. split; [|apply NoDup_singleton].
      intros [=]%list_elem_of_singleton.
    + reflexivity.
    + constructor.
    + apply Permutation_swap.
  - apply (C2_cache_keys no_float 512 512
             [("a", PyInt 1)] [("a", PyInt 2)] [] [] ["z"] ["z"]);
      try reflexivity.
    right; left. vm_compute. discriminate.
Defined.

(** ** A sample installation *)

(** One image of 512 by 512 from the primary pipeline; a refiner that
    returns an image of the size it was asked for. *)
Definition sample_environment : environment :=
  {| float_repr := no_float;
     cfg_size := None; cfg_chunk_size := None; cfg_chunk_blur := None;
     cfg_safe := None;
     the_device := cuda; the_dtype := float16;
     engine_lora_dir := "/cache/lora";
     engine_lycoris_dir := "/cache/lycoris";
     controlnet := None;
     is_sdxl := false; refiner_is_sdxl := false; inpainter_is_sdxl := false;
     _refiner_size := None; _inpainter_size := None;
     refiner := None;
     refiner_strength := PyFloat (3 # 10);
     refiner_guidance_scale := PyFloat 5;
     refiner_aesthetic_score := PyFloat 6;
     refiner_negative_aesthetic_score := PyFloat (5 # 2);
     pipeline_switch_mode := Some "offload";
     tensorrt_is_supported := false;
     cfg_tensorrt := false;
     engine_exists := fun _ _ => false;
     construct_fails := fun _ => None;
     run_pipeline := fun _ _ =>
       inr (Result [Image 512 512 (generated 0)] None);
     run_refiner := fun _ im _ =>
       inr [Image (width im) (height im) (generated 1)] |}.

(** A manager just created: no attribute is set yet. *)
Definition fresh_manager : manager :=
  Manager None None None None None None None None None None None None
          None None None false 0 [].

Definition no_kwargs : kwargs :=
  Kwargs None None None None None None None None None None None 0.

(** A manager that holds the three pipelines, the base one on the
    device, the refiner offloaded. *)
Definition loaded_manager : manager :=
  Manager (Some (Pipe 0 Base cuda float16 512)) None
          (Some (Pipe 1 Refiner cpu float32 512)) (Some true)
          (Some (Pipe 2 Inpainter cuda float16 512)) (Some false)
          (Some 512) (Some 64) None None None None
          (Some true) (Some true) None false 3 [].

(** ** The pipelines' life cycle *)

(** C6. A manager that holds a constructed pipeline holds the same
    object after [offload_pipeline] and [reload_pipeline], on the
    manager's device and in its precision, not flagged as offloaded;
    nothing was built in between, and the [pipeline] property returns
    the held object without building. Likewise for the refiner and the
    inpainter. *)
Theorem C6_offload_reload_roundtrip (E : environment) (m : manager) :
  (forall p, _pipeline m = Some p ->
     let m' := (offload_pipeline;; reload_pipeline E) m in
     let p' := Pipe (pipe_id p) (pipe_variant p) (the_device E) (the_dtype E)
                    (engine_size p) in
     m'.1 = Returned tt
     /\ _pipeline m'.2 = Some p'
     /\ pipeline_is_offloaded m'.2 = false
     /\ built m'.2 = built m
     /\ pipeline E m'.2 = (Returned p', m'.2))
  /\ (forall p, _refiner_pipeline m = Some p ->
     let m' := (offload_refiner;; reload_refiner E) m in
     let p' := Pipe (pipe_id p) (pipe_variant p) (the_device E) (the_dtype E)
                    (engine_size p) in
     m'.1 = Returned tt
     /\ _refiner_pipeline m'.2 = Some p'
     /\ refiner_is_offloaded m'.2 = false
     /\ built m'.2 = built m
     /\ (forall name, refiner E = Some name -> name <> "" ->
         refiner_pipeline E m'.2 = (Returned p', m'.2)))
  /\ (forall p, _inpainter_pipeline m = Some p ->
     let m' := (offload_inpainter;; reload_inpainter E) m in
     let p' := Pipe (pipe_id p) (pipe_variant p) (the_device E) (the_dtype E)
                    (engine_size p) in
     m'.1 = Returned tt
     /\ _inpainter_pipeline m'.2 = Some p'
     /\ inpainter_is_offloaded m'.2 = false
     /\ built m'.2 = built m
     /\ inpainter_pipeline E m'.2 = (Returned p', m'.2)).
Proof.
  destruct m as [bp bo rp ro ip io ? ? ? ? ? ? ? ? ? ? ? ?].
  split; [|split]; intros p Hp; cbn in Hp; subst.
  - unfold offload_pipeline, reload_pipeline, pipeline, pipeline_is_offloaded.
    ManagerFacts.run. cbn.
    destruct bo as [[|]|]; cbn; repeat split.
  - unfold offload_refiner, reload_refiner, refiner_pipeline,
      refiner_is_offloaded.
    ManagerFacts.run. cbn.
    destruct ro as [[|]|]; cbn; repeat split;
      intros name -> Hname; destruct name; done.
  - unfold offload_inpainter, reload_inpainter, inpainter_pipeline,
      inpainter_is_offloaded.
    ManagerFacts.run. cbn.
    destruct io as [[|]|]; cbn; repeat split.
Qed.

Lemma C6_offload_reload_roundtrip_witness :
  _pipeline
    ((offload_pipeline;; reload_pipeline sample_environment) loaded_manager).2
  = Some (Pipe 0 Base cuda float16 512)
  /\ _refiner_pipeline
       ((offload_refiner;; reload_refiner sample_environment)
          loaded_manager).2
     = Some (Pipe 1 Refiner cuda float16 512)
  /\ _inpainter_pipeline
       ((offload_inpainter;; reload_inpainter sample_environment)
          loaded_manager).2
     = Some (Pipe 2 Inpainter cuda float16 512).
Proof.
  destruct (C6_offload_reload_roundtrip sample_environment loaded_manager)
    as (Hb & Hr & Hi).
  split; [|split].
  - apply (Hb (Pipe 0 Base cuda float16 512)). reflexivity.
  - apply (Hr (Pipe 1 Refiner cpu float32 512)). reflexivity.
  - apply (Hi (Pipe 2 Inpainter cuda float16 512)). reflexivity.
Defined.

(** ** Setters *)

(** What the [inversion] setter compares the current list with. *)
Definition inversion_of (a : inversion_arg) : list string :=
  match a with
  | inv_none => []
  | inv_name name => [name]
  | inv_list names => names
  end.

(** C7, as stated, fails for [size]: it takes part in every cache key,
    and assigning a different size to a manager without a compiled
    engine keeps the loaded pipeline, whose [engine_size] is set in
    place; the next access to [pipeline] builds nothing. *)
Lemma C7_counterexample :
  get_unet_key no_float 512 [] [] [] <> get_unet_key no_float 768 [] [] []
  /\ _size loaded_manager = Some 512
  /\ _pipeline loaded_manager = Some (Pipe 0 Base cuda float16 512)
  /\ (let after := (set_size_property sample_environment 768 loaded_manager).2
      in _size after = Some 768
         /\ _pipeline after = Some (Pipe 0 Base cuda float16 768)
         /\ built after = built loaded_manager
         /\ pipeline sample_environment after
            = (Returned (Pipe 0 Base cuda float16 768), after)).
Proof. vm_compute. repeat split. discriminate. Qed.

(** C7, amended. On a manager that holds a base pipeline: assigning
    [lora], [lycoris] or [inversion] a value that differs from the
    current list unloads the pipeline, and the next access builds a new
    one; assigning [size] a different value unloads the pipeline when a
    compiled engine is ready and otherwise keeps the object and sets its
    engine size in place; assigning [chunking_size] keeps the object as
    it is; and assigning a list equal to the current one, or the current
    size or chunking size, unloads nothing. *)
Theorem C7_setters (E : environment) (m : manager) (p : pipe) :
  _pipeline m = Some p ->
  (forall a,
     weights_eqb (lora m)
       (in_directory (engine_lora_dir E) (normalise_weights a)) = false ->
     let after := (set_lora_property E a m).2 in
     _pipeline after = None
     /\ (construct_fails E Base = None ->
         exists q m', pipeline E after = (Returned q, m')
                      /\ pipe_id q = built m /\ built m' = S (built m)))
  /\ (forall a,
     weights_eqb (lycoris m)
       (in_directory (engine_lycoris_dir E) (normalise_weights a)) = false ->
     let after := (set_lycoris_property E a m).2 in
     _pipeline after = None
     /\ (construct_fails E Base = None ->
         exists q m', pipeline E after = (Returned q, m')
                      /\ pipe_id q = built m /\ built m' = S (built m)))
  /\ (forall a,
     inversion m <> inversion_of a ->
     let after := (set_inversion_property a m).2 in
     _pipeline after = None
     /\ (construct_fails E Base = None ->
         exists q m', pipeline E after = (Returned q, m')
                      /\ pipe_id q = built m /\ built m' = S (built m)))
  /\ (forall cur new, _size m = Some cur -> new <> cur ->
     let after := (set_size_property E new m).2 in
     ((tensorrt_is_ready E m).1 = Returned true -> _pipeline after = None)
     /\ ((tensorrt_is_ready E m).1 = Returned false ->
         _pipeline after
         = Some (Pipe (pipe_id p) (pipe_variant p) (pipe_device p)
                   (pipe_dtype p) new)
         /\ built after = built m))
  /\ (forall z,
      let after := (set_chunking_size_property z m).2 in
      _pipeline after = Some p /\ built after = built m
      /\ _chunking_size after = Some z)
  /\ (forall a,
     weights_eqb (lora m)
       (in_directory (engine_lora_dir E) (normalise_weights a)) = true ->
     _pipeline (set_lora_property E a m).2 = Some p)
  /\ (forall a,
     weights_eqb (lycoris m)
       (in_directory (engine_lycoris_dir E) (normalise_weights a)) = true ->
     _pipeline (set_lycoris_property E a m).2 = Some p)
  /\ (forall a, inversion m = inversion_of a ->
      _pipeline (set_inversion_property a m).2 = Some p)
  /\ (forall cur, _size m = Some cur ->
      set_size_property E cur m = (Returned tt, m))
  /\ (forall z, _chunking_size m = Some z ->
      set_chunking_size_property z m = (Returned tt, m)).
Proof.
  intros Hp.
  assert (Hbuild : forall m1, _pipeline m1 = None -> built m1 = built m ->
    construct_fails E Base = None ->
    exists q m', pipeline E m1 = (Returned q, m')
                 /\ pipe_id q = built m /\ built m' = S (built m)).
  { intros m1 H1 Hb Hc.
    destruct (ManagerFacts.pipeline_builds E m1 H1 Hc) as (q & m' & ? & ? & ? & _).
    exists q, m'. rewrite <- Hb. auto. }
  destruct m as [bp bo rp ro ip io sz cs cb lo ly iv sf te ts ka bu tr].
  cbn in Hp. subst bp.
  repeat apply conj.
  - intros a Hne. unfold set_lora_property, lora in *. ManagerFacts.run.
    cbn in *. destruct a; cbn in *.
    + destruct lo as [[|x l]|]; try discriminate. cbn.
      split; [done|]. now apply Hbuild.
    + rewrite Hne. cbn. split; [done|]. now apply Hbuild.
    + rewrite Hne. cbn. split; [done|]. now apply Hbuild.
    + rewrite Hne. cbn. split; [done|]. now apply Hbuild.
  - intros a Hne. unfold set_lycoris_property, lycoris in *.
    ManagerFacts.run. cbn in *. destruct a; cbn in *.
    + destruct ly as [[|x l]|]; try discriminate. cbn.
      split; [done|]. now apply Hbuild.
    + rewrite Hne. cbn. split; [done|]. now apply Hbuild.
    + rewrite Hne. cbn. split; [done|]. now apply Hbuild.
    + rewrite Hne. cbn. split; [done|]. now apply Hbuild.
  - intros a Hne. unfold set_inversion_property, inversion in *.
    ManagerFacts.run. cbn in *. destruct a; cbn in *.
    + destruct iv as [[|x l]|]; try done. cbn.
      split; [done|]. now apply Hbuild.
    + rewrite bool_decide_eq_false_2 by done. cbn.
      split; [done|]. now apply Hbuild.
    + rewrite bool_decide_eq_false_2 by done. cbn.
      split; [done|]. now apply Hbuild.
  - intros cur new Hs Hne. cbn in Hs. subst sz.
    unfold set_size_property. ManagerFacts.run. cbn.
    assert ((cur =? new) = false) as -> by (apply Z.eqb_neq; congruence).
    cbn.
    edestruct (ManagerFacts.tensorrt_is_ready_cached E) as (b & ->);
      [reflexivity|].
    cbn. destruct b; cbn; split; intros [=]; done.
  - intros z. cbn. done.
  - intros a Heq. unfold set_lora_property, lora in *. ManagerFacts.run.
    cbn in *. destruct a; cbn in *.
    + now destruct lo as [[|x l]|].
    + now rewrite Heq.
    + now rewrite Heq.
    + now rewrite Heq.
  - intros a Heq. unfold set_lycoris_property, lycoris in *.
    ManagerFacts.run. cbn in *. destruct a; cbn in *.
    + now destruct ly as [[|x l]|].
    + now rewrite Heq.
    + now rewrite Heq.
    + now rewrite Heq.
  - intros a Heq. unfold set_inversion_property, inversion in *.
    ManagerFacts.run. cbn in *. destruct a; cbn in *.
    + now destruct iv as [[|x l]|].
    + now rewrite bool_decide_eq_true_2.
    + now rewrite bool_decide_eq_true_2.
  - intros cur Hs. cbn in Hs. subst sz.
    unfold set_size_property. ManagerFacts.run. cbn.
    now rewrite Z.eqb_refl.
  - intros z Hz. cbn in Hz. now subst cs.
Qed.

Lemma C7_setters_witness :
  _pipeline
    (set_lora_property sample_environment (arg_name "style.safetensors")
       loaded_manager).2 = None
  /\ _pipeline (set_chunking_size_property 128 loaded_manager).2
     = Some (Pipe 0 Base cuda float16 512)
  /\ set_size_property sample_environment 512 loaded_manager
     = (Returned tt, loaded_manager).
Proof.
  destruct (C7_setters sample_environment loaded_manager
              (Pipe 0 Base cuda float16 512) eq_refl)
    as (Hlora & _ & _ & _ & Hchunk & _ & _ & _ & Hsize & _).
  split; [|split].
  - apply (Hlora (arg_name "style.safetensors")). reflexivity.
  - apply (Hchunk 128).
  - apply (Hsize 512). reflexivity.
Defined.

(** ** The generation call *)

(** C5. Whatever the arguments and whatever the outcome of the call, an
    exception included, [tensorrt_is_enabled] is true when [__call__] has
    completed: the [finally] clause assigns it. *)
Theorem C5_tensorrt_flag_restored (E : environment)
    (a1 a2 a3 a4 : option number) (scale_to_refiner_size : bool)
    (kw : kwargs) (m : manager) :
  let after := (call E a1 a2 a3 a4 scale_to_refiner_size kw m).2 in
  _tensorrt_enabled after = Some true
  /\ tensorrt_is_enabled after = (Returned true, after).
Proof.
  cbn zeta. unfold call, start_keepalive, stop_keepalive, try_finally.
  ManagerFacts.run.
  destruct (call_body E a1 a2 a3 a4 scale_to_refiner_size kw
              (set_keepalive_thread true m)) as [o m1].
  destruct (ManagerFacts.set_tensorrt_is_enabled_spec E true m1)
    as (m2 & -> & Hflag).
  cbn. assert (_tensorrt_enabled (set_keepalive_thread false m2) = Some true)
    as Hafter by (now destruct m2).
  split; [exact Hafter|].
  unfold tensorrt_is_enabled. now rewrite Hafter.
Qed.

(** The sample installation with a refiner, its strength set to zero. *)
Definition zero_strength_environment : environment :=
  {| float_repr := no_float;
     cfg_size := None; cfg_chunk_size := None; cfg_chunk_blur := None;
     cfg_safe := None;
     the_device := cuda; the_dtype := float16;
     engine_lora_dir := "/cache/lora";
     engine_lycoris_dir := "/cache/lycoris";
     controlnet := None;
     is_sdxl := false; refiner_is_sdxl := false; inpainter_is_sdxl := false;
     _refiner_size := None; _inpainter_size := None;
     refiner := Some "/cache/checkpoint/refiner.safetensors";
     refiner_strength := PyFloat 0;
     refiner_guidance_scale := PyFloat 5;
     refiner_aesthetic_score := PyFloat 6;
     refiner_negative_aesthetic_score := PyFloat (5 # 2);
     pipeline_switch_mode := Some "offload";
     tensorrt_is_supported := false;
     cfg_tensorrt := false;
     engine_exists := fun _ _ => false;
     construct_fails := fun _ => None;
     run_pipeline := fun _ _ =>
       inr (Result [Image 512 512 (generated 0)] None);
     run_refiner := fun _ im _ =>
       inr [Image (width im) (height im) (generated 1)] |}.

(** C3, as stated, fails when the strength in effect is zero because the
    manager's own [refiner_strength] is zero and the call passes none:
    the refiner is built and run with [strength = 0], and what the call
    returns is the refiner's image, not the primary one. *)
Lemma C3_counterexample :
  let E := zero_strength_environment in
  let r := call E None None None None true no_kwargs fresh_manager in
  refiner E <> None
  /\ or_else None (refiner_strength E) = PyFloat 0
  /\ run_pipeline E (Pipe 0 Base cuda float16 512) no_kwargs
     = inr (Result [Image 512 512 (generated 0)] None)
  /\ r.1 = Returned (Result [Image 512 512 (generated 1)] None)
  /\ exists kw fr,
       trace r.2
       = [ Ran (Pipe 0 Base cuda float16 512) no_kwargs;
           Refining (Pipe 1 Refiner cuda float16 512)
             (Image 512 512 (generated 0)) kw fr ]
       /\ kw_strength kw = Some (PyFloat 0).
Proof.
  cbn zeta. split; [done|]. split; [reflexivity|]. split; [reflexivity|].
  split; [vm_compute; reflexivity|].
  eexists _, _. split; vm_compute; reflexivity.
Qed.

(** C3, amended. When the call passes a [refiner_strength] that is zero
    or negative, the refinement is skipped: the refiner pipeline is
    neither built nor moved, the only call made to the outside is the
    primary pipeline's run, and what that run returns is what the call
    returns. *)
Theorem C3_skips_refinement (E : environment) (x : number)
    (a2 a3 a4 : option number) (scale_to_refiner_size : bool)
    (kw : kwargs) (m : manager) :
  le_zero x = true ->
  let r := call E (Some x) a2 a3 a4 scale_to_refiner_size kw m in
  _refiner_pipeline r.2 = _refiner_pipeline m
  /\ _refiner_pipeline_is_offloaded r.2 = _refiner_pipeline_is_offloaded m
  /\ ((trace r.2 = trace m /\ exists e, r.1 = Raised e)
      \/ exists pipe,
           trace r.2 = trace m ++ [Ran pipe kw]
           /\ r.1 = match run_pipeline E pipe kw with
                    | inr res => Returned res
                    | inl e => Raised e
                    end).
Proof.
  intros Hx. cbn zeta. unfold call, try_finally, start_keepalive.
  ManagerFacts.run.
  pose proof (ManagerFacts.call_body_skips E x a2 a3 a4 scale_to_refiner_size
                kw (set_keepalive_thread true m) Hx) as Hbody.
  unfold ManagerFacts.wp in Hbody.
  destruct (call_body E (Some x) a2 a3 a4 scale_to_refiner_size kw
              (set_keepalive_thread true m)) as [o m1].
  cbn [fst snd] in Hbody.
  pose proof (ManagerFacts.quiet_bind _ _
                (ManagerFacts.quiet_set_tensorrt_is_enabled E true)
                (fun _ => ManagerFacts.quiet_stop_keepalive) m1) as Hfinal.
  unfold stop_keepalive in *. ManagerFacts.run.
  destruct (ManagerFacts.set_tensorrt_is_enabled_spec E true m1)
    as (m2 & Hm2 & _).
  rewrite Hm2 in *. cbn in *.
  assert (ManagerFacts.kept m (set_keepalive_thread true m)) as K0
    by (now destruct m).
  destruct (ManagerFacts.only_primary_kept E kw _ _ _ _ Hbody Hfinal)
    as (H1 & H2 & H3).
  destruct K0 as (Kt & Kr & Ko). rewrite Kt, Kr, Ko in *. auto.
Qed.

Lemma C3_skips_refinement_witness :
  (call zero_strength_environment (Some (PyInt 0)) None None None true
     no_kwargs fresh_manager).1
  = Returned (Result [Image 512 512 (generated 0)] None).
Proof.
  destruct (C3_skips_refinement zero_strength_environment (PyInt 0)
              None None None true no_kwargs fresh_manager eq_refl)
    as (_ & _ & [[_ [e He]]|[pipe [_ Hr]]]).
  - vm_compute in He. discriminate He.
  - rewrite Hr. reflexivity.
Defined.

(** ** The refinement pass *)

(** An installation whose refiner works at 1024 pixels and whose primary
    pipeline returns two images of 256 by 256. *)
Definition small_image_environment : environment :=
  {| float_repr := no_float;
     cfg_size := None; cfg_chunk_size := None; cfg_chunk_blur := None;
     cfg_safe := None;
     the_device := cuda; the_dtype := float16;
     engine_lora_dir := "/cache/lora";
     engine_lycoris_dir := "/cache/lycoris";
     controlnet := None;
     is_sdxl := false; refiner_is_sdxl := true; inpainter_is_sdxl := false;
     _refiner_size := Some 1024; _inpainter_size := None;
     refiner := Some "/cache/checkpoint/refiner.safetensors";
     refiner_strength := PyFloat (3 # 10);
     refiner_guidance_scale := PyFloat 5;
     refiner_aesthetic_score := PyFloat 6;
     refiner_negative_aesthetic_score := PyFloat (5 # 2);
     pipeline_switch_mode := Some "offload";
     tensorrt_is_supported := false;
     cfg_tensorrt := false;
     engine_exists := fun _ _ => false;
     construct_fails := fun _ => None;
     run_pipeline := fun _ _ =>
       inr (Result [Image 256 256 (generated 0); Image 256 256 (generated 1)]
              None);
     run_refiner := fun _ im _ =>
       inr [Image (width im) (height im) (generated 2)] |}.

(** The image at index [i] is not flagged. *)
Definition not_flagged (nsfw : option (list bool)) (i : nat) : bool :=
  match nsfw with
  | None => true
  | Some flags =>
      match flags !! i with
      | Some false => true
      | _ => false
      end
  end.

(** C9, as stated, fails for a call that passes
    [scale_to_refiner_size=False]: an image of 256 by 256 goes to a
    refiner of size 1024 as it is, and no width or height is passed. *)
Lemma C9_counterexample :
  let E := small_image_environment in
  let r := call E None None None None false no_kwargs fresh_manager in
  (refiner_size E fresh_manager).1 = Returned 1024
  /\ exists p kw fr rest,
       trace r.2
       = Ran (Pipe 0 Base cuda float16 512) no_kwargs
         :: Refining p (Image 256 256 (generated 0)) kw fr :: rest
       /\ kw_width kw = None /\ kw_height kw = None.
Proof.
  cbn zeta. split; [reflexivity|].
  eexists _, _, _, _. split; [vm_compute; reflexivity|]. done.
Qed.

(** An image that is not flagged is refined as if no flags had been
    returned. *)
Lemma refine_image_not_flagged (E : environment) a1 a2 a3 a4 scale nsfw i
    im st m :
  not_flagged nsfw i = true ->
  refine_image E a1 a2 a3 a4 scale nsfw i im st m
  = refine_image E a1 a2 a3 a4 scale None i im st m.
Proof.
  unfold not_flagged, refine_image. ManagerFacts.run.
  destruct nsfw as [flags|]; [|done].
  now destruct (flags !! i) as [[|]|].
Qed.

(** C9, amended. With [scale_to_refiner_size] true, for an image that is
    not flagged, of positive width and height, one of them below the
    refiner size, and a refiner that can be built and returns an image:
    the scale is the refiner size over the smaller side; the image handed
    to the refiner, and the [width] and [height] passed with it, are that
    scale applied to the sides and rounded to a nearest multiple of 8;
    the refined image is resized to the original width and height and
    stored at the image's index. A caller's latent callback of type
    ["pil"] is replaced by [resize_callback], which hands the images,
    resized to the original width and height, to the caller's
    callback. *)
Theorem C9_refinement_upscales (E : environment)
    (a1 a2 a3 a4 : option number) (nsfw : option (list bool)) (i : nat)
    (im : image) (st : loop_state) (m : manager) (name : string) (rs : Z) :
  0 < width im -> 0 < height im ->
  not_flagged nsfw i = true ->
  refiner E = Some name -> name <> "" ->
  construct_fails E Refiner = None ->
  (forall p im' kw, exists r rest, run_refiner E p im' kw = inr (r :: rest)) ->
  (refiner_size E m).1 = Returned rs ->
  width im < rs \/ height im < rs ->
  exists (scale : Q) (nw nh : Z) p kw' fr' refined rest m',
    refine_image E a1 a2 a3 a4 true nsfw i im st m
    = (Returned (Loop kw' fr'
                   (<[i := resize refined (width im) (height im)]>
                      (l_images st))), m')
    /\ (scale == inject_Z rs / inject_Z (Z.min (width im) (height im)))%Q
    /\ nw mod 8 = 0 /\ nh mod 8 = 0
    /\ (inject_Z nw - inject_Z (width im) * scale <= 4)%Q
    /\ (inject_Z (width im) * scale - inject_Z nw <= 4)%Q
    /\ (inject_Z nh - inject_Z (height im) * scale <= 4)%Q
    /\ (inject_Z (height im) * scale - inject_Z nh <= 4)%Q
    /\ trace m' = trace m ++ [Refining p (resize im nw nh) kw' fr']
    /\ run_refiner E p (resize im nw nh) kw' = inr (refined :: rest)
    /\ kw_width kw' = Some nw /\ kw_height kw' = Some nh
    /\ (forall n,
          kw_latent_callback (l_kwargs st) = Some (Some (user_callback n)) ->
          default "pil" (kw_latent_callback_type (l_kwargs st)) = "pil" ->
          kw_latent_callback kw' = Some (Some resize_callback)
          /\ forall limit ims,
               invoke (S limit) fr' resize_callback ims
               = Returned (n, map (fun x => resize x (width im) (height im))
                                  ims)).
Proof.
  intros Hw Hh Hflag Href Hname Hbuild Hrun Hrs Hlt.
  destruct (RoundFacts.image_scale_spec rs (width im) (height im) Hw Hh Hlt)
    as [Hscale Hne].
  set (scale_w := if width im <? rs
                  then (inject_Z rs / inject_Z (width im))%Q else 1%Q) in *.
  set (scale := if height im <? rs
                then py_max scale_w (inject_Z rs / inject_Z (height im))%Q
                else scale_w) in *.
  destruct (RoundFacts.nearest_multiple_of_8 (inject_Z (width im) * scale))
    as (Hw8 & Hw1 & Hw2).
  destruct (RoundFacts.nearest_multiple_of_8 (inject_Z (height im) * scale))
    as (Hh8 & Hh1 & Hh2).
  set (nw := 8 * py_round (inject_Z (width im) * scale / 8)) in *.
  set (nh := 8 * py_round (inject_Z (height im) * scale / 8)) in *.
  exists scale, nw, nh.
  rewrite (refine_image_not_flagged E a1 a2 a3 a4 true nsfw i im st m Hflag).
  unfold refine_image. ManagerFacts.run.
  destruct (ManagerFacts.reads_refiner_size E m) as (rs' & m1 & Hsz & K1).
  rewrite Hsz in Hrs |- *. cbn in Hrs. injection Hrs as ->.
  assert (((width im <? rs) || (height im <? rs)) && true = true) as ->.
  { rewrite andb_true_r. apply orb_true_iff.
    destruct Hlt; [left|right]; now apply Z.ltb_lt. }
  assert ((width im =? 0) = false) as -> by (apply Z.eqb_neq; lia).
  assert ((height im =? 0) = false) as -> by (apply Z.eqb_neq; lia).
  rewrite !andb_false_r. cbn [orb].
  fold scale_w. fold scale. fold nw. fold nh.
  clearbody nw nh scale. clear scale_w.
  assert (trace m1 = trace m) as Ht
    by (unfold ManagerFacts.held in K1; congruence).
  unfold stop_keepalive. ManagerFacts.run.
  destruct (ManagerFacts.refiner_pipeline_returns E
              (set_keepalive_thread false m1) name Href Hname Hbuild)
    as (p & m2 & Hp & Ht2).
  assert (trace m2 = trace m) as Ht3.
  { rewrite Ht2, <- Ht. now destruct m1. }
  assert (Htr : forall ev, trace (set_trace (trace m2 ++ [ev]) m2)
                           = trace m ++ [ev]).
  { intros ev. rewrite <- Ht3. now destruct m2. }
  exists p.
  destruct (kw_latent_callback (l_kwargs st)) as [held|] eqn:Hcb;
    [destruct (String.eqb (default "pil"
                 (kw_latent_callback_type (l_kwargs st))) "pil") eqn:Hty|];
    cbn; rewrite ?Hcb, ?Hty; cbn; rewrite Hp; cbn;
    match goal with
    | |- context [run_refiner E ?a ?b ?c] =>
        destruct (Hrun a b c) as (refined & rest & Hr); rewrite Hr
    end;
    rewrite Hne; cbn;
    eexists _, _; exists refined, rest; eexists;
    (split; [reflexivity|]);
    split_and!; try done; try apply Htr.
  - intros n [= ->] _. split; [done|]. intros limit ims. cbn. now destruct limit.
  - intros n _ Hpil. rewrite Hpil in Hty. discriminate Hty.
Qed.

(** A call's keyword arguments with a caller's latent callback. *)
Definition callback_kwargs : kwargs :=
  Kwargs None None None None None (Some (Some (user_callback 7))) None
         None None None None 0.

Lemma C9_refinement_upscales_witness :
  exists st' m',
    refine_image small_image_environment None None None None true None 0
      (Image 256 256 (generated 0))
      (Loop callback_kwargs (Frame None 0 0)
         [Image 256 256 (generated 0); Image 256 256 (generated 1)])
      fresh_manager
    = (Returned st', m').
Proof.
  destruct (C9_refinement_upscales small_image_environment
              None None None None None 0%nat (Image 256 256 (generated 0))
              (Loop callback_kwargs (Frame None 0 0)
                 [Image 256 256 (generated 0); Image 256 256 (generated 1)])
              fresh_manager "/cache/checkpoint/refiner.safetensors" 1024)
    as (scale & nw & nh & p & kw' & fr' & refined & rest & m' & Heq & _).
  - cbn. lia.
  - cbn. lia.
  - reflexivity.
  - reflexivity.
  - discriminate.
  - reflexivity.
  - intros p im' kw. eexists _, _. reflexivity.
  - reflexivity.
  - cbn. lia.
  - eexists _, _. exact Heq.
Defined.

(** What the amended C9 leaves out. [resize_callback] reads the
    variable [original_callback] when it runs, and the pass over a second
    upscaled image assigns the first pass's [resize_callback] to it: from
    then on the closure calls itself, whatever the recursion limit. *)
Lemma resize_callback_of_later_image_recurses :
  let E := small_image_environment in
  let r := call E None None None None true callback_kwargs fresh_manager in
  exists p1 im1 kw1 fr1 p2 im2 kw2 fr2,
    trace r.2
    = [ Ran (Pipe 0 Base cuda float16 512) callback_kwargs;
        Called (user_callback 7) (images (Result
          [Image 256 256 (generated 0); Image 256 256 (generated 1)] None));
        Refining p1 im1 kw1 fr1;
        Refining p2 im2 kw2 fr2 ]
    /\ (forall ims, invoke 1000 fr1 resize_callback ims
                    = Returned (7%nat, map (fun x => resize x 256 256) ims))
    /\ kw_latent_callback kw2 = Some (Some resize_callback)
    /\ forall limit ims, invoke limit fr2 resize_callback ims
                         = Raised RecursionError.
Proof.
  cbn zeta. eexists _, _, _, _, _, _, _, _.
  split; [vm_compute; reflexivity|].
  split; [intros ims; reflexivity|].
  split; [reflexivity|].
  intros limit. induction limit as [|limit IH]; intros ims; [done|].
  cbn. apply IH.
Qed.

End Claims.

(* ===================================================================== *)
(** * Part VI. Further properties of the two files                         *)
(* ===================================================================== *)

Module EngineProperties.
Import Engine EngineFacts.

(** An envelope that carries a result, and one that carries an error. *)
Definition reply (id : Z) (value : pyval) : envelope :=
  {[ "id" := PInt id; "result" := value ]}.

Definition failure (id : Z) (kind message : string) : envelope :=
  {[ "id" := PInt id; "error" := PStr kind; "message" := PStr message ]}.

(** A controller whose worker runs, with [q] on the results queue and
    three requests sent so far. *)
Definition running_engine (q : list envelope) (sch : list tick) : engine :=
  Engine (Some true) (Some []) (Some q) (Some []) 3 0 sch [] [].



(** ** After the worker has exited *)

(** The controller without its process handle and its three queues. *)
Definition torn_down (e : engine) : engine :=
  set_instructions None
    (set_results None (set_intermediates None (set_process None e))).

Section Supervision.
Variable POLLING_DELAY_MS : Q.

Lemma terminate_process_dead depth rounds timeout e :
  process e = Some false ->
  terminate_process POLLING_DELAY_MS (S (S (S depth))) rounds timeout e
  = (Returned tt, torn_down e).
Proof.
  intros Hp. destruct e as [p ins res mid rq ck sch sg lg].
  cbn in Hp. subst p. unfold torn_down.
  destruct ins, res, mid; reflexivity.
Qed.

Lemma is_alive_dead depth rounds e :
  process e = Some false ->
  is_alive POLLING_DELAY_MS (S (S (S (S depth)))) rounds e
  = (Returned false, torn_down e).
Proof.
  intros Hp. cbn [is_alive]. run. rewrite Hp. cbn [negb].
  now rewrite (terminate_process_dead depth rounds (Some 10%Q) e Hp).
Qed.

End Supervision.

(** X2. [wait] looks at the worker before it looks at the results
    queue: when the worker has exited, [wait] raises [IOError] at once,
    whatever is on the queue, and the handle and the three queues are
    gone afterwards. A reply that the worker sent before it exited is
    not returned. *)
Theorem X2_wait_raises_when_worker_exited (POLLING_DELAY_MS : Q)
    (depth rounds polls : nat) (id : Z) (timeout : option Q) (e : engine) :
  process e = Some false ->
  let r := wait POLLING_DELAY_MS (S (S (S (S depth)))) rounds (S polls) id
             timeout e in
  r.1 = Raised (IOError "Process died while waiting for result.")
  /\ process r.2 = None
  /\ _instructions r.2 = None /\ _results r.2 = None
  /\ _intermediates r.2 = None
  /\ sigterms r.2 = sigterms e /\ clock r.2 = clock e.
Proof.
  intros Hp. cbn zeta. unfold wait. cbn [wait_poll]. run.
  rewrite (is_alive_dead POLLING_DELAY_MS depth rounds e Hp). cbn.
  destruct e. cbn in *. done.
Qed.

Lemma X2_wait_raises_when_worker_exited_witness :
  let e := Engine (Some false) (Some []) (Some [reply 2 (PStr "b")])
                  (Some []) 3 0 [] [] [] in
  (wait 500 4 1 1 2 None e).1
  = Raised (IOError "Process died while waiting for result.")
  /\ _results (wait 500 4 1 1 2 None e).2 = None.
Proof.
  cbn zeta.
  destruct (X2_wait_raises_when_worker_exited 500 0 1 0 2 None
              (Engine (Some false) (Some []) (Some [reply 2 (PStr "b")])
                 (Some []) 3 0 [] [] []) eq_refl)
    as (H1 & _ & _ & H2 & _).
  split; [exact H1|exact H2].
Defined.

(** X3. [terminate_process] on a controller that never started a
    worker returns and changes nothing. On a controller whose worker has
    exited it sends no signal and no "stop", lets no time pass, drops the
    handle and the three queues, and a second call then changes
    nothing. *)
Theorem X3_terminate_process_twice (POLLING_DELAY_MS : Q)
    (depth rounds : nat) (timeout timeout' : option Q) (e : engine) :
  (process e = None ->
   terminate_process POLLING_DELAY_MS (S depth) rounds timeout e
   = (Returned tt, e))
  /\ (process e = Some false ->
      let r := terminate_process POLLING_DELAY_MS (S (S (S depth))) rounds
                 timeout e in
      r.1 = Returned tt
      /\ process r.2 = None
      /\ _instructions r.2 = None /\ _results r.2 = None
      /\ _intermediates r.2 = None
      /\ sigterms r.2 = sigterms e /\ request r.2 = request e
      /\ clock r.2 = clock e
      /\ terminate_process POLLING_DELAY_MS (S depth) rounds timeout' r.2
         = (Returned tt, r.2)).
Proof.
  split.
  - intros Hp. cbn [terminate_process]. run. now rewrite Hp.
  - intros Hp. cbn zeta.
    rewrite (terminate_process_dead POLLING_DELAY_MS depth rounds timeout e Hp).
    destruct e. cbn in *. done.
Qed.

Lemma X3_terminate_process_twice_witness :
  terminate_process 500 1 1 (Some 10%Q)
    (Engine None (Some []) None None 0 0 [] [] [])
  = (Returned tt, Engine None (Some []) None None 0 0 [] [] [])
  /\ process
       (terminate_process 500 3 1 (Some 10%Q)
          (Engine (Some false) (Some []) (Some []) (Some []) 3 0 [] [] [])).2
     = None.
Proof.
  split.
  - apply (proj1 (X3_terminate_process_twice 500 0 1 (Some 10%Q) None
                    (Engine None (Some []) None None 0 0 [] [] []))).
    reflexivity.
  - apply (proj2 (X3_terminate_process_twice 500 0 1 (Some 10%Q) None
                    (Engine (Some false) (Some []) (Some []) (Some []) 3 0
                       [] [] []))).
    reflexivity.
Defined.

(** ** Signals are only ever added *)

Definition extends (e e' : engine) : Prop :=
  exists later, sigterms e' = sigterms e ++ later.

Lemma extends_refl e : extends e e.
Proof. exists []. now rewrite app_nil_r. Qed.

Lemma extends_trans e1 e2 e3 : extends e1 e2 -> extends e2 e3 -> extends e1 e3.
Proof.
  intros [l1 H1] [l2 H2]. exists (l1 ++ l2). now rewrite H2, H1, app_assoc.
Qed.

Definition grows {A} (c : M A) : Prop := forall e, extends e (c e).2.

Lemma grows_ret {A} (a : A) : grows (mret a).
Proof. intros e. apply extends_refl. Qed.

Lemma grows_raise {A} x : grows (@raise A x).
Proof. intros e. apply extends_refl. Qed.

Lemma grows_unfinished {A} : grows (@unfinished A).
Proof. intros e. apply extends_refl. Qed.

Lemma grows_get : grows get.
Proof. intros e. apply extends_refl. Qed.

Lemma grows_now : grows now.
Proof. intros e. apply extends_refl. Qed.

Lemma grows_bind {A B} (c : M A) (k : A -> M B) :
  grows c -> (forall a, grows (k a)) -> grows (c ≫= k).
Proof.
  intros Hc Hk e. run. specialize (Hc e).
  destruct (c e) as [[a|x|] e1]; cbn in *; [|done..].
  eapply extends_trans; [exact Hc|apply Hk].
Qed.

Lemma grows_modify (f : engine -> engine) :
  (forall e, sigterms (f e) = sigterms e) -> grows (modify f).
Proof. intros Hf e. exists []. cbn. now rewrite Hf, app_nil_r. Qed.

Lemma grows_sleep d : grows (sleep d).
Proof.
  apply grows_modify. intros e. destruct e as [p i r m rq ck sch sg lg].
  cbn. destruct sch as [|t rest]; [done|].
  cbn. now destruct (dies t), p, r.
Qed.

Lemma grows_process_terminate : grows process_terminate.
Proof. intros e. exists [clock e]. now destruct e. Qed.

Lemma grows_on_exception {A} (body : M A) handler :
  grows body -> grows handler -> grows (on_exception body handler).
Proof.
  intros Hb Hh e. unfold on_exception. specialize (Hb e).
  destruct (body e) as [[a|x|] e1]; cbn in *; try done.
  specialize (Hh e1). destruct (handler e1) as [[u|y|] e2]; cbn in *;
    eauto using extends_trans.
Qed.

Ltac grows_step :=
  first
    [ apply grows_ret | apply grows_raise | apply grows_unfinished
    | apply grows_get | apply grows_now | apply grows_sleep
    | apply grows_process_terminate
    | apply grows_modify; intros [? ? ? ? ? ? ? ? ?];
      try match goal with q : queue_name |- _ => destruct q end; reflexivity
    | apply grows_bind; [|intros ?]
    | apply grows_on_exception
    | case_match ].

Section Growth.
Variable POLLING_DELAY_MS : Q.

Lemma grows_terminate_poll rounds : forall start timeout sleep_time,
  grows (terminate_poll rounds start timeout sleep_time).
Proof.
  induction rounds as [|rounds IH]; intros start timeout sleep_time;
    cbn [terminate_poll]; repeat first [apply IH | grows_step].
Qed.

Lemma grows_supervision depth : forall rounds,
  grows (is_alive POLLING_DELAY_MS depth rounds)
  /\ (forall q, grows (check_get_queue POLLING_DELAY_MS depth rounds q))
  /\ (forall q, grows (check_delete_queue POLLING_DELAY_MS depth rounds q))
  /\ (forall f, grows (spawn_process POLLING_DELAY_MS depth rounds f))
  /\ (forall a p s, grows (dispatch POLLING_DELAY_MS depth rounds a p s))
  /\ (forall t, grows (terminate_process POLLING_DELAY_MS depth rounds t)).
Proof.
  induction depth as [|depth IH]; intros rounds.
  { cbn. split_and!; intros; apply grows_raise. }
  destruct (IH rounds) as (Ha & Hg & Hd & Hs & Hp & Ht).
  split_and!; intros;
    [ cbn [is_alive] | cbn [check_get_queue] | cbn [check_delete_queue]
    | cbn [spawn_process] | cbn [dispatch] | cbn [terminate_process] ];
    repeat first
      [ apply Ha | apply Hg | apply Hd | apply Hs | apply Hp | apply Ht
      | apply grows_terminate_poll | grows_step ].
Qed.

End Growth.

Lemma bind_get {B} (k : engine -> M B) e : (get ≫= k) e = k e e.
Proof. reflexivity. Qed.

Lemma bind_returned {A B} (c : M A) (k : A -> M B) e a e1 :
  c e = (Returned a, e1) -> (c ≫= k) e = k a e1.
Proof. intros Hc. run. now rewrite Hc. Qed.

Lemma Qle_bool_after_pause (start pause limit : Q) :
  (pause < limit)%Q -> Qle_bool limit (start + pause - start) = false.
Proof.
  intros H. destruct (Qle_bool limit (start + pause - start)) eqn:E; [|done].
  apply Qle_bool_iff in E. lra.
Qed.

(** X4. [terminate_process] with the worker running and a timeout
    longer than one polling pause: when the worker is still alive after
    the first pause that follows the "stop" request, SIGTERM is sent
    then, one pause after the call and before the timeout has passed. *)
Theorem X4_sigterm_after_first_pause (POLLING_DELAY_MS : Q)
    (depth rounds : nat) (limit : Q) (e : engine) (ins : list envelope)
    (t : tick) (rest : list tick) :
  process e = Some true -> _instructions e = Some ins ->
  schedule e = t :: rest -> dies t = false ->
  (POLLING_DELAY_MS / 500 < limit)%Q ->
  let r := terminate_process POLLING_DELAY_MS (S (S (S depth))) (S rounds)
             (Some limit) e in
  exists later,
    sigterms r.2 = sigterms e ++ (clock e + POLLING_DELAY_MS / 500)%Q :: later.
Proof.
  intros Hp Hi Hs Hd Hlt. cbn zeta.
  cbn [terminate_process]. rewrite bind_get, Hp.
  assert (process_alive e = true) as -> by (unfold process_alive; now rewrite Hp).
  set (pause := (POLLING_DELAY_MS / 500)%Q) in *.
  pose proof (Qle_bool_after_pause (clock e) pause limit Hlt) as Hq.
  match goal with |- context [ (?c ≫= ?k) e ] =>
    assert (exists e1, c e = (Returned tt, e1)
              /\ exists later,
                   sigterms e1 = sigterms e ++ (clock e + pause)%Q :: later)
      as (e1 & Hc & later & He1);
    [|rewrite (bind_returned c k e tt e1 Hc);
      assert (grows (k tt)) as Hk]
  end.
  - destruct e as [p i r m rq ck sch sg lg]. cbn in Hp, Hi, Hs, Hq |- *.
    subst p i sch. run. cbn. rewrite Hd. cbn. rewrite Hq. cbn [negb].
    match goal with |- context [ sleep pause ?e0 ] =>
      destruct (grows_sleep pause e0) as [later Hl];
      exists (sleep pause e0).2; split; [reflexivity|]
    end.
    exists later. rewrite Hl. cbn. now rewrite <- app_assoc.
  - destruct (grows_supervision POLLING_DELAY_MS (S (S depth)) (S rounds))
      as (_ & _ & Hdel & _).
    repeat first [apply Hdel | grows_step].
  - destruct (Hk e1) as [more Hmore]. exists (later ++ more).
    rewrite Hmore, He1. now rewrite <- app_assoc.
Qed.

Lemma X4_sigterm_after_first_pause_witness :
  exists later,
    sigterms
      (terminate_process 500 3 1 (Some 10%Q)
         (Engine (Some true) (Some []) (Some []) (Some []) 0 0
            [Tick false []; Tick true []] [] [])).2
    = (0 + 500 / 500)%Q :: later.
Proof.
  destruct (X4_sigterm_after_first_pause 500 0 0 10
              (Engine (Some true) (Some []) (Some []) (Some []) 0 0
                 [Tick false []; Tick true []] [] [])
              [] (Tick false []) [Tick true []]
              eq_refl eq_refl eq_refl eq_refl eq_refl) as [later H].
  exists later. exact H.
Defined.


Lemma bind_unfinished {A B} (c : M A) (k : A -> M B) e e1 :
  c e = (Unfinished, e1) -> (c ≫= k) e = (Unfinished, e1).
Proof. intros Hc. run. now rewrite Hc. Qed.


(** ** Sending a request *)

(** The envelope that [dispatch] builds. *)
Definition request_envelope (id : Z) (action : string) (payload : pyval)
    : envelope :=
  {[ "id" := PInt id; "action" := PStr action; "payload" := payload ]}.

Section Requests.
Variable POLLING_DELAY_MS : Q.

Lemma dispatch_running depth rounds action payload spawn e ins :
  process e = Some true -> _instructions e = Some ins ->
  dispatch POLLING_DELAY_MS (S (S depth)) rounds action payload spawn e
  = (Returned (request e + 1),
     set_instructions
       (Some (ins ++ [request_envelope (request e + 1) action payload]))
       (set_request (request e + 1) e)).
Proof.
  intros Hp Hi. destruct e as [p i r m rq ck sch sg lg]. cbn in Hp, Hi.
  subst p i. now destruct spawn.
Qed.

End Requests.

(** X6. [dispatch] to a running worker numbers the requests: two
    calls in a row return the next two numbers after [request], and the
    instructions queue ends with the two envelopes in the order of the
    calls, each carrying the number returned for it. No time passes and
    the results queue is not touched. *)
Theorem X6_dispatch_numbers_requests (POLLING_DELAY_MS : Q)
    (depth rounds : nat) (a1 a2 : string) (p1 p2 : pyval) (s1 s2 : bool)
    (e : engine) (ins : list envelope) :
  process e = Some true -> _instructions e = Some ins ->
  let r1 := dispatch POLLING_DELAY_MS (S (S depth)) rounds a1 p1 s1 e in
  let r2 := dispatch POLLING_DELAY_MS (S (S depth)) rounds a2 p2 s2 r1.2 in
  r1.1 = Returned (request e + 1)
  /\ r2.1 = Returned (request e + 2)
  /\ _instructions r2.2
     = Some (ins ++ [request_envelope (request e + 1) a1 p1;
                     request_envelope (request e + 2) a2 p2])
  /\ request r2.2 = request e + 2
  /\ clock r2.2 = clock e /\ schedule r2.2 = schedule e
  /\ _results r2.2 = _results e /\ sigterms r2.2 = sigterms e.
Proof.
  intros Hp Hi. cbn zeta.
  rewrite (dispatch_running POLLING_DELAY_MS depth rounds a1 p1 s1 e ins Hp Hi).
  cbn [fst snd].
  rewrite (dispatch_running POLLING_DELAY_MS depth rounds a2 p2 s2 _
             (ins ++ [request_envelope (request e + 1) a1 p1]))
    by (now destruct e).
  destruct e as [p i r m rq ck sch sg lg]. cbn.
  replace (rq + 1 + 1) with (rq + 2) by lia.
  now rewrite <- app_assoc.
Qed.

Lemma X6_dispatch_numbers_requests_witness :
  let e := running_engine [] [] in
  (dispatch 500 2 1 "plan" (PStr "x") true
     (dispatch 500 2 1 "ping" PNone true e).2).1 = Returned 5.
Proof.
  cbn zeta.
  apply (X6_dispatch_numbers_requests 500 0 1 "ping" "plan" PNone (PStr "x")
           true true (running_engine [] []) []); reflexivity.
Defined.

(** ** Starting the worker *)

(** [spawn_process] can start a worker: none is alive, and when the
    handle of an exited worker is still there, so are the three
    queues. *)
Definition startable (e : engine) : bool :=
  match process e with
  | None => true
  | Some true => false
  | Some false =>
      bool_decide (is_Some (_instructions e))
      && bool_decide (is_Some (_results e))
      && bool_decide (is_Some (_intermediates e))
  end.

(** X7. [spawn_process] when no worker is alive sleeps once, for
    POLLING_DELAY_MS / 250 seconds. When the worker is alive after that,
    the call returns with the three queues in place, the ones that were
    there kept with their content. When the worker has exited during the
    sleep, the call raises [IOError], and the handle and the three
    queues are gone. *)
Theorem X7_spawn_process_checks_once (POLLING_DELAY_MS : Q)
    (depth rounds : nat) (fail_when_redundant : bool) (e : engine)
    (t : tick) (rest : list tick) :
  startable e = true -> schedule e = t :: rest ->
  let r := spawn_process POLLING_DELAY_MS (S (S (S (S (S depth))))) rounds
             fail_when_redundant e in
  clock r.2 = (clock e + POLLING_DELAY_MS / 250)%Q
  /\ schedule r.2 = rest /\ sigterms r.2 = sigterms e
  /\ request r.2 = request e
  /\ if dies t then
       r.1 = Raised (IOError "Engine process died before it became responsive")
       /\ process r.2 = None /\ _instructions r.2 = None
       /\ _results r.2 = None /\ _intermediates r.2 = None
     else
       r.1 = Returned tt /\ process r.2 = Some true
       /\ _instructions r.2 = Some (default [] (_instructions e))
       /\ _results r.2 = Some (default [] (_results e) ++ arrivals t)
       /\ _intermediates r.2 = Some (default [] (_intermediates e)).
Proof.
  intros Hst Hs. cbn zeta.
  destruct e as [p i r m rq ck sch sg lg]. unfold startable in Hst.
  cbn in Hst, Hs. subst sch.
  destruct t as [[|] arrived], p as [[|]|], i, r, m; try done;
    vm_compute; done.
Qed.

Lemma X7_spawn_process_checks_once_witness :
  let e := Engine None None None None 0 0 [Tick true []] [] [] in
  (spawn_process 500 5 1 true e).1
  = Raised (IOError "Engine process died before it became responsive").
Proof.
  cbn zeta.
  apply (X7_spawn_process_checks_once 500 0 1 true
           (Engine None None None None 0 0 [Tick true []] [] [])
           (Tick true []) []); reflexivity.
Defined.

(** ** A worker that does not exit *)

(** The worker stays alive during every sleep to come. *)
Definition stays_alive (e : engine) : bool :=
  forallb (fun t => negb (dies t)) (schedule e).

(** The comparison in the loop of [terminate_process] does not let
    SIGTERM through at time [t]: there is no timeout, or the time waited
    has reached it. *)
Definition held_back (timeout : option Q) (start t : Q) : Prop :=
  match timeout with
  | None => True
  | Some limit => (limit <= t - start)%Q
  end.

Lemma bind_now {B} (k : Q -> M B) e : (now ≫= k) e = k (clock e) e.
Proof. reflexivity. Qed.

Lemma sleep_stays_alive d e :
  process e = Some true -> stays_alive e = true ->
  exists e', sleep d e = (Returned tt, e')
    /\ process e' = Some true /\ stays_alive e' = true
    /\ clock e' = (clock e + d)%Q /\ sigterms e' = sigterms e
    /\ _instructions e' = _instructions e /\ request e' = request e.
Proof.
  intros Hp Hs. unfold sleep, stays_alive in *. run.
  destruct e as [p i r m rq ck sch sg lg]. cbn in *. subst p.
  destruct sch as [|t rest]; cbn in *; [eauto 10|].
  apply andb_prop in Hs as [Ht Hrest]. apply negb_true_iff in Ht.
  rewrite Ht. cbn. eauto 10.
Qed.

Lemma terminate_poll_held_back timeout start pause rounds : forall e,
  process e = Some true -> stays_alive e = true ->
  (0 <= pause)%Q -> held_back timeout start (clock e) ->
  let r := terminate_poll rounds start timeout pause e in
  r.1 = Unfinished /\ sigterms r.2 = sigterms e
  /\ _instructions r.2 = _instructions e /\ request r.2 = request e
  /\ process r.2 = Some true.
Proof.
  induction rounds as [|rounds IH]; intros e Hp Hs Hpause Hheld; cbn zeta;
    cbn [terminate_poll]; rewrite bind_get;
    (assert (process_alive e = true) as ->
       by (unfold process_alive; now rewrite Hp)); [done|].
  rewrite bind_now.
  assert (match timeout with
          | Some limit => negb (Qle_bool limit (clock e - start))
          | None => false
          end = false) as ->.
  { destruct timeout as [limit|]; [|done]. cbn in Hheld.
    apply negb_false_iff, Qle_bool_iff, Hheld. }
  destruct (sleep_stays_alive pause e Hp Hs)
    as (e' & Hsl & Hp' & Hs' & Hck & Hsg & Hin & Hrq).
  rewrite (bind_returned _ _ _ _ _ Hsl).
  destruct (IH e' Hp' Hs' Hpause) as (H1 & H2 & H3 & H4 & H5).
  { destruct timeout as [limit|]; [|done]. cbn in *. rewrite Hck. lra. }
  split_and!; congruence.
Qed.

(** X5. [terminate_process] on a worker that stays alive: without a
    timeout, or with a timeout of at most one polling pause, the loop
    never sends SIGTERM and is never left; the one request sent is the
    "stop" request. *)
Theorem X5_terminate_process_waits_forever (POLLING_DELAY_MS : Q)
    (depth rounds : nat) (timeout : option Q) (e : engine)
    (ins : list envelope) :
  process e = Some true -> _instructions e = Some ins ->
  stays_alive e = true ->
  (0 <= POLLING_DELAY_MS)%Q ->
  match timeout with
  | None => True
  | Some limit => (limit <= POLLING_DELAY_MS / 500)%Q
  end ->
  let r := terminate_process POLLING_DELAY_MS (S (S (S depth))) rounds
             timeout e in
  r.1 = Unfinished /\ sigterms r.2 = sigterms e
  /\ process r.2 = Some true
  /\ _instructions r.2
     = Some (ins ++ [request_envelope (request e + 1) "stop" PNone]).
Proof.
  intros Hp Hi Hs Hpos Hlim. cbn zeta.
  cbn [terminate_process]. rewrite bind_get, Hp.
  assert (process_alive e = true) as -> by (unfold process_alive; now rewrite Hp).
  set (pause := (POLLING_DELAY_MS / 500)%Q) in *.
  assert (0 <= pause)%Q as Hpause.
  { unfold pause. apply Qle_shift_div_l; [reflexivity|]. lra. }
  set (e0 := set_instructions
               (Some (ins ++ [request_envelope (request e + 1) "stop" PNone]))
               (set_request (request e + 1) e)).
  destruct (sleep_stays_alive pause e0)
    as (e' & Hsl & Hp' & Hs' & Hck & Hsg & Hin & Hrq);
    [now destruct e|now destruct e|].
  destruct (terminate_poll_held_back timeout (clock e) pause rounds e'
              Hp' Hs' Hpause) as (H1 & H2 & H3 & H4 & H5).
  { destruct timeout as [limit|]; [|done]. cbn. rewrite Hck.
    assert (clock e0 = clock e) as -> by (now destruct e). lra. }
  match goal with |- context [ (?c ≫= ?k) e ] =>
    assert (c e = terminate_poll rounds (clock e) timeout pause e') as Hc
  end.
  { rewrite bind_now.
    rewrite (bind_returned _ _ _ _ _
               (dispatch_running POLLING_DELAY_MS depth rounds "stop" PNone
                  true e ins Hp Hi)).
    fold e0. now rewrite (bind_returned _ _ _ _ _ Hsl). }
  destruct (terminate_poll rounds (clock e) timeout pause e') as [o e2].
  cbn in H1, H2, H3, H4, H5. subst o.
  rewrite (bind_unfinished _ _ _ _ Hc). cbn [fst snd].
  split_and!; [done| | done |].
  - rewrite H2, Hsg. now destruct e.
  - rewrite H3, Hin. now destruct e.
Qed.

Lemma X5_terminate_process_waits_forever_witness :
  let e := Engine (Some true) (Some []) (Some []) (Some []) 0 0 [] [] [] in
  (terminate_process 500 3 7 None e).1 = Unfinished
  /\ (terminate_process 500 3 7 (Some 1%Q) e).1 = Unfinished.
Proof.
  cbn zeta. split.
  - apply (X5_terminate_process_waits_forever 500 0 7 None
             (Engine (Some true) (Some []) (Some []) (Some []) 0 0 [] [] [])
             []); try reflexivity. discriminate.
  - apply (X5_terminate_process_waits_forever 500 0 7 (Some 1%Q)
             (Engine (Some true) (Some []) (Some []) (Some []) 0 0 [] [] [])
             []); try reflexivity; discriminate.
Defined.

(** [self.process.terminate()] and the sleep after it, on a worker that
    stays alive. *)
Lemma terminate_and_sleep pause e :
  process e = Some true -> stays_alive e = true ->
  exists e', (process_terminate;; sleep pause) e = (Returned tt, e')
    /\ process e' = Some true /\ stays_alive e' = true
    /\ clock e' = (clock e + pause)%Q
    /\ sigterms e' = sigterms e ++ [clock e]
    /\ _instructions e' = _instructions e /\ request e' = request e.
Proof.
  intros Hp Hs.
  destruct (sleep_stays_alive pause (set_sigterms (sigterms e ++ [clock e]) e))
    as (e' & Hsl & ? & ? & Hck & Hsg & Hin & Hrq); [now destruct e..|].
  exists e'. split.
  { erewrite bind_returned by reflexivity. exact Hsl. }
  rewrite Hck, Hsg, Hin, Hrq. now destruct e.
Qed.

(** X23. [terminate_process] on a worker that ignores both the "stop"
    request and SIGTERM, with a timeout longer than one polling pause:
    SIGTERM is sent twice, one pause and two pauses after the call, and
    after three pauses [IOError] is raised; the handle and the
    instructions queue, with the "stop" request on it, are still
    there. *)
Theorem X23_terminate_process_gives_up (POLLING_DELAY_MS : Q)
    (depth rounds : nat) (limit : Q) (e : engine) (ins : list envelope) :
  process e = Some true -> _instructions e = Some ins ->
  stays_alive e = true ->
  (POLLING_DELAY_MS / 500 < limit)%Q ->
  let pause := (POLLING_DELAY_MS / 500)%Q in
  let r := terminate_process POLLING_DELAY_MS (S (S (S depth))) (S rounds)
             (Some limit) e in
  r.1 = Raised (IOError "Couldn't terminate process")
  /\ sigterms r.2
     = sigterms e ++ [(clock e + pause)%Q; (clock e + pause + pause)%Q]
  /\ clock r.2 = (clock e + pause + pause + pause)%Q
  /\ process r.2 = Some true
  /\ _instructions r.2
     = Some (ins ++ [request_envelope (request e + 1) "stop" PNone]).
Proof.
  intros Hp Hi Hs Hlt. cbn zeta.
  cbn [terminate_process]. rewrite bind_get, Hp.
  assert (process_alive e = true) as -> by (unfold process_alive; now rewrite Hp).
  set (pause := (POLLING_DELAY_MS / 500)%Q) in *.
  set (e0 := set_instructions
               (Some (ins ++ [request_envelope (request e + 1) "stop" PNone]))
               (set_request (request e + 1) e)).
  assert (clock e0 = clock e) as Hck0 by (now destruct e).
  assert (sigterms e0 = sigterms e) as Hsg0 by (now destruct e).
  destruct (sleep_stays_alive pause e0)
    as (e1 & Hsl1 & Hp1 & Hs1 & Hck1 & Hsg1 & Hin1 & _);
    [now destruct e..|].
  destruct (terminate_and_sleep pause e1 Hp1 Hs1)
    as (e2 & Hts2 & Hp2 & Hs2 & Hck2 & Hsg2 & Hin2 & _).
  destruct (terminate_and_sleep pause e2 Hp2 Hs2)
    as (e3 & Hts3 & Hp3 & Hs3 & Hck3 & Hsg3 & Hin3 & _).
  match goal with |- context [ (?c ≫= ?k) e ] =>
    assert (c e = (Returned tt, e2)) as Hblock
  end.
  { rewrite bind_now.
    rewrite (bind_returned _ _ _ _ _
               (dispatch_running POLLING_DELAY_MS depth (S rounds) "stop"
                  PNone true e ins Hp Hi)).
    fold e0. rewrite (bind_returned _ _ _ _ _ Hsl1).
    cbn [terminate_poll]. rewrite bind_get.
    assert (process_alive e1 = true) as ->
      by (unfold process_alive; now rewrite Hp1).
    rewrite bind_now, Hck1, Hck0.
    rewrite (Qle_bool_after_pause (clock e) pause limit Hlt). cbn [negb].
    exact Hts2. }
  rewrite (bind_returned _ _ _ _ _ Hblock), bind_get.
  assert (process_alive e2 = true) as ->
    by (unfold process_alive; now rewrite Hp2).
  rewrite (bind_returned _ _ _ _ _ Hts3), bind_get.
  assert (process_alive e3 = true) as ->
    by (unfold process_alive; now rewrite Hp3).
  unfold raise. cbn [fst snd].
  rewrite Hsg3, Hsg2, Hsg1, Hsg0, Hck3, Hck2, Hck1, Hck0, Hp3, Hin3, Hin2, Hin1.
  rewrite <- app_assoc. split_and!; try done. now destruct e.
Qed.

Lemma X23_terminate_process_gives_up_witness :
  (terminate_process 500 3 1 (Some 10%Q)
     (Engine (Some true) (Some []) (Some []) (Some []) 0 0 [] [] [])).1
  = Raised (IOError "Couldn't terminate process").
Proof.
  apply (X23_terminate_process_gives_up 500 0 0 10
           (Engine (Some true) (Some []) (Some []) (Some []) 0 0 [] [] [])
           []); reflexivity.
Defined.

(** X24. [terminate_process] on a worker that exits during the first
    pause after the "stop" request: no SIGTERM is sent, the call returns
    after that one pause, whatever the timeout, and the handle and the
    three queues are gone. *)
Theorem X24_terminate_process_after_stop (POLLING_DELAY_MS : Q)
    (depth rounds : nat) (timeout : option Q) (e : engine)
    (ins : list envelope) (t : tick) (rest : list tick) :
  process e = Some true -> _instructions e = Some ins ->
  schedule e = t :: rest -> dies t = true ->
  let r := terminate_process POLLING_DELAY_MS (S (S (S depth))) rounds
             timeout e in
  r.1 = Returned tt
  /\ sigterms r.2 = sigterms e
  /\ clock r.2 = (clock e + POLLING_DELAY_MS / 500)%Q
  /\ schedule r.2 = rest /\ request r.2 = request e + 1
  /\ process r.2 = None /\ _instructions r.2 = None
  /\ _results r.2 = None /\ _intermediates r.2 = None.
Proof.
  intros Hp Hi Hs Hd. cbn zeta.
  destruct e as [p i r m rq ck sch sg lg]. cbn in Hp, Hi, Hs. subst p i sch.
  destruct t as [d arrived]. cbn in Hd. subst d.
  destruct rounds, r, m; vm_compute; done.
Qed.

Lemma X24_terminate_process_after_stop_witness :
  let r := terminate_process 500 3 1 (Some 10%Q)
             (Engine (Some true) (Some []) (Some []) (Some []) 0 0
                [Tick true []] [] []) in
  r.1 = Returned tt /\ sigterms r.2 = [] /\ process r.2 = None.
Proof.
  cbn zeta.
  destruct (X24_terminate_process_after_stop 500 0 1 (Some 10%Q)
              (Engine (Some true) (Some []) (Some []) (Some []) 0 0
                 [Tick true []] [] [])
              [] (Tick true []) [] eq_refl eq_refl eq_refl eq_refl)
    as (H1 & H2 & _ & _ & _ & H6 & _).
  split; [exact H1|]. split; [exact H2|exact H6].
Defined.

(** ** Progress reports *)

(** The step carries an id. *)
Definition has_id (d : envelope) : bool := bool_decide (is_Some (d !! "id")).

(** The value that the last step for [id] carrying [key] has for it. *)
Definition latest (id : Z) (key : string) (q : list envelope) : option pyval :=
  last (omap (fun d => if answers id d then d !! key else None) q).

(** What the loop of [last_intermediate] leaves in its variable. *)
Fixpoint merged (id : Z) (all_steps : list envelope)
    (intermediate_data : option envelope) : option envelope :=
  match all_steps with
  | [] => intermediate_data
  | step :: rest =>
      if answers id step then
        merged id rest
          (Some (copy_keys step
                   (default {[ "id" := PInt id ]} intermediate_data)))
      else merged id rest intermediate_data
  end.

Lemma copy_lookup (step : envelope) (keys : list string) :
  forall (acc : envelope) (key : string),
  foldl (fun acc key =>
           match step !! key with
           | Some value => <[ key := value ]> acc
           | None => acc
           end) acc keys !! key
  = if bool_decide (key ∈ keys)
    then match step !! key with Some v => Some v | None => acc !! key end
    else acc !! key.
Proof.
  induction keys as [|k keys IH]; intros acc key; [done|].
  cbn [foldl]. rewrite IH.
  destruct (decide (key = k)) as [->|Hne].
  - rewrite (bool_decide_eq_true_2 (k ∈ k :: keys)) by left.
    destruct (step !! k) as [v|] eqn:Hk.
    + rewrite lookup_insert_eq. now case_bool_decide.
    + now case_bool_decide.
  - assert (bool_decide (key ∈ k :: keys) = bool_decide (key ∈ keys)) as ->.
    { apply bool_decide_ext. rewrite elem_of_cons. tauto. }
    destruct (step !! k); [rewrite lookup_insert_ne by done|]; done.
Qed.

Lemma copy_keys_lookup step data key :
  copy_keys step data !! key
  = if bool_decide (key ∈ intermediate_keys)
    then match step !! key with Some v => Some v | None => data !! key end
    else data !! key.
Proof. apply copy_lookup. Qed.

Section Intermediates.
Variable POLLING_DELAY_MS : Q.

Lemma merge_steps_spec depth rounds id all : forall data e q0,
  _intermediates e = Some q0 ->
  forallb has_id all = true ->
  merge_steps POLLING_DELAY_MS (S depth) rounds id all data e
  = (Returned (merged id all data),
     set_intermediates (Some (q0 ++ others id all)) e).
Proof.
  induction all as [|d rest IH]; intros data e q0 Hq Hall.
  - cbn. run. unfold others. cbn. rewrite app_nil_r.
    destruct e. cbn in *. now subst.
  - cbn [forallb] in Hall. apply andb_prop in Hall as [Hd Hrest].
    apply bool_decide_eq_true_1 in Hd as [found Hf].
    rewrite others_cons. cbn [merge_steps merged]. rewrite Hf.
    unfold answers. rewrite Hf.
    destruct (decide (found = PInt id)) as [->|Hne].
    + rewrite !bool_decide_eq_true_2 by done.
      rewrite (IH _ e q0 Hq Hrest). now destruct data.
    + rewrite !bool_decide_eq_false_2 by congruence.
      run. cbn [check_get_queue]. run. cbn [queue_attribute]. rewrite Hq.
      rewrite (IH data _ (q0 ++ [d])) by (try done; now destruct e).
      f_equal. destruct e. cbn. now rewrite <- app_assoc.
Qed.

End Intermediates.

Lemma merged_none id all : forall data,
  merged id all data = None -> data = None /\ others id all = all.
Proof.
  induction all as [|d rest IH]; intros data H; [done|].
  cbn [merged] in H. rewrite others_cons.
  destruct (answers id d).
  - now apply IH in H as [[=] _].
  - apply IH in H as [-> ->]. done.
Qed.

Lemma latest_cons id key d q :
  latest id key (d :: q)
  = match latest id key q with
    | Some v => Some v
    | None => if answers id d then d !! key else None
    end.
Proof.
  unfold latest. simpl.
  match goal with |- context [ omap ?f q ] =>
    change (list_omap _ _ f q) with (omap f q); generalize (omap f q)
  end.
  intros l. destruct (if answers id d then d !! key else None) as [v|].
  - destruct l as [|w l]; [done|].
    change (last (v :: w :: l)) with (last (w :: l)).
    destruct (last (w :: l)) eqn:E; [done|].
    now apply last_None in E.
  - now destruct (last l).
Qed.

Lemma merged_some id all : forall data0 : envelope,
  exists data, merged id all (Some data0) = Some data
    /\ forall key,
         data !! key
         = if bool_decide (key ∈ intermediate_keys)
           then match latest id key all with
                | Some v => Some v
                | None => data0 !! key
                end
           else data0 !! key.
Proof.
  induction all as [|d rest IH]; intros data0.
  - exists data0. split; [done|]. intros key. now case_bool_decide.
  - cbn [merged]. destruct (answers id d) eqn:Ha.
    + destruct (IH (copy_keys d data0)) as (data & Hm & Hl).
      exists data. split; [exact Hm|]. intros key.
      rewrite Hl, latest_cons, Ha, copy_keys_lookup.
      case_bool_decide; [|done]. now destruct (latest id key rest).
    + destruct (IH data0) as (data & Hm & Hl).
      exists data. split; [exact Hm|]. intros key.
      rewrite Hl, latest_cons, Ha. now destruct (latest id key rest).
Qed.

Lemma merged_start id all : forall data,
  merged id all None = Some data ->
  (exists d, d ∈ all /\ answers id d = true)
  /\ forall key,
       data !! key
       = if bool_decide (key ∈ intermediate_keys) then latest id key all
         else if bool_decide (key = "id") then Some (PInt id) else None.
Proof.
  induction all as [|d rest IH]; intros data H; [done|].
  cbn [merged] in H. destruct (answers id d) eqn:Ha.
  - split; [exists d; split; [left|done]|].
    destruct (merged_some id rest (copy_keys d {[ "id" := PInt id ]}))
      as (data' & Hm & Hl).
    change (merged id rest (Some (copy_keys d {[ "id" := PInt id ]}))
            = Some data) in H.
    rewrite Hm in H. injection H as <-.
    intros key. rewrite Hl, latest_cons, Ha, copy_keys_lookup.
    case_bool_decide as Hk.
    + destruct (latest id key rest); [done|].
      destruct (d !! key); [done|].
      apply lookup_singleton_ne. intros <-. revert Hk.
      unfold intermediate_keys. rewrite !elem_of_cons, elem_of_nil.
      intros [?|[?|[?|[?|[?|[]]]]]]; discriminate.
    + case_bool_decide as Hid.
      * subst key. apply lookup_singleton_eq.
      * now apply lookup_singleton_ne.
  - destruct (IH data H) as [(d0 & Hd0 & Ha0) Hl].
    split; [exists d0; split; [now right|done]|].
    intros key. rewrite Hl, latest_cons, Ha.
    case_bool_decide; [|done]. now destruct (latest id key rest).
Qed.

(** X8. [last_intermediate] on a queue of steps that all carry an id:
    the steps for other requests are back on the queue in the order they
    had and the steps for the request are taken off; nothing else
    changes. [None] is returned when no step was for the request.
    Otherwise the dictionary returned holds the id and, for each of the
    keys "step", "total", "rate", "images" and "task", the value of the
    last step for the request that carries the key; it holds no other
    key. *)
Theorem X8_last_intermediate_merges (POLLING_DELAY_MS : Q)
    (depth rounds : nat) (id : Z) (e : engine) (q : list envelope) :
  _intermediates e = Some q -> forallb has_id q = true ->
  let r := last_intermediate POLLING_DELAY_MS (S depth) rounds id e in
  r.2 = set_intermediates (Some (others id q)) e
  /\ match r.1 with
     | Returned None => others id q = q
     | Returned (Some data) =>
         (exists d, d ∈ q /\ answers id d = true)
         /\ forall key,
              data !! key
              = if bool_decide (key ∈ intermediate_keys)
                then latest id key q
                else if bool_decide (key = "id") then Some (PInt id)
                     else None
     | _ => False
     end.
Proof.
  intros Hq Hall. cbn zeta. unfold last_intermediate.
  assert (check_get_queue POLLING_DELAY_MS (S depth) rounds intermediates e
          = (Returned q, e)) as Hget.
  { cbn [check_get_queue]. run. cbn [queue_attribute]. now rewrite Hq. }
  rewrite (bind_returned _ _ _ _ _ Hget).
  erewrite bind_returned by reflexivity.
  rewrite (merge_steps_spec POLLING_DELAY_MS depth rounds id q None _ [])
    by (try done; now destruct e).
  cbn [fst snd]. split; [now destruct e|].
  destruct (merged id q None) as [data|] eqn:Hm.
  - now apply merged_start.
  - now apply merged_none in Hm as [_ ?].
Qed.

Lemma X8_last_intermediate_merges_witness :
  let q : list envelope :=
    [ {[ "id" := PInt 1; "step" := PInt 1; "task" := PStr "a" ]};
      {[ "id" := PInt 2; "step" := PInt 7 ]};
      {[ "id" := PInt 1; "step" := PInt 2 ]} ] in
  _intermediates
    (last_intermediate 500 1 1 1
       (Engine (Some true) (Some []) (Some []) (Some q) 2 0 [] [] [])).2
  = Some [ {[ "id" := PInt 2; "step" := PInt 7 ]} ].
Proof.
  cbn zeta.
  destruct (X8_last_intermediate_merges 500 0 1 1
              (Engine (Some true) (Some []) (Some [])
                 (Some [ {[ "id" := PInt 1; "step" := PInt 1;
                            "task" := PStr "a" ]};
                         {[ "id" := PInt 2; "step" := PInt 7 ]};
                         {[ "id" := PInt 1; "step" := PInt 2 ]} ])
                 2 0 [] [] [])
              [ {[ "id" := PInt 1; "step" := PInt 1; "task" := PStr "a" ]};
                {[ "id" := PInt 2; "step" := PInt 7 ]};
                {[ "id" := PInt 1; "step" := PInt 2 ]} ])
    as [H _]; [reflexivity|vm_compute; reflexivity|].
  rewrite H. vm_compute. reflexivity.
Defined.

(** X9. [last_intermediate] on a queue with a step that carries no id
    raises [KeyError]; every step that was on the queue behind that step
    is lost, also the steps for other requests, and so is every step for
    the request in front of it. *)
Theorem X9_last_intermediate_loses_steps (POLLING_DELAY_MS : Q)
    (depth rounds : nat) (id : Z) (e : engine)
    (good : list envelope) (bad : envelope) (rest : list envelope) :
  _intermediates e = Some (good ++ bad :: rest) ->
  forallb has_id good = true -> bad !! "id" = None ->
  last_intermediate POLLING_DELAY_MS (S depth) rounds id e
  = (Raised (KeyError "id"), set_intermediates (Some (others id good)) e).
Proof.
  intros Hq Hgood Hbad. unfold last_intermediate.
  assert (check_get_queue POLLING_DELAY_MS (S depth) rounds intermediates e
          = (Returned (good ++ bad :: rest), e)) as Hget.
  { cbn [check_get_queue]. run. cbn [queue_attribute]. now rewrite Hq. }
  rewrite (bind_returned _ _ _ _ _ Hget).
  erewrite bind_returned by reflexivity.
  assert (forall data e0 q0, _intermediates e0 = Some q0 ->
    merge_steps POLLING_DELAY_MS (S depth) rounds id (good ++ bad :: rest)
      data e0
    = (Raised (KeyError "id"),
       set_intermediates (Some (q0 ++ others id good)) e0)) as Hloop.
  { clear Hq Hget. induction good as [|d good IH]; intros data e0 q0 Hq0.
    - cbn. rewrite Hbad. run. unfold others. cbn. rewrite app_nil_r.
      destruct e0. cbn in *. now subst.
    - cbn [forallb] in Hgood. apply andb_prop in Hgood as [Hd Hgood].
      apply bool_decide_eq_true_1 in Hd as [found Hf].
      rewrite others_cons. cbn [app merge_steps]. rewrite Hf.
      unfold answers. rewrite Hf.
      destruct (decide (found = PInt id)) as [->|Hne].
      + rewrite !bool_decide_eq_true_2 by done. now apply IH.
      + rewrite !bool_decide_eq_false_2 by congruence.
        run. cbn [check_get_queue]. run. cbn [queue_attribute]. rewrite Hq0.
        rewrite (IH Hgood data _ (q0 ++ [d])) by (now destruct e0).
        f_equal. destruct e0. cbn. now rewrite <- app_assoc. }
  rewrite (Hloop None _ []) by (now destruct e). now destruct e.
Qed.

Lemma X9_last_intermediate_loses_steps_witness :
  last_intermediate 500 1 1 1
    (Engine (Some true) (Some []) (Some [])
       (Some ([] ++ (∅ : envelope) :: [ {[ "id" := PInt 2 ]} ]))
       2 0 [] [] [])
  = (Raised (KeyError "id"),
     Engine (Some true) (Some []) (Some []) (Some []) 2 0 [] [] []).
Proof.
  apply (X9_last_intermediate_loses_steps 500 0 1 1
           (Engine (Some true) (Some []) (Some [])
              (Some ([] ++ (∅ : envelope) :: [ {[ "id" := PInt 2 ]} ]))
              2 0 [] [] [])
           [] ∅ [ {[ "id" := PInt 2 ]} ]); reflexivity.
Defined.

(** ** Replies that [wait] cannot use *)


(** Every envelope of [q] that answers [id] carries the result [None]
    and no error. *)
Definition only_none (id : Z) (q : list envelope) : bool :=
  forallb (fun d => negb (answers id d)
                    || (bool_decide (d !! "error" = None)
                        && bool_decide (d !! "result" = Some PNone))) q.

Lemma captured_only_none id q :
  only_none id q = true -> captured id q None PNone = (None, PNone).
Proof.
  induction q as [|d q IH]; [done|]. unfold only_none. cbn [forallb captured].
  intros [Hd Hq]%andb_prop. destruct (answers id d); [|now apply IH].
  cbn in Hd. apply andb_prop in Hd as [He Hr].
  apply bool_decide_eq_true_1 in He, Hr. rewrite He, Hr.
  destruct (d !! "message"); now apply IH.
Qed.

Lemma only_none_others id q :
  only_none id q = true -> only_none id (others id q) = true.
Proof.
  unfold only_none. rewrite !forallb_forall. intros H d Hd. apply H.
  apply list_elem_of_In. apply list_elem_of_In in Hd.
  now apply elem_of_others in Hd.
Qed.

Section Unusable.
Variable POLLING_DELAY_MS : Q.


End Unusable.



Lemma sleep_instructions d e :
  _instructions (sleep d e).2 = _instructions e.
Proof.
  destruct e as [p i r m rq ck sch sg lg]. unfold sleep. run. cbn.
  destruct sch as [|t rest]; [done|]. cbn. now destruct (dies t), p, r.
Qed.

Section Silent.
Variable POLLING_DELAY_MS : Q.

Lemma wait_poll_only_none depth rounds id timeout delay polls :
  forall start e q,
  process e = Some true -> _results e = Some q -> schedule e = [] ->
  forallb (well_formed id) q = true -> only_none id q = true ->
  let r := wait_poll POLLING_DELAY_MS (S depth) rounds (S polls) id timeout
             start delay e in
  (forall v, r.1 <> Returned v)
  /\ _results r.2 = Some (others id q)
  /\ (timeout = None -> r.1 = Unfinished)
  /\ _instructions r.2 = _instructions e.
Proof.
  induction polls as [|polls IH]; intros start e q Hp Hq Hs Hwf Hnone;
    cbn zeta;
    rewrite (wait_poll_round POLLING_DELAY_MS depth rounds _ id timeout start
               delay e q Hp Hq Hwf);
    rewrite (captured_only_none id q Hnone);
    rewrite bool_decide_eq_true_2 by done; cbn [negb];
    set (e1 := set_logged (logged e ++ traces id q)
                 (set_results (Some (others id q)) e));
    (destruct (sleep_idle delay e1 (others id q))
       as (e2 & Hsl & Hp2 & Hq2 & Hs2); [now destruct e..|]);
    (assert (_instructions e2 = _instructions e) as Hi2
       by (transitivity (_instructions (sleep delay e1).2);
           [now rewrite Hsl|rewrite sleep_instructions; now destruct e]));
    rewrite (bind_returned _ _ _ _ _ Hsl), bind_now;
    (destruct timeout as [limit|];
     [destruct (negb (Qle_bool (clock e2 - start) limit))|]);
    try (cbn; split_and!; done).
  - destruct (IH start e2 (others id q) Hp2 Hq2 Hs2) as (H1 & H2 & H3 & H4);
      [now apply well_formed_others|now apply only_none_others|].
    rewrite others_idemp in H2. split_and!; try done. congruence.
  - destruct (IH start e2 (others id q) Hp2 Hq2 Hs2) as (H1 & H2 & H3 & H4);
      [now apply well_formed_others|now apply only_none_others|].
    rewrite others_idemp in H2. split_and!; try done. congruence.
Qed.

End Silent.

(** X11. A reply whose result is [None] does not end [wait]: with the
    worker alive and silent, and every answer to the request on the
    results queue carrying the result [None], [wait] takes these answers
    off the queue, leaves the envelopes for other requests on it, and
    never returns; without a timeout it polls for ever. *)
Theorem X11_wait_drops_none_result (POLLING_DELAY_MS : Q)
    (depth rounds polls : nat) (id : Z) (timeout : option Q) (e : engine)
    (q : list envelope) :
  process e = Some true -> _results e = Some q -> schedule e = [] ->
  forallb (well_formed id) q = true -> only_none id q = true ->
  let r := wait POLLING_DELAY_MS (S depth) rounds (S polls) id timeout e in
  (forall v, r.1 <> Returned v)
  /\ _results r.2 = Some (others id q)
  /\ (timeout = None -> r.1 = Unfinished).
Proof.
  intros Hp Hq Hs Hwf Hnone. cbn zeta. unfold wait. rewrite bind_now.
  destruct (wait_poll_only_none POLLING_DELAY_MS depth rounds id timeout
              (POLLING_DELAY_MS / 500)%Q polls (clock e) e q
              Hp Hq Hs Hwf Hnone) as (H1 & H2 & H3 & _).
  done.
Qed.

Lemma X11_wait_drops_none_result_witness :
  let e := running_engine [reply 1 (PStr "a"); reply 2 PNone] [] in
  (wait 500 1 1 9 2 None e).1 = Unfinished
  /\ _results (wait 500 1 1 9 2 None e).2 = Some [reply 1 (PStr "a")].
Proof.
  cbn zeta.
  destruct (X11_wait_drops_none_result 500 0 1 8 2 None
              (running_engine [reply 1 (PStr "a"); reply 2 PNone] [])
              [reply 1 (PStr "a"); reply 2 PNone]
              eq_refl eq_refl eq_refl eq_refl eq_refl) as (_ & H2 & H3).
  split; [now apply H3|exact H2].
Defined.

(** ** How long [wait] takes *)

Lemma sleep_clock d e : clock (sleep d e).2 = (clock e + d)%Q.
Proof.
  destruct e as [p i r m rq ck sch sg lg]. unfold sleep. run. cbn.
  destruct sch as [|t rest]; [done|]. cbn. now destruct (dies t), p, r.
Qed.

Lemma inject_succ (n : nat) :
  (inject_Z (Z.of_nat (S n)) == inject_Z (Z.of_nat n) + 1)%Q.
Proof. now rewrite Nat2Z.inj_succ, <- Z.add_1_r, inject_Z_plus. Qed.

Section Timing.
Variable POLLING_DELAY_MS : Q.

Lemma wait_poll_time depth rounds id limit delay start polls :
  (0 <= delay)%Q ->
  forall e q,
  process e = Some true -> _results e = Some q ->
  forallb (well_formed id) q = true ->
  forallb (calm id) (schedule e) = true ->
  (clock e - start <= limit)%Q ->
  let r := wait_poll POLLING_DELAY_MS (S depth) rounds polls id (Some limit)
             start delay e in
  (clock r.2 - start <= limit + delay)%Q
  /\ (r.1 = Raised (TimeoutError "Timed out waiting for response.") ->
      (limit < clock r.2 - start)%Q)
  /\ (r.1 = Unfinished ->
      (inject_Z (Z.of_nat polls) * delay <= limit - (clock e - start))%Q).
Proof.
  intros Hdelay.
  induction polls as [|polls IH]; intros e q Hp Hq Hwf Hcalm Hstart; cbn zeta.
  { cbn [wait_poll]. unfold unfinished. cbn [fst snd].
    change (inject_Z (Z.of_nat 0)) with 0%Q.
    split_and!; [lra|done|intros _; lra]. }
  rewrite (wait_poll_round POLLING_DELAY_MS depth rounds polls id (Some limit)
             start delay e q Hp Hq Hwf).
  set (e1 := set_logged (logged e ++ traces id q)
               (set_results (Some (others id q)) e)).
  assert (clock e1 = clock e) as Hck1 by (now destruct e).
  assert (process e1 = Some true) as Hp1 by (now destruct e).
  assert (_results e1 = Some (others id q)) as Hq1 by (now destruct e).
  assert (schedule e1 = schedule e) as Hs1 by (now destruct e).
  destruct (captured id q None PNone) as [[x|] value] eqn:Hcap.
  { cbn [fst snd]. rewrite Hck1. split_and!; [lra| |done].
    intros [= ->].
    destruct (captured_raise id q None PNone _ ltac:(now rewrite Hcap))
      as [[=]|(? & ? & ? & _ & _ & _ & _ & [=])]. }
  destruct (negb (bool_decide (value = PNone))).
  { cbn [fst snd]. rewrite Hck1. split_and!; [lra|done|done]. }
  assert (exists e2 q2, sleep delay e1 = (Returned tt, e2)
            /\ process e2 = Some true /\ _results e2 = Some q2
            /\ forallb (well_formed id) q2 = true
            /\ forallb (calm id) (schedule e2) = true)
    as (e2 & q2 & Hsl & Hp2 & Hq2 & Hwf2 & Hcalm2).
  { destruct (schedule e) as [|t rest] eqn:Hsch.
    - destruct (sleep_idle delay e1 (others id q))
        as (e2 & ? & ? & ? & Hs2); [congruence|done..|].
      exists e2, (others id q). rewrite Hs2.
      split_and!; try done. now apply well_formed_others.
    - cbn [forallb] in Hcalm. apply andb_prop in Hcalm as [Ht Hrest].
      unfold calm in Ht. apply andb_prop in Ht as [Hdies Harr].
      apply negb_true_iff in Hdies.
      destruct (sleep_calm delay e1 t rest (others id q))
        as (e2 & ? & ? & ? & Hs2); [congruence|done..|].
      exists e2, (others id q ++ arrivals t). rewrite Hs2.
      split_and!; try done.
      rewrite forallb_app, well_formed_others by done. done. }
  assert (clock e2 = (clock e + delay)%Q) as Hck2.
  { rewrite <- Hck1, <- sleep_clock. now rewrite Hsl. }
  rewrite (bind_returned _ _ _ _ _ Hsl), bind_now.
  destruct (Qle_bool (clock e2 - start) limit) eqn:Hle; cbn [negb].
  - apply Qle_bool_iff in Hle.
    destruct (IH e2 q2 Hp2 Hq2 Hwf2 Hcalm2 Hle) as (H1 & H2 & H3).
    split_and!; [done|done|]. intros Hu. specialize (H3 Hu).
    rewrite inject_succ. rewrite Hck2 in H3. lra.
  - assert (limit < clock e2 - start)%Q as Hlt.
    { apply Qnot_le_lt. intros Hc. apply Qle_bool_iff in Hc. congruence. }
    unfold raise. cbn [fst snd]. split_and!; [rewrite Hck2; lra|done|done].
Qed.

End Timing.

(** X12. [wait] with a timeout, the worker alive and its envelopes
    readable: the timeout error is raised only after more than the
    timeout has passed; however [wait] is left, that is at most one
    polling pause after the timeout; and the loop makes no more rounds
    than pauses fit into the timeout, plus one. *)
Theorem X12_wait_timeout_bounds (POLLING_DELAY_MS : Q)
    (depth rounds polls : nat) (id : Z) (limit : Q) (e : engine)
    (q : list envelope) :
  process e = Some true -> _results e = Some q ->
  forallb (well_formed id) q = true ->
  forallb (calm id) (schedule e) = true ->
  (0 <= POLLING_DELAY_MS)%Q -> (0 <= limit)%Q ->
  let r := wait POLLING_DELAY_MS (S depth) rounds polls id (Some limit) e in
  (clock r.2 - clock e <= limit + POLLING_DELAY_MS / 500)%Q
  /\ (r.1 = Raised (TimeoutError "Timed out waiting for response.") ->
      (limit < clock r.2 - clock e)%Q)
  /\ (r.1 = Unfinished ->
      (inject_Z (Z.of_nat polls) * (POLLING_DELAY_MS / 500) <= limit)%Q).
Proof.
  intros Hp Hq Hwf Hcalm Hpos Hlimit. cbn zeta. unfold wait.
  rewrite bind_now.
  assert (0 <= POLLING_DELAY_MS / 500)%Q as Hpause.
  { apply Qle_shift_div_l; [reflexivity|]. lra. }
  destruct (wait_poll_time POLLING_DELAY_MS depth rounds id limit
              (POLLING_DELAY_MS / 500)%Q (clock e) polls Hpause e q
              Hp Hq Hwf Hcalm) as (H1 & H2 & H3); [lra|].
  split_and!; [done|done|]. intros Hu. specialize (H3 Hu). lra.
Qed.

Lemma X12_wait_timeout_bounds_witness :
  let e := running_engine [] [] in
  (wait 500 1 1 3 2 (Some 1%Q) e).1 <> Unfinished.
Proof.
  cbn zeta. intros Hu.
  destruct (X12_wait_timeout_bounds 500 0 1 3 2 1 (running_engine [] []) []
              eq_refl eq_refl eq_refl eq_refl) as (_ & _ & H3);
    [discriminate|discriminate|].
  specialize (H3 Hu). vm_compute in H3. now apply H3.
Defined.

(** ** Keeping the worker awake *)

(** X13. [keepalive] does not use its timeout: with the worker alive and
    silent, nothing waiting on the instructions queue and no usable
    answer to the next request on the results queue, it sends one "ping"
    and then polls for ever, whatever timeout it was given. *)
Theorem X13_keepalive_ignores_timeout (POLLING_DELAY_MS : Q)
    (depth rounds polls : nat) (timeout : Q) (e : engine)
    (q : list envelope) :
  process e = Some true -> _instructions e = Some [] ->
  _results e = Some q -> schedule e = [] ->
  forallb (well_formed (request e + 1)) q = true ->
  only_none (request e + 1) q = true ->
  let r := keepalive POLLING_DELAY_MS (S (S depth)) rounds polls timeout e in
  r.1 = Unfinished
  /\ _instructions r.2
     = Some [request_envelope (request e + 1) "ping" PNone].
Proof.
  intros Hp Hi Hq Hs Hwf Hnone. cbn zeta. unfold keepalive.
  rewrite bind_get, Hp. cbn [negb].
  assert (check_get_queue POLLING_DELAY_MS (S (S depth)) rounds instructions e
          = (Returned [], e)) as Hget.
  { cbn [check_get_queue]. run. cbn [queue_attribute]. now rewrite Hi. }
  rewrite (bind_returned _ _ _ _ _ Hget).
  set (e0 := set_instructions
               (Some ([] ++ [request_envelope (request e + 1) "ping" PNone]))
               (set_request (request e + 1) e)).
  assert (exists e', invoke POLLING_DELAY_MS (S (S depth)) rounds polls "ping"
                       PNone None e = (Unfinished, e')
            /\ _instructions e' = _instructions e0) as (e' & Hinv & Hi').
  { unfold invoke.
    rewrite (bind_returned _ _ _ _ _
               (dispatch_running POLLING_DELAY_MS depth rounds "ping" PNone
                  true e [] Hp Hi)).
    fold e0. unfold wait. rewrite bind_now.
    destruct polls as [|polls]; [now exists e0|].
    destruct (wait_poll_only_none POLLING_DELAY_MS (S depth) rounds
                (request e + 1) None (POLLING_DELAY_MS / 500)%Q polls
                (clock e0) e0 q) as (_ & _ & H3 & H4);
      try (now destruct e).
    destruct (wait_poll _ _ _ _ _ _ _ _ _) as [o e'].
    exists e'. cbn in H3, H4. now rewrite H3. }
  rewrite (bind_unfinished _ _ e e' (bind_unfinished _ _ e e' Hinv)).
  cbn [fst snd]. split; [done|]. rewrite Hi'. now destruct e.
Qed.

Lemma X13_keepalive_ignores_timeout_witness :
  (keepalive 500 2 1 50 (1 # 5) (running_engine [] [])).1 = Unfinished.
Proof.
  apply (X13_keepalive_ignores_timeout 500 0 1 50 (1 # 5)
           (running_engine [] []) []); reflexivity.
Defined.

Lemma sleep_sigterms d e : sigterms (sleep d e).2 = sigterms e.
Proof.
  destruct e as [p i r m rq ck sch sg lg]. unfold sleep. run. cbn.
  destruct sch as [|t rest]; [done|]. cbn. now destruct (dies t), p, r.
Qed.

(** What a round of [wait] leaves as it is. *)
Lemma round_frame lg q e :
  let e' := set_logged lg (set_results q e) in
  process e' = process e /\ _instructions e' = _instructions e
  /\ _results e' = q /\ schedule e' = schedule e /\ clock e' = clock e
  /\ sigterms e' = sigterms e /\ request e' = request e.
Proof. now destruct e. Qed.

(** No envelope of [q] answers [id]. *)
Definition no_answer (id : Z) (q : list envelope) : bool :=
  forallb (fun d => negb (answers id d)) q.

Lemma others_no_answer id q : no_answer id q = true -> others id q = q.
Proof.
  induction q as [|d q IH]; [done|]. unfold no_answer. cbn [forallb].
  intros [Hd Hq]%andb_prop. apply negb_true_iff in Hd.
  rewrite others_cons, Hd. f_equal. now apply IH.
Qed.

Lemma captured_no_answer id q : forall to_raise to_return,
  no_answer id q = true ->
  captured id q to_raise to_return = (to_raise, to_return).
Proof.
  induction q as [|d q IH]; intros to_raise to_return; [done|].
  unfold no_answer. cbn [forallb captured].
  intros [Hd Hq]%andb_prop. apply negb_true_iff in Hd. rewrite Hd.
  now apply IH.
Qed.

Lemma captured_app id q1 q2 : forall to_raise to_return,
  captured id (q1 ++ q2) to_raise to_return
  = captured id q2 (captured id q1 to_raise to_return).1
      (captured id q1 to_raise to_return).2.
Proof.
  induction q1 as [|d q1 IH]; intros to_raise to_return; [done|].
  cbn [app captured]. repeat case_match; apply IH.
Qed.

(** X14. [keepalive] with the worker alive, nothing waiting on the
    instructions queue and no answer to the next request on the results
    queue yet: when the worker answers "pong" during the first pause,
    [keepalive] returns [True] after that one pause. It has sent one
    "ping"; the replies to other requests, those that were on the queue
    and those that came with the answer, are on the results queue in the
    order they came. *)
Theorem X14_keepalive_ping_pong (POLLING_DELAY_MS : Q)
    (depth rounds polls : nat) (timeout : Q) (e : engine)
    (q : list envelope) (t : tick) (rest : list tick) :
  process e = Some true -> _instructions e = Some [] ->
  _results e = Some q -> schedule e = t :: rest -> dies t = false ->
  forallb (well_formed (request e + 1)) q = true ->
  no_answer (request e + 1) q = true ->
  forallb (well_formed (request e + 1)) (arrivals t) = true ->
  captured (request e + 1) (arrivals t) None PNone = (None, PStr "pong") ->
  let r := keepalive POLLING_DELAY_MS (S (S depth)) rounds (S (S polls))
             timeout e in
  r.1 = Returned true
  /\ _instructions r.2
     = Some [request_envelope (request e + 1) "ping" PNone]
  /\ _results r.2 = Some (q ++ others (request e + 1) (arrivals t))
  /\ schedule r.2 = rest
  /\ clock r.2 = (clock e + POLLING_DELAY_MS / 500)%Q
  /\ process r.2 = Some true /\ sigterms r.2 = sigterms e.
Proof.
  intros Hp Hi Hq Hs Hd Hwf Hno Hwfa Hcap. cbn zeta. unfold keepalive.
  rewrite bind_get, Hp. cbn [negb].
  assert (check_get_queue POLLING_DELAY_MS (S (S depth)) rounds instructions e
          = (Returned [], e)) as Hget.
  { cbn [check_get_queue]. run. cbn [queue_attribute]. now rewrite Hi. }
  rewrite (bind_returned _ _ _ _ _ Hget).
  set (id := request e + 1) in *.
  set (pause := (POLLING_DELAY_MS / 500)%Q).
  set (e0 := set_instructions
               (Some ([] ++ [request_envelope id "ping" PNone]))
               (set_request id e)).
  set (e1 := set_logged (logged e0 ++ traces id q)
               (set_results (Some (others id q)) e0)).
  destruct (sleep_calm pause e1 t rest (others id q))
    as (e2 & Hsl & Hp2 & Hq2 & Hs2); [now destruct e..|].
  assert (e2 = (sleep pause e1).2) as He2 by (now rewrite Hsl).
  set (e3 := set_logged (logged e2 ++ traces id (others id q ++ arrivals t))
               (set_results
                  (Some (others id (others id q ++ arrivals t))) e2)).
  assert (invoke POLLING_DELAY_MS (S (S depth)) rounds (S (S polls)) "ping"
            PNone None e = (Returned (PStr "pong"), e3)) as Hinv.
  { unfold invoke.
    rewrite (bind_returned _ _ _ _ _
               (dispatch_running POLLING_DELAY_MS depth rounds "ping" PNone
                  true e [] Hp Hi)).
    fold id e0. unfold wait. rewrite bind_now. fold pause.
    rewrite (wait_poll_round POLLING_DELAY_MS (S depth) rounds (S polls) id
               None (clock e0) pause e0 q) by (now destruct e).
    rewrite (captured_no_answer id q None PNone Hno).
    rewrite bool_decide_eq_true_2 by done. cbn [negb]. fold e1.
    rewrite (bind_returned _ _ _ _ _ Hsl), bind_now.
    rewrite (wait_poll_round POLLING_DELAY_MS (S depth) rounds polls id
               None (clock e0) pause e2 (others id q ++ arrivals t) Hp2 Hq2).
    2:{ rewrite forallb_app, well_formed_others by done. done. }
    rewrite captured_app, (others_no_answer id q Hno).
    rewrite (captured_no_answer id q None PNone Hno). cbn [fst snd].
    rewrite Hcap. rewrite bool_decide_eq_false_2 by done. cbn [negb].
    unfold e3. now rewrite (others_no_answer id q Hno). }
  rewrite (bind_returned _ _ _ _ _
             (bind_returned _ _ _ _ _ Hinv)).
  unfold mret, M_ret. cbn [fst snd].
  destruct (round_frame (logged e2 ++ traces id (others id q ++ arrivals t))
              (Some (others id (others id q ++ arrivals t))) e2)
    as (F1 & F2 & F3 & F4 & F5 & F6 & _).
  fold e3 in F1, F2, F3, F4, F5, F6.
  rewrite F1, F2, F3, F4, F5, F6, Hp2, Hs2.
  rewrite others_app, others_idemp, (others_no_answer id q Hno).
  rewrite He2, sleep_instructions, sleep_clock, sleep_sigterms.
  split_and!; try done; now destruct e.
Qed.

Lemma X14_keepalive_ping_pong_witness :
  let e := running_engine [reply 1 (PStr "a")]
             [Tick false [reply 4 (PStr "pong"); reply 2 (PStr "b")]] in
  (keepalive 500 2 1 2 (1 # 5) e).1 = Returned true
  /\ _results (keepalive 500 2 1 2 (1 # 5) e).2
     = Some [reply 1 (PStr "a"); reply 2 (PStr "b")].
Proof.
  cbn zeta.
  destruct (X14_keepalive_ping_pong 500 0 1 0 (1 # 5)
              (running_engine [reply 1 (PStr "a")]
                 [Tick false [reply 4 (PStr "pong"); reply 2 (PStr "b")]])
              [reply 1 (PStr "a")]
              (Tick false [reply 4 (PStr "pong"); reply 2 (PStr "b")]) []
              eq_refl eq_refl eq_refl eq_refl eq_refl eq_refl eq_refl
              eq_refl eq_refl) as (H1 & _ & H3 & _).
  split; [exact H1|]. rewrite H3. reflexivity.
Defined.

End EngineProperties.

(* ===================================================================== *)
(** * Part VII. Further properties of the pipeline manager                 *)
(* ===================================================================== *)

Module ManagerProperties.
Import Py Manager ManagerFacts.

(** An installation without refiner, whose pipelines can be built. *)
Definition plain_environment : environment :=
  {| float_repr := fun _ => "";
     cfg_size := None; cfg_chunk_size := None; cfg_chunk_blur := None;
     cfg_safe := None;
     the_device := cuda; the_dtype := float16;
     engine_lora_dir := "/cache/lora";
     engine_lycoris_dir := "/cache/lycoris";
     controlnet := None;
     is_sdxl := false; refiner_is_sdxl := false; inpainter_is_sdxl := false;
     _refiner_size := None; _inpainter_size := None;
     refiner := None;
     refiner_strength := PyFloat (3 # 10);
     refiner_guidance_scale := PyFloat 5;
     refiner_aesthetic_score := PyFloat 6;
     refiner_negative_aesthetic_score := PyFloat (5 # 2);
     pipeline_switch_mode := Some "offload";
     tensorrt_is_supported := false;
     cfg_tensorrt := false;
     engine_exists := fun _ _ => false;
     construct_fails := fun _ => None;
     run_pipeline := fun _ _ =>
       inr (Result [Image 512 512 (generated 0)] None);
     run_refiner := fun _ im _ =>
       inr [Image (width im) (height im) (generated 1)] |}.

(** A manager without attributes, and one that holds the base pipeline
    and the inpainter. *)
Definition new_manager : manager :=
  Manager None None None None None None None None None None None None
          None None None false 0 [].

Definition busy_manager : manager :=
  Manager (Some (Pipe 0 Base cuda float16 512)) None
          None None
          (Some (Pipe 1 Inpainter cuda float16 512)) (Some false)
          (Some 512) (Some 64) None None None None
          (Some true) (Some true) None false 2 [].

Definition plain_kwargs : kwargs :=
  Kwargs None None None None None None None None None None None 0.

(** The same installation with a refiner. *)
Definition refining_environment : environment :=
  {| float_repr := fun _ => "";
     cfg_size := None; cfg_chunk_size := None; cfg_chunk_blur := None;
     cfg_safe := None;
     the_device := cuda; the_dtype := float16;
     engine_lora_dir := "/cache/lora";
     engine_lycoris_dir := "/cache/lycoris";
     controlnet := None;
     is_sdxl := false; refiner_is_sdxl := false; inpainter_is_sdxl := false;
     _refiner_size := None; _inpainter_size := None;
     refiner := Some "refiner.safetensors";
     refiner_strength := PyFloat (3 # 10);
     refiner_guidance_scale := PyFloat 5;
     refiner_aesthetic_score := PyFloat 6;
     refiner_negative_aesthetic_score := PyFloat (5 # 2);
     pipeline_switch_mode := Some "offload";
     tensorrt_is_supported := false;
     cfg_tensorrt := false;
     engine_exists := fun _ _ => false;
     construct_fails := fun _ => None;
     run_pipeline := fun _ _ =>
       inr (Result [Image 512 512 (generated 0); Image 512 512 (generated 1)]
              (Some [true; false]));
     run_refiner := fun _ im _ =>
       inr [Image (width im) (height im) (generated 7)] |}.

(** X15. Assigning [safe] a value other than the one held unloads the
    base pipeline and nothing else: the inpainter pipeline, which is
    built with the same setting, stays loaded as it was built, and so
    does the refiner. Assigning the value held changes nothing. *)
Theorem X15_safe_unloads_base_only (val : bool) (m : manager) :
  let r := set_safe_property val m in
  r.1 = Returned tt
  /\ _safe r.2 = Some val
  /\ _inpainter_pipeline r.2 = _inpainter_pipeline m
  /\ _inpainter_pipeline_is_offloaded r.2 = _inpainter_pipeline_is_offloaded m
  /\ _refiner_pipeline r.2 = _refiner_pipeline m
  /\ built r.2 = built m
  /\ (_safe m <> Some val -> _pipeline r.2 = None)
  /\ (_safe m = Some val -> r.2 = m).
Proof.
  cbn zeta. unfold set_safe_property, unload_pipeline, del_pipeline. run.
  destruct m as [p ? ? ? ? ? ? ? ? ? ? ? sf ? ? ? ? ?]. cbn.
  case_bool_decide as Hs; cbn.
  - split_and!; done.
  - destruct p; cbn; split_and!; done.
Qed.

Lemma X15_safe_unloads_base_only_witness :
  _pipeline (set_safe_property false busy_manager).2 = None
  /\ _inpainter_pipeline (set_safe_property false busy_manager).2
     = Some (Pipe 1 Inpainter cuda float16 512).
Proof.
  destruct (X15_safe_unloads_base_only false busy_manager)
    as (_ & _ & H3 & _ & _ & _ & H7 & _).
  split; [apply H7; discriminate|exact H3].
Defined.

(** X16. Without a refiner configured, [__call__] asks the outside for
    one thing at most, the run of the base or inpainter pipeline, and
    returns what that run returns or raises what it raises, whatever
    refiner arguments it was given; the refiner pipeline is neither
    built nor moved. *)
Theorem X16_call_without_refiner (E : environment)
    (a1 a2 a3 a4 : option number) (scale_to_refiner_size : bool)
    (kw : kwargs) (m : manager) :
  refiner E = None ->
  let r := call E a1 a2 a3 a4 scale_to_refiner_size kw m in
  _refiner_pipeline r.2 = _refiner_pipeline m
  /\ _refiner_pipeline_is_offloaded r.2 = _refiner_pipeline_is_offloaded m
  /\ ((trace r.2 = trace m /\ exists e, r.1 = Raised e)
      \/ exists pipe,
           trace r.2 = trace m ++ [Ran pipe kw]
           /\ r.1 = match run_pipeline E pipe kw with
                    | inr res => Returned res
                    | inl e => Raised e
                    end).
Proof.
  intros Hr. cbn zeta. unfold call, try_finally, start_keepalive. run.
  pose proof (call_body_without_refiner E a1 a2 a3 a4 scale_to_refiner_size
                kw (set_keepalive_thread true m) Hr) as Hbody.
  unfold wp in Hbody.
  destruct (call_body E a1 a2 a3 a4 scale_to_refiner_size kw
              (set_keepalive_thread true m)) as [o m1].
  cbn [fst snd] in Hbody.
  pose proof (quiet_bind _ _
                (quiet_set_tensorrt_is_enabled E true)
                (fun _ => quiet_stop_keepalive) m1) as Hfinal.
  unfold stop_keepalive in *. run.
  destruct (set_tensorrt_is_enabled_spec E true m1) as (m2 & Hm2 & _).
  rewrite Hm2 in *. cbn in *.
  assert (kept m (set_keepalive_thread true m)) as K0 by (now destruct m).
  destruct (only_primary_kept E kw _ _ _ _ Hbody Hfinal) as (H1 & H2 & H3).
  destruct K0 as (Kt & Kr & Ko). rewrite Kt, Kr, Ko in *. auto.
Qed.

Lemma X16_call_without_refiner_witness :
  (call plain_environment (Some (PyFloat (1 # 2))) None None None true
     plain_kwargs new_manager).1
  = Returned (Result [Image 512 512 (generated 0)] None).
Proof.
  destruct (X16_call_without_refiner plain_environment
              (Some (PyFloat (1 # 2))) None None None true plain_kwargs
              new_manager eq_refl)
    as (_ & _ & [[_ [e He]]|[pipe [_ Hr]]]).
  - vm_compute in He. discriminate He.
  - rewrite Hr. reflexivity.
Defined.

(** X17. When [__call__] is over, by a return or by an exception, the
    keepalive thread is stopped. *)
Theorem X17_call_stops_keepalive (E : environment)
    (a1 a2 a3 a4 : option number) (scale_to_refiner_size : bool)
    (kw : kwargs) (m : manager) :
  _keepalive_thread (call E a1 a2 a3 a4 scale_to_refiner_size kw m).2 = false.
Proof.
  unfold call, start_keepalive, stop_keepalive, try_finally. run.
  destruct (call_body E a1 a2 a3 a4 scale_to_refiner_size kw
              (set_keepalive_thread true m)) as [o m1].
  destruct (set_tensorrt_is_enabled_spec E true m1) as (m2 & -> & _).
  cbn. now destruct m2.
Qed.

(** ** The names that enter the cache keys *)

Lemma basename_from_slash a : forall acc b,
  basename_from acc (a +:+ String slash b) = basename_from "" b.
Proof.
  induction a as [|c a IH]; intros acc b.
  - rewrite KeyFacts.app_empty. cbn [basename_from].
    now rewrite Ascii.eqb_refl.
  - rewrite KeyFacts.app_cons. cbn [basename_from].
    destruct (Ascii.eqb c slash); apply IH.
Qed.

Lemma ends_with_slash_split a :
  ends_with_slash a = true -> exists a', a = a' +:+ String slash "".
Proof.
  induction a as [|c a IH]; [done|]. cbn [ends_with_slash].
  destruct a as [|d a].
  - intros ->%Ascii.eqb_eq. now exists "".
  - intros [a' Ha']%IH. exists (String c a').
    now rewrite KeyFacts.app_cons, <- Ha'.
Qed.

(** [os.path.basename(os.path.join(a, b))] is [os.path.basename(b)]. *)
Lemma basename_path_join a b : basename (path_join a b) = basename b.
Proof.
  unfold path_join, basename. destruct (isabs b); [done|].
  destruct (String.eqb a "") eqn:Ha; cbn [orb].
  - apply String.eqb_eq in Ha as ->. now rewrite KeyFacts.app_empty.
  - destruct (ends_with_slash a) eqn:Hs.
    + apply ends_with_slash_split in Hs as [a' ->].
      rewrite KeyFacts.app_assoc, KeyFacts.app_cons, KeyFacts.app_empty.
      apply basename_from_slash.
    + rewrite KeyFacts.app_cons, KeyFacts.app_empty.
      apply basename_from_slash.
Qed.

(** The name and the strength as they enter the key. *)
Definition key_entry (lw : weight) : weight :=
  (splitext_root (basename lw.1), lw.2).

Lemma key_entries_in_directory dir l :
  map key_entry (in_directory dir l) = map key_entry l.
Proof.
  unfold in_directory. rewrite map_map. apply map_ext. intros [name w].
  unfold key_entry. cbn [fst snd].
  destruct (negb (isabs name)); [now rewrite basename_path_join|done].
Qed.

Lemma weights_eqb_names a : forall b,
  weights_eqb a b = true -> map fst a = map fst b.
Proof.
  induction a as [|x a IH]; intros [|y b]; cbn; try done.
  intros [[Hn _]%andb_prop Hr]%andb_prop.
  apply String.eqb_eq in Hn. f_equal; [done|now apply IH].
Qed.

Section Assigned.
Variable E : environment.

(** The list held after an assignment: the one held before when it
    equals the new one, the new one otherwise. *)
Lemma lora_after a m :
  let new := in_directory (engine_lora_dir E) (normalise_weights a) in
  lora (set_lora_property E a m).2
  = if weights_eqb (lora m) new then lora m else new.
Proof.
  cbn zeta. unfold set_lora_property, unload_pipeline, del_pipeline, lora.
  run.
  destruct a as [|name|name w|items];
    [destruct m as [p ? ? ? ? ? ? ? ? [[|x l]|] ? ? ? ? ? ? ? ?];
     try destruct p; done|..];
    match goal with |- context [ in_directory ?d ?l ] =>
      generalize (in_directory d l)
    end; intros new;
    (destruct (weights_eqb (default [] (_lora m)) new) eqn:Heq;
     cbn [negb fst snd]; [done|]);
    destruct m as [[p|] ? ? ? ? ? ? ? ? ? ? ? ? ? ? ? ? ?]; done.
Qed.

Lemma lycoris_after a m :
  let new := in_directory (engine_lycoris_dir E) (normalise_weights a) in
  lycoris (set_lycoris_property E a m).2
  = if weights_eqb (lycoris m) new then lycoris m else new.
Proof.
  cbn zeta. unfold set_lycoris_property, unload_pipeline, del_pipeline,
    lycoris.
  run.
  destruct a as [|name|name w|items];
    [destruct m as [p ? ? ? ? ? ? ? ? ? [[|x l]|] ? ? ? ? ? ? ?];
     try destruct p; done|..];
    match goal with |- context [ in_directory ?d ?l ] =>
      generalize (in_directory d l)
    end; intros new;
    (destruct (weights_eqb (default [] (_lycoris m)) new) eqn:Heq;
     cbn [negb fst snd]; [done|]);
    destruct m as [[p|] ? ? ? ? ? ? ? ? ? ? ? ? ? ? ? ? ?]; done.
Qed.

Lemma key_names held dir a :
  (if weights_eqb held (in_directory dir (normalise_weights a))
   then map fst (map key_entry held)
   else map fst (map key_entry (in_directory dir (normalise_weights a))))
  = map (fun lw => splitext_root (basename lw.1)) (normalise_weights a).
Proof.
  assert (Hnames : forall l : list weight,
    map fst (map key_entry l)
    = map (fun n => splitext_root (basename n)) (map fst l)).
  { intros l. rewrite !map_map. now apply map_ext. }
  rewrite <- (map_map fst (fun n => splitext_root (basename n))
                (normalise_weights a)).
  rewrite <- Hnames.
  destruct (weights_eqb held _) eqn:Heq.
  - rewrite !Hnames, (weights_eqb_names _ _ Heq), <- !Hnames.
    now rewrite key_entries_in_directory.
  - now rewrite key_entries_in_directory.
Qed.

End Assigned.

(** X18. After an assignment to [lora], the names that enter the cache
    keys are the base names, without extension, of the names assigned:
    neither the directory in which the engine keeps its LoRA files nor a
    directory written in a name enters a key. When the assignment
    changed the list, the strengths are the ones assigned, a bare name
    counting 1. The same holds for [lycoris]. *)
Theorem X18_key_names_ignore_directories (E : environment)
    (a : weight_arg) (m : manager) :
  (let m' := (set_lora_property E a m).2 in
   map fst (lora_names_weights m')
   = map (fun lw => splitext_root (basename lw.1)) (normalise_weights a)
   /\ (weights_eqb (lora m)
         (in_directory (engine_lora_dir E) (normalise_weights a)) = false ->
       lora_names_weights m' = map key_entry (normalise_weights a)))
  /\ (let m' := (set_lycoris_property E a m).2 in
   map fst (lycoris_names_weights m')
   = map (fun lw => splitext_root (basename lw.1)) (normalise_weights a)
   /\ (weights_eqb (lycoris m)
         (in_directory (engine_lycoris_dir E) (normalise_weights a)) = false ->
       lycoris_names_weights m' = map key_entry (normalise_weights a))).
Proof.
  split; cbn zeta.
  - unfold lora_names_weights. fold key_entry. rewrite lora_after.
    split.
    + rewrite <- (key_names (lora m) (engine_lora_dir E) a).
      now destruct (weights_eqb _ _).
    + intros ->. apply key_entries_in_directory.
  - unfold lycoris_names_weights. fold key_entry. rewrite lycoris_after.
    split.
    + rewrite <- (key_names (lycoris m) (engine_lycoris_dir E) a).
      now destruct (weights_eqb _ _).
    + intros ->. apply key_entries_in_directory.
Qed.

Lemma X18_key_names_ignore_directories_witness :
  lora_names_weights
    (set_lora_property plain_environment
       (arg_list [item_name "style.safetensors";
                  item_pair "/other/detail.pt" (PyInt 2)]) new_manager).2
  = [("style", PyInt 1); ("detail", PyInt 2)].
Proof.
  apply (X18_key_names_ignore_directories plain_environment
           (arg_list [item_name "style.safetensors";
                      item_pair "/other/detail.pt" (PyInt 2)]) new_manager).
  reflexivity.
Defined.

(** ** The refinement pass and flagged images *)

(** The image at index [i] is flagged as unsafe. *)
Definition flagged (nsfw : option (list bool)) (i : nat) : Prop :=
  exists flags, nsfw = Some flags /\ flags !! i = Some true.

Section Flagged.
Variable E : environment.

Lemma refine_image_images a1 a2 a3 a4 scale nsfw i im st m st' m' :
  refine_image E a1 a2 a3 a4 scale nsfw i im st m = (Returned st', m') ->
  (st' = st /\ m' = m /\ flagged nsfw i)
  \/ (~ flagged nsfw i
      /\ exists x, l_images st' = <[i := x]> (l_images st)).
Proof.
  unfold refine_image, stop_keepalive, flagged. run. intros H.
  destruct nsfw as [flags|].
  - destruct (flags !! i) as [[|]|] eqn:Hf; cbn in H.
    + injection H as <- <-. left. eauto.
    + right. split; [intros (? & [= <-] & ?); congruence|].
      repeat case_match; simplify_eq; cbn; eauto.
    + discriminate H.
  - right. split; [intros (? & [=] & _)|].
    repeat case_match; simplify_eq; cbn; eauto.
Qed.

Lemma refine_images_images a1 a2 a3 a4 scale nsfw ims :
  forall i st m st' m',
  refine_images E a1 a2 a3 a4 scale nsfw i ims st m = (Returned st', m') ->
  length (l_images st') = length (l_images st)
  /\ (forall j, (j < i)%nat \/ flagged nsfw j ->
        l_images st' !! j = l_images st !! j)
  /\ ((forall j, (i <= j < i + length ims)%nat -> flagged nsfw j) ->
      st' = st /\ m' = m).
Proof.
  induction ims as [|im ims IH]; intros i st m st' m' H.
  - cbn in H. injection H as <- <-. done.
  - cbn [refine_images] in H. run.
    destruct (refine_image E a1 a2 a3 a4 scale nsfw i im st m)
      as [[st1|e] m1] eqn:H1; [|discriminate H].
    apply IH in H as (Hlen & Hsame & Hall).
    apply refine_image_images in H1
      as [(-> & -> & Hfl)|(Hnot & x & Hx)].
    + split_and!; [done| |].
      * intros j Hj. apply Hsame. destruct Hj; [left; lia|now right].
      * intros Hj. apply Hall. intros j ?. apply Hj. cbn [length]. lia.
    + split_and!.
      * now rewrite Hlen, Hx, length_insert.
      * intros j Hj. rewrite Hsame by (destruct Hj; [left; lia|now right]).
        rewrite Hx. apply list_lookup_insert_ne.
        intros <-. destruct Hj; [lia|done].
      * intros Hj. exfalso. apply Hnot, Hj. cbn [length]. lia.
Qed.

End Flagged.

(** X19. The refinement loop of [__call__], whenever it comes to its
    end: the list of images has the length it had, and an image flagged
    as unsafe is the one the primary pipeline returned. When every image
    is flagged, the loop changes nothing: no refiner is built and no run
    is asked for. *)
Theorem X19_refinement_keeps_flagged_images (E : environment)
    (a1 a2 a3 a4 : option number) (scale_to_refiner_size : bool)
    (nsfw : option (list bool)) (ims : list image)
    (st st' : loop_state) (m m' : manager) :
  refine_images E a1 a2 a3 a4 scale_to_refiner_size nsfw 0 ims st m
  = (Returned st', m') ->
  length (l_images st') = length (l_images st)
  /\ (forall j, flagged nsfw j -> l_images st' !! j = l_images st !! j)
  /\ ((forall j, (j < length ims)%nat -> flagged nsfw j) ->
      st' = st /\ m' = m).
Proof.
  intros H. apply refine_images_images in H as (H1 & H2 & H3).
  split_and!; [done|auto|].
  intros Hj. apply H3. intros j ?. apply Hj. lia.
Qed.

Lemma X19_refinement_keeps_flagged_images_witness :
  let ims := [Image 512 512 (generated 0); Image 512 512 (generated 1)] in
  exists st' m',
    refine_images refining_environment None None None None true
      (Some [true; false]) 0 ims (Loop plain_kwargs (Frame None 0 0) ims)
      new_manager = (Returned st', m')
    /\ l_images st' !! 0%nat = Some (Image 512 512 (generated 0)).
Proof.
  cbn zeta.
  destruct (refine_images refining_environment None None None None true
              (Some [true; false]) 0
              [Image 512 512 (generated 0); Image 512 512 (generated 1)]
              (Loop plain_kwargs (Frame None 0 0)
                 [Image 512 512 (generated 0); Image 512 512 (generated 1)])
              new_manager) as [[st'|e] m'] eqn:H.
  - exists st', m'. split; [reflexivity|].
    destruct (X19_refinement_keeps_flagged_images _ _ _ _ _ _ _ _ _ _ _ _ H)
      as (_ & H2 & _).
    rewrite H2; [reflexivity|]. exists [true; false]. split; reflexivity.
  - vm_compute in H. discriminate H.
Defined.

(** ** The pipelines are built on first use *)

Section Lazy.
Variable E : environment.

Lemma reads_inpainter_size : reads (inpainter_size E).
Proof.
  unfold inpainter_size.
  repeat first [apply reads_ret | apply reads_size | case_match].
Qed.

Lemma reads_inpainter_use_tensorrt : reads (inpainter_use_tensorrt E).
Proof.
  unfold inpainter_use_tensorrt, inpainter_tensorrt_is_ready,
    inpainter_unet_key.
  repeat first [apply reads_bind; [|intros ?] | apply reads_size
               | apply reads_tensorrt_is_enabled | apply reads_ret
               | case_match].
Qed.

(** What an access to a pipeline property that returns [p] has done to
    the attribute [held_before] and the count of objects built. *)
Definition first_use (held_before held_after : option pipe) (p : pipe)
    (m m1 : manager) : Prop :=
  held_after = Some p
  /\ (held_before = Some p /\ m1 = m
      \/ held_before = None /\ built m1 = S (built m) /\ pipe_id p = built m).

Lemma pipeline_first_use m p m1 :
  pipeline E m = (Returned p, m1) ->
  first_use (_pipeline m) (_pipeline m1) p m m1.
Proof.
  unfold pipeline, build, first_use. run.
  destruct (_pipeline m) as [p0|] eqn:Hp.
  - intros [= <- <-]. auto.
  - destruct (reads_size E m) as (sz & m2 & -> & K1).
    destruct (reads_chunking_size E m2) as (cs & m3 & -> & K2).
    destruct (reads_safe E m3) as (sf & m4 & -> & K3).
    destruct (reads_use_tensorrt E m4) as (u & m5 & -> & K4).
    destruct (construct_fails E Base); [discriminate|].
    intros [= <- <-].
    assert (built m5 = built m) as Hb by (unfold held in *; congruence).
    destruct m5. cbn in *. split; [done|right]. rewrite Hb. done.
Qed.

Lemma refiner_pipeline_first_use m p m1 :
  refiner_pipeline E m = (Returned p, m1) ->
  first_use (_refiner_pipeline m) (_refiner_pipeline m1) p m m1.
Proof.
  unfold refiner_pipeline, build, first_use.
  destruct (refiner E) as [[|c name]|]; [discriminate| |discriminate]. run.
  destruct (_refiner_pipeline m) as [p0|] eqn:Hp.
  - intros [= <- <-]. auto.
  - destruct (reads_refiner_size E m) as (sz & m2 & -> & K1).
    destruct (reads_chunking_size E m2) as (cs & m3 & -> & K2).
    destruct (reads_refiner_use_tensorrt E m3) as (u & m4 & -> & K3).
    destruct (construct_fails E Refiner); [discriminate|].
    intros [= <- <-].
    assert (built m4 = built m) as Hb by (unfold held in *; congruence).
    destruct m4. cbn in *. split; [done|right]. rewrite Hb. done.
Qed.

Lemma inpainter_pipeline_first_use m p m1 :
  inpainter_pipeline E m = (Returned p, m1) ->
  first_use (_inpainter_pipeline m) (_inpainter_pipeline m1) p m m1.
Proof.
  unfold inpainter_pipeline, build, first_use. run.
  destruct (_inpainter_pipeline m) as [p0|] eqn:Hp.
  - intros [= <- <-]. auto.
  - destruct (reads_inpainter_size m) as (sz & m2 & -> & K1).
    destruct (reads_chunking_size E m2) as (cs & m3 & -> & K2).
    destruct (reads_safe E m3) as (sf & m4 & -> & K3).
    destruct (reads_inpainter_use_tensorrt m4) as (u & m5 & -> & K4).
    destruct (construct_fails E Inpainter); [discriminate|].
    intros [= <- <-].
    assert (built m5 = built m) as Hb by (unfold held in *; congruence).
    destruct m5. cbn in *. split; [done|right]. rewrite Hb. done.
Qed.

End Lazy.

(** X20. The three pipeline properties build on first use and never
    again: when an access returns an object, that object is the one held
    afterwards, it was either held before, the manager being left as it
    was, or it is new and the one object built by the access; and the
    next access returns the same object and changes nothing. *)
Theorem X20_pipelines_built_on_first_use (E : environment) (m m1 : manager)
    (p : pipe) :
  (pipeline E m = (Returned p, m1) ->
   first_use (_pipeline m) (_pipeline m1) p m m1
   /\ pipeline E m1 = (Returned p, m1))
  /\ (refiner_pipeline E m = (Returned p, m1) ->
   first_use (_refiner_pipeline m) (_refiner_pipeline m1) p m m1
   /\ refiner_pipeline E m1 = (Returned p, m1))
  /\ (inpainter_pipeline E m = (Returned p, m1) ->
   first_use (_inpainter_pipeline m) (_inpainter_pipeline m1) p m m1
   /\ inpainter_pipeline E m1 = (Returned p, m1)).
Proof.
  split_and!; intros H.
  - pose proof (pipeline_first_use E m p m1 H) as Hf.
    split; [exact Hf|]. destruct Hf as [Hheld _].
    unfold pipeline. run. now rewrite Hheld.
  - pose proof (refiner_pipeline_first_use E m p m1 H) as Hf.
    split; [exact Hf|]. destruct Hf as [Hheld _].
    unfold refiner_pipeline in *. run.
    destruct (refiner E) as [[|c name]|]; [discriminate| |discriminate].
    now rewrite Hheld.
  - pose proof (inpainter_pipeline_first_use E m p m1 H) as Hf.
    split; [exact Hf|]. destruct Hf as [Hheld _].
    unfold inpainter_pipeline. run. now rewrite Hheld.
Qed.

Lemma X20_pipelines_built_on_first_use_witness :
  let p := Pipe 0 Inpainter cuda float16 512 in
  exists m1, inpainter_pipeline plain_environment new_manager
             = (Returned p, m1)
    /\ inpainter_pipeline plain_environment m1 = (Returned p, m1)
    /\ built m1 = 1%nat.
Proof.
  cbn zeta. eexists. split; [vm_compute; reflexivity|].
  split; [|reflexivity].
  apply (X20_pipelines_built_on_first_use plain_environment new_manager).
  vm_compute. reflexivity.
Defined.

(** ** Calls below the engine size when a compiled engine is ready *)

(** The value of [tensorrt_is_enabled]: the attribute, or [True] when it
    is not set. *)
Definition enabled (m : manager) : bool := default true (_tensorrt_enabled m).

(** [steady c]: whatever its outcome, [c] leaves that value as it is. *)
Definition steady {A} (c : M A) : Prop := forall m, enabled (c m).2 = enabled m.

Lemma steady_ret {A} (a : A) : steady (mret a).
Proof. done. Qed.

Lemma steady_raise {A} e : steady (@raise A e).
Proof. done. Qed.

Lemma steady_get : steady get.
Proof. done. Qed.

Lemma steady_bind {A B} (c : M A) (k : A -> M B) :
  steady c -> (forall a, steady (k a)) -> steady (c ≫= k).
Proof.
  intros Hc Hk m. run. specialize (Hc m).
  destruct (c m) as [[a|e] m1]; cbn in *; [|done].
  now rewrite Hk.
Qed.

Lemma steady_modify (f : manager -> manager) :
  (forall m, enabled (f m) = enabled m) -> steady (modify f).
Proof. intros Hf m. apply Hf. Qed.

Ltac steady_direct :=
  intros m;
  cbv beta delta [pipeline_is_offloaded inpainter_is_offloaded
                  refiner_is_offloaded];
  repeat (case_match; cbn [snd fst]);
  match goal with |- enabled _ = enabled ?m0 => now destruct m0 end.

Lemma steady_size E : steady (size E).
Proof. unfold size. steady_direct. Qed.
Lemma steady_chunking_size E : steady (chunking_size E).
Proof. unfold chunking_size. steady_direct. Qed.
Lemma steady_safe E : steady (safe E).
Proof. unfold safe. steady_direct. Qed.
Lemma steady_tensorrt_is_enabled : steady tensorrt_is_enabled.
Proof. now intros [? ? ? ? ? ? ? ? ? ? ? ? ? [b|] ? ? ? ?]. Qed.
Lemma steady_del_pipeline : steady del_pipeline.
Proof. unfold del_pipeline. steady_direct. Qed.
Lemma steady_del_refiner_pipeline : steady del_refiner_pipeline.
Proof. unfold del_refiner_pipeline. steady_direct. Qed.
Lemma steady_del_inpainter_pipeline : steady del_inpainter_pipeline.
Proof. unfold del_inpainter_pipeline. steady_direct. Qed.
Lemma steady_unload_pipeline r : steady (unload_pipeline r).
Proof.
  intros m. unfold unload_pipeline. case_match; [apply steady_del_pipeline|done].
Qed.
Lemma steady_unload_refiner r : steady (unload_refiner r).
Proof.
  intros m. unfold unload_refiner.
  case_match; [apply steady_del_refiner_pipeline|done].
Qed.
Lemma steady_unload_inpainter r : steady (unload_inpainter r).
Proof.
  intros m. unfold unload_inpainter.
  case_match; [apply steady_del_inpainter_pipeline|done].
Qed.
Lemma steady_offload_pipeline : steady offload_pipeline.
Proof. unfold offload_pipeline. steady_direct. Qed.
Lemma steady_offload_refiner : steady offload_refiner.
Proof. unfold offload_refiner. steady_direct. Qed.
Lemma steady_offload_inpainter : steady offload_inpainter.
Proof. unfold offload_inpainter. steady_direct. Qed.
Lemma steady_reload_pipeline E : steady (reload_pipeline E).
Proof. unfold reload_pipeline. steady_direct. Qed.
Lemma steady_reload_refiner E : steady (reload_refiner E).
Proof. unfold reload_refiner. steady_direct. Qed.
Lemma steady_reload_inpainter E : steady (reload_inpainter E).
Proof. unfold reload_inpainter. steady_direct. Qed.
Lemma steady_start_keepalive : steady start_keepalive.
Proof. apply steady_modify. now intros []. Qed.
Lemma steady_stop_keepalive : steady stop_keepalive.
Proof. apply steady_modify. now intros []. Qed.
Lemma steady_emit ev : steady (emit ev).
Proof. apply steady_modify. now intros []. Qed.

Ltac steady_step :=
  first
    [ apply steady_ret | apply steady_raise | apply steady_get
    | apply steady_size | apply steady_chunking_size | apply steady_safe
    | apply steady_tensorrt_is_enabled | apply steady_unload_pipeline
    | apply steady_unload_refiner | apply steady_unload_inpainter
    | apply steady_offload_pipeline | apply steady_offload_refiner
    | apply steady_offload_inpainter | apply steady_reload_pipeline
    | apply steady_reload_refiner | apply steady_reload_inpainter
    | apply steady_start_keepalive | apply steady_stop_keepalive
    | apply steady_emit
    | apply steady_modify; intros []; reflexivity
    | apply steady_bind; [|intros ?]
    | case_match ].

Lemma steady_tensorrt_is_ready E : steady (tensorrt_is_ready E).
Proof.
  unfold tensorrt_is_ready, model_unet_key, model_controlled_unet_key.
  repeat steady_step.
Qed.

Lemma steady_build E v sz : steady (build E v sz).
Proof. unfold build. repeat steady_step. Qed.

Lemma steady_pipeline E : steady (pipeline E).
Proof.
  unfold pipeline, use_tensorrt.
  repeat first [apply steady_tensorrt_is_ready | apply steady_build
               | steady_step].
Qed.

Lemma steady_refiner_pipeline E : steady (refiner_pipeline E).
Proof.
  unfold refiner_pipeline, refiner_size, refiner_use_tensorrt,
    refiner_tensorrt_is_ready, refiner_unet_key, refiner_controlled_unet_key.
  repeat first [apply steady_build | steady_step].
Qed.

Lemma steady_refine_image E a1 a2 a3 a4 scale nsfw i im st :
  steady (refine_image E a1 a2 a3 a4 scale nsfw i im st).
Proof.
  unfold refine_image, refiner_size.
  repeat first [apply steady_refiner_pipeline | steady_step].
Qed.

Lemma steady_refine_images E a1 a2 a3 a4 scale nsfw ims : forall i st,
  steady (refine_images E a1 a2 a3 a4 scale nsfw i ims st).
Proof.
  induction ims as [|im ims IH]; intros i st; cbn [refine_images].
  - apply steady_ret.
  - apply steady_bind; [apply steady_refine_image|intros ?; apply IH].
Qed.

Lemma bind_ok {A B} (c : M A) (k : A -> M B) m a m1 :
  c m = (Returned a, m1) -> (c ≫= k) m = k a m1.
Proof. intros Hc. run. now rewrite Hc. Qed.

Lemma bind_fails {A B} (c : M A) (k : A -> M B) m e m1 :
  c m = (Raised e, m1) -> (c ≫= k) m = (Raised e, m1).
Proof. intros Hc. run. now rewrite Hc. Qed.

Section Undersized.
Variable E : environment.
Hypothesis supported : tensorrt_is_supported E = true.
Hypothesis compiled : forall stage key, engine_exists E stage key = true.

Lemma ready_here m :
  exists z, tensorrt_is_ready E m = (Returned true, set_size (Some z) m).
Proof.
  unfold tensorrt_is_ready, model_unet_key, model_controlled_unet_key.
  rewrite supported. cbn [negb]. run.
  destruct (size_spec E m) as (z & Hz & _).
  destruct (controlnet E); rewrite Hz, compiled; eauto.
Qed.

(** The setter of [tensorrt_is_enabled], a compiled engine being ready:
    a new value discards the base pipeline, the value held keeps it. *)
Lemma setter_discards b m :
  enabled m = negb b ->
  let r := set_tensorrt_is_enabled E b m in
  r.1 = Returned tt /\ _pipeline r.2 = None /\ enabled r.2 = b.
Proof.
  intros Hen. cbn zeta. unfold set_tensorrt_is_enabled. run.
  assert (exists m1, tensorrt_is_enabled m = (Returned (negb b), m1)
            /\ _pipeline m1 = _pipeline m) as (m1 & -> & Hp1).
  { unfold tensorrt_is_enabled, enabled in *.
    destruct m as [? ? ? ? ? ? ? ? ? ? ? ? ? [b0|] ? ? ? ?]; cbn in *;
      [subst|rewrite <- Hen]; eauto. }
  rewrite Bool.eqb_negb2. cbn [negb].
  destruct (ready_here m1) as (z & ->).
  unfold unload_pipeline, del_pipeline.
  destruct m1 as [[p|] ? ? ? ? ? ? ? ? ? ? ? ? ? ? ? ? ?]; done.
Qed.

Lemma setter_keeps b m :
  enabled m = b ->
  let r := set_tensorrt_is_enabled E b m in
  r.1 = Returned tt /\ _pipeline r.2 = _pipeline m /\ enabled r.2 = b.
Proof.
  intros Hen. cbn zeta. unfold set_tensorrt_is_enabled. run.
  assert (exists m1, tensorrt_is_enabled m = (Returned b, m1)
            /\ _pipeline m1 = _pipeline m) as (m1 & -> & Hp1).
  { unfold tensorrt_is_enabled, enabled in *.
    destruct m as [? ? ? ? ? ? ? ? ? ? ? ? ? [b0|] ? ? ? ?]; cbn in *;
      subst; eauto. }
  rewrite Bool.eqb_reflx. cbn [negb].
  destruct m1; done.
Qed.

(** [self.size] as the call reads it. *)
Definition size_of (m : manager) : Z :=
  default (default DEFAULT_SIZE (cfg_size E)) (_size m).

Lemma size_is m : size E m = (Returned (size_of m), set_size (Some (size_of m)) m).
Proof.
  unfold size, size_of.
  now destruct m as [? ? ? ? ? ? [z|] ? ? ? ? ? ? ? ? ? ? ?].
Qed.

Lemma pipeline_raises m e m1 :
  pipeline E m = (Raised e, m1) -> _pipeline m1 = None.
Proof.
  unfold pipeline, build. run.
  destruct (_pipeline m) as [p0|] eqn:Hp; [discriminate|].
  destruct (reads_size E m) as (sz & m2 & -> & K1).
  destruct (reads_chunking_size E m2) as (cs & m3 & -> & K2).
  destruct (reads_safe E m3) as (sf & m4 & -> & K3).
  destruct (reads_use_tensorrt E m4) as (u & m5 & -> & K4).
  destruct (construct_fails E Base); [|discriminate].
  intros [= <- <-]. unfold held in *. congruence.
Qed.

(** The first block of a call without mask: the size, the base
    pipeline, the inpainter moved out of the way. *)
Definition base_block : M Z :=
  sz ← size E;
  _ ← pipeline E;
  (if bool_decide (pipeline_switch_mode E = Some "offload")
   then offload_inpainter
   else if bool_decide (pipeline_switch_mode E = Some "unload")
   then unload_inpainter "switching from inpainting"
   else mret tt);;
  reload_pipeline E;;
  mret sz.

Lemma steady_base_block : steady base_block.
Proof.
  unfold base_block. repeat first [apply steady_pipeline | steady_step].
Qed.

Lemma base_block_outcome m :
  (exists mA, base_block m = (Returned (size_of m), mA))
  \/ (exists e mA, base_block m = (Raised e, mA) /\ _pipeline mA = None).
Proof.
  unfold base_block. rewrite (bind_ok _ _ _ _ _ (size_is m)).
  destruct (pipeline E (set_size (Some (size_of m)) m)) as [[p|e] m2] eqn:Hp.
  - left. rewrite (bind_ok _ _ _ _ _ Hp).
    unfold offload_inpainter, unload_inpainter, del_inpainter_pipeline,
      reload_pipeline. run.
    repeat case_match; simplify_eq; eauto.
  - right. exists e, m2. rewrite (bind_fails _ _ _ _ _ Hp).
    split; [done|]. now apply pipeline_raises in Hp.
Qed.

(** The body of the call, the width or the height asked for being
    below the engine size: either the flag is off when the body is left,
    or the body was left by a failing construction and no base pipeline
    is held. *)
Lemma body_outcome a1 a2 a3 a4 scale kw m :
  kw_mask kw = None -> enabled m = true ->
  default (size_of m) (kw_width kw) < size_of m
  \/ default (size_of m) (kw_height kw) < size_of m ->
  let r := call_body E a1 a2 a3 a4 scale kw m in
  enabled r.2 = false \/ (_pipeline r.2 = None /\ enabled r.2 = true).
Proof.
  intros Hmask Hen Hsmall. cbn zeta. unfold call_body.
  rewrite Hmask.
  rewrite (bool_decide_eq_false_2 (@None nat <> None))
    by (intros H; now apply H).
  cbn iota.
  pose proof (steady_base_block m) as HenA.
  destruct (base_block_outcome m) as [(mA & HA)|(e & mA & HA & Hp)].
  2:{ unfold base_block in HA. rewrite (bind_fails _ _ _ _ _ HA).
      right. unfold base_block in HenA. rewrite HA in HenA.
      cbn [fst snd] in *. split; congruence. }
  unfold base_block in HA, HenA. rewrite (bind_ok _ _ _ _ _ HA).
  rewrite HA in HenA. cbn [snd] in HenA.
  destruct (reads_chunking_size E mA) as (cs & mB & HB & _).
  pose proof (steady_chunking_size E mA) as HenB.
  rewrite HB in HenB. cbn [snd] in HenB.
  rewrite (bind_ok _ _ _ _ _ HB).
  match goal with |- context [ (?c ≫= ?k) mB ] =>
    assert (c = set_tensorrt_is_enabled E false) as Hc;
    [|rewrite Hc; assert (steady (k tt)) as Hk]
  end.
  - destruct Hsmall as [Hw|Hh].
    + now rewrite (proj2 (Z.ltb_lt _ _) Hw).
    + destruct (_ <? _); [done|]. now rewrite (proj2 (Z.ltb_lt _ _) Hh).
  - repeat first [apply steady_pipeline | apply steady_refine_images
                 | steady_step].
  - destruct (setter_discards false mB) as (H1 & H2 & H3);
      [cbn [negb]; congruence|].
    destruct (set_tensorrt_is_enabled E false mB) as [o m5] eqn:H5.
    cbn [fst snd] in H1, H2, H3. subst o.
    rewrite (bind_ok _ _ _ _ _ H5). left. now rewrite Hk.
Qed.

(** The base pipeline when the call is over. *)
Lemma call_outcome a1 a2 a3 a4 scale kw m :
  kw_mask kw = None -> enabled m = true ->
  default (size_of m) (kw_width kw) < size_of m
  \/ default (size_of m) (kw_height kw) < size_of m ->
  _pipeline (call E a1 a2 a3 a4 scale kw m).2 = None.
Proof.
  intros Hmask Hen Hsmall.
  unfold call, try_finally, start_keepalive, stop_keepalive. run.
  pose proof (body_outcome a1 a2 a3 a4 scale kw (set_keepalive_thread true m))
    as Hbody.
  assert (size_of (set_keepalive_thread true m) = size_of m) as Hsz
    by (now destruct m).
  rewrite Hsz in Hbody. specialize (Hbody Hmask).
  destruct (call_body E a1 a2 a3 a4 scale kw (set_keepalive_thread true m))
    as [o m1].
  cbn [fst snd] in Hbody.
  destruct Hbody as [Hoff|[Hnone Hon]]; [now destruct m|done| |].
  - destruct (setter_discards true m1 Hoff) as (H1 & H2 & _).
    destruct (set_tensorrt_is_enabled E true m1) as [o2 m2].
    cbn [fst snd] in *. subst o2. cbn. now destruct m2.
  - destruct (setter_keeps true m1 Hon) as (H1 & H2 & _).
    destruct (set_tensorrt_is_enabled E true m1) as [o2 m2].
    cbn [fst snd] in *. subst o2. cbn. rewrite <- Hnone, <- H2.
    now destruct m2.
Qed.

End Undersized.

(** An installation with compiled engines for every key. *)
Definition compiled_environment : environment :=
  {| float_repr := fun _ => "";
     cfg_size := None; cfg_chunk_size := None; cfg_chunk_blur := None;
     cfg_safe := None;
     the_device := cuda; the_dtype := float16;
     engine_lora_dir := "/cache/lora";
     engine_lycoris_dir := "/cache/lycoris";
     controlnet := None;
     is_sdxl := false; refiner_is_sdxl := false; inpainter_is_sdxl := false;
     _refiner_size := None; _inpainter_size := None;
     refiner := None;
     refiner_strength := PyFloat (3 # 10);
     refiner_guidance_scale := PyFloat 5;
     refiner_aesthetic_score := PyFloat 6;
     refiner_negative_aesthetic_score := PyFloat (5 # 2);
     pipeline_switch_mode := None;
     tensorrt_is_supported := true;
     cfg_tensorrt := false;
     engine_exists := fun _ _ => true;
     construct_fails := fun _ => None;
     run_pipeline := fun _ _ =>
       inr (Result [Image 256 256 (generated 0)] None);
     run_refiner := fun _ im _ =>
       inr [Image (width im) (height im) (generated 1)] |}.

(** X21. Where TensorRT is supported and a compiled engine is there for
    every key, a call without mask that asks for a width or a height
    below the engine size, made while [tensorrt_is_enabled] is not off,
    leaves the manager without base pipeline, whatever the outcome of
    the call: the pipeline held is discarded when the flag is turned off
    for the call, and the one built for the call is discarded when the
    flag is turned on again at the end. *)
Theorem X21_undersized_call_discards_pipeline (E : environment)
    (a1 a2 a3 a4 : option number) (scale_to_refiner_size : bool)
    (kw : kwargs) (m : manager) :
  tensorrt_is_supported E = true ->
  (forall stage key, engine_exists E stage key = true) ->
  kw_mask kw = None ->
  _tensorrt_enabled m <> Some false ->
  default (size_of E m) (kw_width kw) < size_of E m
  \/ default (size_of E m) (kw_height kw) < size_of E m ->
  _pipeline (call E a1 a2 a3 a4 scale_to_refiner_size kw m).2 = None.
Proof.
  intros Hsup Hcomp Hmask Hflag Hsmall.
  apply call_outcome; try done.
  unfold enabled. destruct (_tensorrt_enabled m) as [[|]|]; done.
Qed.

Lemma X21_undersized_call_discards_pipeline_witness :
  let kw := Kwargs None None (Some 256) None None None None None None None
              None 0 in
  _pipeline (call compiled_environment None None None None true kw
               busy_manager).2 = None
  /\ built (call compiled_environment None None None None true kw
              busy_manager).2 = 3%nat.
Proof.
  cbn zeta. split; [|vm_compute; reflexivity].
  apply (X21_undersized_call_discards_pipeline compiled_environment
           None None None None true
           (Kwargs None None (Some 256) None None None None None None None
              None 0) busy_manager);
    [reflexivity|reflexivity|reflexivity|discriminate|left; reflexivity].
Defined.

(** ** The key of [get_status] and the key of the manager *)




End ManagerProperties.
